(** * Dropify chat bot: cooldown ledger, command dispatcher, discount clients

    A shallow embedding of [bot.js], [discountApi.js] and the Shopify
    issuance client, with the properties of the claim, cooldown and
    discount-issuance policy proved about it.

    Conventions of the embedding.
    - JavaScript numbers that the program computes with are instants in
      milliseconds, durations, percentages and HTTP statuses: integers far
      below 2^53, on which the double arithmetic of the source is exact.
      They are [Z]. [Math.random()] is an exact rational in [0, 1).
    - Strings are held as the bytes of their UTF-8 encoding, the form in
      which chat text and response bodies arrive. White space is the
      white space of JavaScript, every character of it, one to three
      bytes long. Lengths and positions count bytes, which on ASCII text
      are the lengths and positions of JavaScript. Case folding acts on
      the ASCII letters and leaves every other byte alone: command names,
      logins and Twitch identifiers are ASCII, and no other character
      folds to an ASCII letter that occurs in a command name.
    - Plain objects used as maps ([cooldowns], [claimedDiscounts]) are
      [gmap]s. User and channel identifiers are Twitch identifiers (numeric
      ids, lower-cased logins, [#channel]); they are never names of
      properties of [Object.prototype]. The command name typed by a chatter
      is arbitrary text, so the registry lookup does model the properties a
      plain object inherits.
    - Every promise of an outside service ([client.say], [fetch],
      [res.text()], [axios], [client.join]) may reject and takes time; what
      it does is read from a script carried by the world, so that a run is
      a function of the world it starts in.
    - A handler is a computation that runs from its first statement to its
      last, its waits included. The process handles other messages while
      a handler waits at an [await]; where a statement is about that, the
      handler is given in two parts, up to the end of its first [await]
      and from there on. *)

From Stdlib Require Import ZArith QArith Qround Lia Lqa Ascii.
From stdpp Require Import gmap strings list.

Open Scope Z_scope.

(** ** JavaScript strings, as UTF-8 *)

Definition char_code (c : Ascii.ascii) : N := Ascii.N_of_ascii c.

(** The text with the given bytes. *)
Definition utf8 (bytes : list N) : string :=
  fold_right (fun n s => String (Ascii.ascii_of_N n) s) EmptyString bytes.

(** The white space of [String.prototype.trim], of [parseInt] and of the
    regular expression class [\s] (WhiteSpace and LineTerminator of
    ECMAScript), each character in UTF-8. *)
Definition white_space : list string :=
  map utf8
    [ [9]; [10]; [11]; [12]; [13]; [32];        (* TAB LF VT FF CR SPACE *)
      [194; 160];                               (* U+00A0 *)
      [225; 154; 128];                          (* U+1680 *)
      [226; 128; 128]; [226; 128; 129]; [226; 128; 130]; [226; 128; 131];
      [226; 128; 132]; [226; 128; 133]; [226; 128; 134]; [226; 128; 135];
      [226; 128; 136]; [226; 128; 137]; [226; 128; 138];  (* U+2000 .. U+200A *)
      [226; 128; 168]; [226; 128; 169];         (* U+2028 U+2029 *)
      [226; 128; 175];                          (* U+202F *)
      [226; 129; 159];                          (* U+205F *)
      [227; 128; 128];                          (* U+3000 *)
      [239; 187; 191] ]%N.                      (* U+FEFF *)

(** The number of bytes of the white-space character that [s] starts
    with, [0] when it starts with none. *)
Definition space_width (s : string) : nat :=
  match List.find (fun p => String.prefix p s) white_space with
  | Some p => String.length p
  | None => 0%nat
  end.

(** One of the 128 characters that take one byte, and one UTF-16 unit. *)
Definition is_ascii (c : Ascii.ascii) : bool := (char_code c <? 128)%N.

Definition is_digit (c : Ascii.ascii) : bool :=
  let n := char_code c in ((48 <=? n) && (n <=? 57))%N.

Definition is_upper (c : Ascii.ascii) : bool :=
  let n := char_code c in ((65 <=? n) && (n <=? 90))%N.

Definition is_lower (c : Ascii.ascii) : bool :=
  let n := char_code c in ((97 <=? n) && (n <=? 122))%N.

Definition is_alnum (c : Ascii.ascii) : bool :=
  is_digit c || is_upper c || is_lower c.

Definition lower_char (c : Ascii.ascii) : Ascii.ascii :=
  if is_upper c then Ascii.ascii_of_N (char_code c + 32) else c.

Definition upper_char (c : Ascii.ascii) : Ascii.ascii :=
  if is_lower c then Ascii.ascii_of_N (char_code c - 32) else c.

Fixpoint map_string (f : Ascii.ascii -> Ascii.ascii) (s : string) : string :=
  match s with
  | EmptyString => EmptyString
  | String c r => String (f c) (map_string f r)
  end.

Fixpoint forall_string (p : Ascii.ascii -> bool) (s : string) : bool :=
  match s with
  | EmptyString => true
  | String c r => p c && forall_string p r
  end.

Definition toLowerCase : string -> string := map_string lower_char.
Definition toUpperCase : string -> string := map_string upper_char.

Definition is_empty (s : string) : bool :=
  match s with EmptyString => true | _ => false end.

(** The text once the white-space characters at its head are gone;
    [skip] counts the bytes of the current one that are still to pass. *)
Fixpoint skip_spaces (skip : nat) (s : string) : string :=
  match s with
  | EmptyString => EmptyString
  | String _ r =>
      match skip with
      | S k => skip_spaces k r
      | O => match space_width s with
             | S k => skip_spaces k r
             | O => s
             end
      end
  end.

Definition trimStart (s : string) : string := skip_spaces 0 s.

(** The text is made of white-space characters only. *)
Definition all_space (s : string) : bool := is_empty (trimStart s).

(** The text up to the white space it ends with. *)
Fixpoint trimEnd (s : string) : string :=
  match s with
  | EmptyString => EmptyString
  | String c r => if all_space s then EmptyString else String c (trimEnd r)
  end.

Definition trim (s : string) : string := trimEnd (trimStart s).

(** [s.slice(n)] for [0 <= n]. *)
Fixpoint slice_from (n : nat) (s : string) : string :=
  match n, s with
  | O, _ => s
  | S n', String _ r => slice_from n' r
  | S _, EmptyString => EmptyString
  end.

(** [s.slice(0, n)]. Positions count bytes; they are the positions of
    JavaScript in a text of ASCII characters. *)
Fixpoint slice_to (n : nat) (s : string) : string :=
  match n, s with
  | S n', String c r => String c (slice_to n' r)
  | _, _ => EmptyString
  end.

Definition startsWith (s p : string) : bool := String.prefix p s.

(** [s.split(/\s+/)]: the pieces between maximal runs of white space; a
    run at either end leaves an empty piece there. [in_run] says that the
    previous character belonged to a separator already consumed, [skip]
    counts the bytes of the current white-space character still to pass. *)
Fixpoint split_ws_from (skip : nat) (in_run : bool) (cur s : string) : list string :=
  match s with
  | EmptyString => [cur]
  | String c r =>
      match skip with
      | S k => split_ws_from k in_run cur r
      | O =>
          match space_width s with
          | S k =>
              if in_run then split_ws_from k true EmptyString r
              else cur :: split_ws_from k true EmptyString r
          | O => split_ws_from 0 false (cur +:+ String c EmptyString) r
          end
      end
  end.

Definition split_ws (s : string) : list string :=
  split_ws_from 0 false EmptyString s.

(** [s.replace(c, "")] with a one-character pattern: the first occurrence
    goes. *)
Fixpoint remove_first (c : Ascii.ascii) (s : string) : string :=
  match s with
  | EmptyString => EmptyString
  | String d r => if Ascii.eqb c d then r else String d (remove_first c r)
  end.

(** ** Numbers in text *)

Definition digit_char (d : Z) : Ascii.ascii := Ascii.ascii_of_N (48 + Z.to_N d).

Definition digit_val (c : Ascii.ascii) : Z := Z.of_N (char_code c - 48).

Fixpoint show_digits (fuel : nat) (n : Z) (acc : string) : string :=
  match fuel with
  | O => acc
  | S f =>
      let acc' := String (digit_char (n mod 10)) acc in
      if n <? 10 then acc' else show_digits f (n / 10) acc'
  end.

(** [String(n)] for an integer [n]. *)
Definition show_Z (n : Z) : string :=
  let m := Z.abs n in
  let ds := show_digits (S (Z.to_nat (Z.log2 m))) m EmptyString in
  if n <? 0 then String "-"%char ds else ds.

(** [Math.ceil(a / b)] on integers, [0 < b]. *)
Definition ceil_div (a b : Z) : Z := - ((- a) / b).

Fixpoint digits_prefix (s : string) (acc : option Z) : option Z :=
  match s with
  | String c r =>
      if is_digit c
      then digits_prefix r (Some (10 * default 0 acc + digit_val c))
      else acc
  | EmptyString => acc
  end.

(** [parseInt(x, 10)]; [None] is [NaN]. An absent argument is the text
    [undefined], which has no digits. *)
Definition parseInt10 (x : option string) : option Z :=
  match x with
  | None => None
  | Some s =>
      match trimStart s with
      | String "-"%char r => Z.opp <$> digits_prefix r None
      | String "+"%char r => digits_prefix r None
      | t => digits_prefix t None
      end
  end.

(** ** JavaScript values received from the outside *)

#[warnings="-register-all"]
Inductive JValue : Type :=
| JUndefined
| JNull
| JBool (b : bool)
| JNum (n : Z)
| JStr (s : string)
| JArr (items : list JValue)
| JObj (props : list (string * JValue)).

Definition truthy (v : JValue) : bool :=
  match v with
  | JUndefined | JNull => false
  | JBool b => b
  | JNum n => negb (n =? 0)
  | JStr s => negb (is_empty s)
  | JArr _ | JObj _ => true
  end.

(** [a || b]. *)
Definition js_or (a b : JValue) : JValue := if truthy a then a else b.

(** [String(v)], also what a template literal does to [v]. *)
Fixpoint js_String (v : JValue) : string :=
  match v with
  | JUndefined => "undefined"
  | JNull => "null"
  | JBool true => "true"
  | JBool false => "false"
  | JNum n => show_Z n
  | JStr s => s
  | JArr items =>
      (fix join (l : list JValue) : string :=
         match l with
         | [] => EmptyString
         | x :: r =>
             let e := match x with
                      | JUndefined | JNull => EmptyString
                      | _ => js_String x
                      end in
             match r with
             | [] => e
             | _ => e +:+ "," +:+ join r
             end
         end) items
  | JObj _ => "[object Object]"
  end.

Fixpoint assoc_get (k : string) (kvs : list (string * JValue)) : option JValue :=
  match kvs with
  | [] => None
  | (k', v) :: r => if String.eqb k k' then Some v else assoc_get k r
  end.

(** [obj[k] = v] on the property list: an existing property keeps its
    place, a new one goes last. *)
Fixpoint assoc_set (k : string) (v : JValue) (kvs : list (string * JValue))
  : list (string * JValue) :=
  match kvs with
  | [] => [(k, v)]
  | (k', v') :: r =>
      if String.eqb k k' then (k, v) :: r else (k', v') :: assoc_set k v r
  end.

(** [v?.k] for the property names the program reads ([ok], [reason],
    [message], [error], [drop], [code], [discountCode],
    [retryAfterSeconds], [channels]): none is an index, [length] or an
    inherited property, so only an object's own properties answer. *)
Definition opt_prop (v : JValue) (k : string) : JValue :=
  match v with
  | JObj kvs => default JUndefined (assoc_get k kvs)
  | _ => JUndefined
  end.

Definition is_nullish (v : JValue) : bool :=
  match v with JUndefined | JNull => true | _ => false end.

(** [v === "text"]. *)
Definition is_str (v : JValue) (s : string) : bool :=
  match v with JStr t => String.eqb t s | _ => false end.

(** A string that may be [undefined], as a tag of a chat message is. *)
Definition str_truthy (o : option string) : bool :=
  match o with Some s => negb (is_empty s) | None => false end.

Definition str_or (a b : option string) : option string :=
  if str_truthy a then a else b.

Definition show_opt (o : option string) : string :=
  match o with Some s => s | None => "undefined" end.

Definition jv_of_opt (o : option string) : JValue :=
  match o with Some s => JStr s | None => JUndefined end.

(** ** The world: ledger, clock, outside services *)

(** An entry of [claimedDiscounts]: [{ code, createdAt }]. *)
Record Claim := { code : JValue; createdAt : Z }.

(** A thrown value: its [message] and its [response.data] ([undefined]
    unless the HTTP client attached a response). *)
Record Exn := { exn_message : string; exn_data : JValue }.

Definition TypeError : Exn := {| exn_message := "TypeError"; exn_data := JUndefined |}.

(** The body of a [fetch] response: [res.text()] rejects, or resolves with
    the raw text; [parse] is what [JSON.parse] makes of that text, [None]
    when it throws. *)
Inductive Body :=
| Unreadable (why : string)
| Readable (raw : string) (parse : option JValue).

Record Response :=
  { status : Z; content_type : option string; body : Body }.

Inductive FetchOutcome :=
| FetchRejects (why : string)
| FetchResolves (res : Response).

(** What [axios] resolves with, or what it throws. In [bot.js]
    [validateStatus] accepts every status, so it throws only when no
    response arrives; the Shopify client keeps the default and a status
    outside 2xx throws as well. *)
Inductive AxiosOutcome :=
| AxiosThrows (e : Exn)
| AxiosResolves (res_status : Z) (res_data : JValue).

(** What the outside will do next, per service: the time the call takes
    (milliseconds by which [Date.now()] has moved when the promise
    settles) and how it settles; for [say] and [join] the boolean tells
    whether the promise resolves. A service whose list is exhausted
    settles at once: [say] and [join] resolve, [fetch] and [axios]
    reject. *)
Record Script :=
  { says : list (Z * bool);
    fetches : list (Z * FetchOutcome);
    axioses : list (Z * AxiosOutcome);
    joins : list (Z * bool) }.

(** What the process asked of the outside, in order: a chat message and
    whether its promise resolved, the request for a viewer discount, a call
    of the backend or of the commerce API, the request for the roster, and
    a join. *)
Inductive Event :=
| Said (channel text : string) (delivered : bool)
| ViewerDiscountRequest (login : string) (viewer_id viewer_login viewer_name : JValue)
| BackendCall (path method : string) (req_body : JValue)
| RosterRequest
| JoinRequest (channel : string) (joined : bool).

Record World :=
  { cooldowns : gmap string (gmap string Z);
    claimedDiscounts : gmap string (gmap string Claim);
    lastGlobalDropAt : Z;
    joinedChannels : gset string;
    now : Z;
    script : Script;
    trace : list Event }.

Definition with_cooldowns (c : gmap string (gmap string Z)) (w : World) : World :=
  {| cooldowns := c; claimedDiscounts := claimedDiscounts w;
     lastGlobalDropAt := lastGlobalDropAt w; joinedChannels := joinedChannels w;
     now := now w; script := script w; trace := trace w |}.

Definition with_claims (c : gmap string (gmap string Claim)) (w : World) : World :=
  {| cooldowns := cooldowns w; claimedDiscounts := c;
     lastGlobalDropAt := lastGlobalDropAt w; joinedChannels := joinedChannels w;
     now := now w; script := script w; trace := trace w |}.

Definition with_lastGlobalDropAt (t : Z) (w : World) : World :=
  {| cooldowns := cooldowns w; claimedDiscounts := claimedDiscounts w;
     lastGlobalDropAt := t; joinedChannels := joinedChannels w;
     now := now w; script := script w; trace := trace w |}.

Definition with_joined (j : gset string) (w : World) : World :=
  {| cooldowns := cooldowns w; claimedDiscounts := claimedDiscounts w;
     lastGlobalDropAt := lastGlobalDropAt w; joinedChannels := j;
     now := now w; script := script w; trace := trace w |}.

(** An outside call settles: the clock moves, the script loses its head,
    the call is recorded. *)
Definition settle (dt : Z) (s : Script) (e : Event) (w : World) : World :=
  {| cooldowns := cooldowns w; claimedDiscounts := claimedDiscounts w;
     lastGlobalDropAt := lastGlobalDropAt w; joinedChannels := joinedChannels w;
     now := now w + dt; script := s; trace := trace w ++ [e] |}.

(** The world a process starts in. *)
Definition boot (channels : gset string) (t : Z) (s : Script) : World :=
  {| cooldowns := ∅; claimedDiscounts := ∅; lastGlobalDropAt := 0;
     joinedChannels := channels; now := t; script := s; trace := [] |}.

(** The same world, [dt] milliseconds later. *)
Definition later (dt : Z) (w : World) : World :=
  {| cooldowns := cooldowns w; claimedDiscounts := claimedDiscounts w;
     lastGlobalDropAt := lastGlobalDropAt w; joinedChannels := joinedChannels w;
     now := now w + dt; script := script w; trace := trace w |}.

(** The same world at the instant [t]. *)
Definition at_instant (t : Z) (w : World) : World :=
  {| cooldowns := cooldowns w; claimedDiscounts := claimedDiscounts w;
     lastGlobalDropAt := lastGlobalDropAt w; joinedChannels := joinedChannels w;
     now := t; script := script w; trace := trace w |}.

(** ** Computations: state that survives a throw *)

Inductive Result (A : Type) :=
| Ok (a : A)
| Throw (e : Exn).
Arguments Ok {A} a.
Arguments Throw {A} e.

Definition M (A : Type) : Type := World -> Result A * World.

Definition ret {A} (a : A) : M A := fun w => (Ok a, w).

Definition throw {A} (e : Exn) : M A := fun w => (Throw e, w).

Definition bind {A B} (c : M A) (k : A -> M B) : M B :=
  fun w =>
    match c w with
    | (Ok a, w') => k a w'
    | (Throw e, w') => (Throw e, w')
    end.

(** [try { c } catch (e) { h e }]. *)
Definition try_catch {A} (c : M A) (h : Exn -> M A) : M A :=
  fun w =>
    match c w with
    | (Ok a, w') => (Ok a, w')
    | (Throw e, w') => h e w'
    end.

(** A value or a throw computed without the world. *)
Definition lift {A} (r : Result A) : M A := fun w => (r, w).

Definition gets {A} (f : World -> A) : M A := fun w => (Ok (f w), w).

Definition modify (f : World -> World) : M unit := fun w => (Ok tt, f w).

Notation "'let*' x ':=' c 'in' k" := (bind c (fun x => k))
  (at level 10, x name, c at level 100, k at level 200).

Definition Date_now : M Z := gets now.

(** The head of each list of the script, with the behaviour of an
    exhausted list, and the script once that head is consumed. *)
Definition next_say (w : World) : Z * bool :=
  default (0, true) (head (says (script w))).

Definition next_join (w : World) : Z * bool :=
  default (0, true) (head (joins (script w))).

Definition next_fetch (w : World) : Z * FetchOutcome :=
  default (0, FetchRejects "unreachable") (head (fetches (script w))).

Definition next_axios (w : World) : Z * AxiosOutcome :=
  default (0, AxiosThrows {| exn_message := "unreachable"; exn_data := JUndefined |})
    (head (axioses (script w))).

Definition pop_say (s : Script) : Script :=
  {| says := tail (says s); fetches := fetches s; axioses := axioses s; joins := joins s |}.

Definition pop_join (s : Script) : Script :=
  {| says := says s; fetches := fetches s; axioses := axioses s; joins := tail (joins s) |}.

Definition pop_fetch (s : Script) : Script :=
  {| says := says s; fetches := tail (fetches s); axioses := axioses s; joins := joins s |}.

Definition pop_axios (s : Script) : Script :=
  {| says := says s; fetches := fetches s; axioses := tail (axioses s); joins := joins s |}.

(** [client.say(channel, text)]. *)
Definition say (channel text : string) : M unit :=
  fun w =>
    let ok := snd (next_say w) in
    (if ok then Ok tt else Throw {| exn_message := "say"; exn_data := JUndefined |},
     settle (fst (next_say w)) (pop_say (script w)) (Said channel text ok) w).

(** [client.join(channel)]. *)
Definition join (channel : string) : M unit :=
  fun w =>
    let ok := snd (next_join w) in
    (if ok then Ok tt else Throw {| exn_message := "join"; exn_data := JUndefined |},
     settle (fst (next_join w)) (pop_join (script w)) (JoinRequest channel ok) w).

(** [fetch(url, ...)]: the request is recorded as event [e]; a rejection
    is handed to the caller as a value, which the caller's [try] turns
    into its [catch] branch. *)
Definition fetch (e : Event) : M FetchOutcome :=
  fun w =>
    (Ok (snd (next_fetch w)),
     settle (fst (next_fetch w)) (pop_fetch (script w)) e w).

(** [axios(...)]: the request is recorded as event [e]. *)
Definition axios (e : Event) : M (Z * JValue) :=
  fun w =>
    (match snd (next_axios w) with
     | AxiosThrows err => Throw err
     | AxiosResolves st d => Ok (st, d)
     end,
     settle (fst (next_axios w)) (pop_axios (script w)) e w).

(** [sleep(ms)]. *)
Definition sleep (ms : Z) : M unit := modify (later ms).

(** ** Cooldowns and the per-viewer discount cache *)

Definition GLOBAL_DROP_COOLDOWN_MS : Z := 5 * 60 * 1000.
Definition DEFAULT_COOLDOWN_MS : Z := 10 * 1000.
Definition DISCOUNT_LIFETIME_MS : Z := 10 * 60 * 1000.

(** The properties every plain object inherits from [Object.prototype]:
    [obj[k]] is truthy for these [k] although [obj] has no such key. *)
Definition Object_prototype_names : list string :=
  [ "constructor"; "__defineGetter__"; "__defineSetter__"; "hasOwnProperty";
    "__lookupGetter__"; "__lookupSetter__"; "isPrototypeOf";
    "propertyIsEnumerable"; "toString"; "valueOf"; "__proto__";
    "toLocaleString" ].

Definition inherited (k : string) : bool :=
  existsb (String.eqb k) Object_prototype_names.

(** The expiry the ledger holds for a pair: [cooldowns[command][userId] || 0]. *)
Definition expiry (cds : gmap string (gmap string Z)) (command userId : string) : Z :=
  default 0 (cds !! command ≫= (.!! userId)).

(** [isOnCooldown(command, userId)]. The first statement gives the command
    its inner object when [cooldowns[command]] is falsy, which an inherited
    property never is; such a property holds no instant for a user. *)
Definition isOnCooldown (command userId : string) : M Z :=
  let* _ := modify (fun w =>
         match cooldowns w !! command with
         | Some _ => w
         | None => if inherited command then w
                   else with_cooldowns (<[command := ∅]> (cooldowns w)) w
         end) in
  let* expiresAt := gets (fun w => expiry (cooldowns w) command userId) in
  let* t := Date_now in
  ret (if t <? expiresAt then ceil_div (expiresAt - t) 1000 else 0).

(** [setCooldown(command, userId, ms)]; every caller passes [ms]. It is
    reached with the names of the five commands only. *)
Definition setCooldown (command userId : string) (ms : Z) : M unit :=
  let* _ := modify (fun w =>
         match cooldowns w !! command with
         | Some _ => w
         | None => with_cooldowns (<[command := ∅]> (cooldowns w)) w
         end) in
  let* t := Date_now in
  modify (fun w =>
    with_cooldowns
      (<[command := <[userId := t + ms]> (default ∅ (cooldowns w !! command))]>
         (cooldowns w)) w).

(** [getUserDiscount(channel, userId)]; [None] is [null]. *)
Definition getUserDiscount (channel userId : string) : M (option Claim) :=
  let* claims := gets claimedDiscounts in
  match claims !! channel with
  | None => ret None
  | Some per_user =>
      match per_user !! userId with
      | None => ret None
      | Some entry =>
          let* t := Date_now in
          if t - createdAt entry >? DISCOUNT_LIFETIME_MS then ret None
          else ret (Some entry)
      end
  end.

(** [setUserDiscount(channel, userId, code)]. *)
Definition setUserDiscount (channel userId : string) (c : JValue) : M unit :=
  let* _ := modify (fun w =>
         match claimedDiscounts w !! channel with
         | Some _ => w
         | None => with_claims (<[channel := ∅]> (claimedDiscounts w)) w
         end) in
  let* t := Date_now in
  modify (fun w =>
    with_claims
      (<[channel := <[userId := {| code := c; createdAt := t |}]>
                      (default ∅ (claimedDiscounts w !! channel))]>
         (claimedDiscounts w)) w).

(** [COMMAND_COOLDOWNS[name] || DEFAULT_COOLDOWN_MS], for the names that
    reach it. *)
Definition COMMAND_COOLDOWNS (name : string) : option Z :=
  if String.eqb name "ping" then Some 1000
  else if String.eqb name "help" then Some 2000
  else if String.eqb name "discount" then Some (30 * 1000)
  else if String.eqb name "drop" then Some GLOBAL_DROP_COOLDOWN_MS
  else None.

(** ** discountApi.js *)

Definition includes (s sub : string) : bool :=
  match String.index 0 sub s with Some _ => true | None => false end.

(** [{ kind: "json", data }] or [{ kind: "text", data }]. *)
Inductive Parsed :=
| KindJson (data : JValue)
| KindText (data : string).

(** [readJsonOrText(res)]. Its one [await], [res.text()], stands outside
    both [try] blocks; what it settles to is carried by the response, so
    the function needs nothing else from the world. *)
Definition readJsonOrText (res : Response) : Result Parsed :=
  let contentType := toLowerCase (default EmptyString (content_type res)) in
  match body res with
  | Unreadable why => Throw {| exn_message := why; exn_data := JUndefined |}
  | Readable raw parse =>
      if includes contentType "application/json"
      then match parse with
           | Some v => Ok (KindJson v)
           | None => Ok (KindText raw)
           end
      else match parse with
           | Some v => Ok (KindJson v)
           | None => Ok (KindText raw)
           end
  end.

Definition is_object (v : JValue) : bool :=
  match v with JArr _ | JObj _ => true | _ => false end.

Fixpoint indexed (i : Z) (items : list JValue) : list (string * JValue) :=
  match items with
  | [] => []
  | x :: r => (show_Z i, x) :: indexed (i + 1) r
  end.

(** [{ ...data, httpStatus }]. *)
Definition spread_with_status (data : JValue) (st : Z) : JValue :=
  match data with
  | JObj kvs => JObj (assoc_set "httpStatus" (JNum st) kvs)
  | JArr items => JObj (indexed 0 items ++ [("httpStatus", JNum st)])
  | _ => JObj [("httpStatus", JNum st)]
  end.

(** The [viewer] argument as [bot.js] builds it. *)
Record Viewer :=
  { viewer_id : string; viewer_login : option string; viewer_name : option string }.

(** [requestViewerDiscount(streamerLogin, viewer)]. *)
Definition requestViewerDiscount (streamerLogin : string) (viewer : Viewer) : M JValue :=
  let* out := fetch (ViewerDiscountRequest (toLowerCase streamerLogin)
                       (JStr (viewer_id viewer))
                       (jv_of_opt (viewer_login viewer))
                       (jv_of_opt (viewer_name viewer))) in
  match out with
  | FetchRejects why =>
      ret (JObj [ ("ok", JBool false);
                  ("reason", JStr "network_error");
                  ("message", JStr "Failed to reach Dropify API.");
                  ("error", JStr why) ])
  | FetchResolves res =>
      let* parsed := lift (readJsonOrText res) in
      let fallback (raw : JValue) :=
        JObj [ ("ok", JBool false);
               ("reason", JStr (if status res =? 404 then "not_found" else "http_error"));
               ("message", JStr ("Dropify API returned HTTP " +:+ show_Z (status res)));
               ("httpStatus", JNum (status res));
               ("raw", raw) ] in
      match parsed with
      | KindJson data =>
          if truthy data && is_object data
          then ret (spread_with_status data (status res))
          else ret (fallback (match data with
                              | JStr s => JStr (slice_to 500 s)
                              | _ => data
                              end))
      | KindText raw => ret (fallback (JStr (slice_to 500 raw)))
      end
  end.

(** ** bot.js *)

(** The tags of a chat message that the bot reads. [broadcaster] is
    [tags.badges.broadcaster], absent when there are no badges. *)
Record Tags :=
  { display_name : option string;
    username : option string;
    user_id : option string;
    broadcaster : option string }.

(** [tags["display-name"] || tags.username]. *)
Definition name_of (tags : Tags) : option string :=
  str_or (display_name tags) (username tags).

(** [tags["user-id"] || username.toLowerCase()]: a [TypeError] when the
    id is falsy and both names are missing. *)
Definition userId_of (tags : Tags) : Result string :=
  if str_truthy (user_id tags) then Ok (default EmptyString (user_id tags))
  else match name_of tags with
       | Some u => Ok (toLowerCase u)
       | None => Throw TypeError
       end.

(** [callBackend(path, method, body)]. *)
Definition callBackend (path method : string) (req : JValue) : M JValue :=
  let* r := axios (BackendCall path method req) in
  if is_object (snd r) then ret (snd r)
  else ret (JObj [ ("ok", JBool false);
                   ("error", JStr ("Backend returned HTTP " +:+ show_Z (fst r)));
                   ("status", JNum (fst r));
                   ("raw", snd r) ]).

Fixpoint for_each {A} (l : list A) (f : A -> M unit) : M unit :=
  match l with
  | [] => ret tt
  | x :: r => let* _ := f x in for_each r f
  end.

(** [syncJoinsFromBackend()]. *)
Definition syncJoinsFromBackend : M unit :=
  try_catch
    (let* r := axios RosterRequest in
     let data := snd r in
     if negb (truthy data)
        || negb (match opt_prop data "ok" with JBool true => true | _ => false end)
     then ret tt
     else match opt_prop data "channels" with
          | JArr items =>
              let names :=
                filter (fun s => is_empty s = false)
                  (map (fun c => toLowerCase (trim (js_String (js_or c (JStr EmptyString)))))
                     items) in
              for_each names (fun ch =>
                let* joined := gets joinedChannels in
                if bool_decide (ch ∈ joined) then ret tt
                else try_catch
                       (let* _ := join ch in
                        let* _ := modify (fun w => with_joined ({[ch]} ∪ joinedChannels w) w) in
                        sleep 900)
                       (fun _ => ret tt))
          | _ => ret tt
          end)
    (fun _ => ret tt).

Inductive Command := Ping | Help | Discount | Drop | Reload.

Definition command_names : list string :=
  [ "ping"; "help"; "discount"; "drop"; "reload" ].

(** What [COMMANDS[name]] evaluates to when it is truthy: one of the five
    entries, or a property inherited from [Object.prototype], which has no
    [execute]. *)
Inductive Entry :=
| Own (c : Command)
| Proto.

Definition COMMANDS (name : string) : option Entry :=
  if String.eqb name "ping" then Some (Own Ping)
  else if String.eqb name "help" then Some (Own Help)
  else if String.eqb name "discount" then Some (Own Discount)
  else if String.eqb name "drop" then Some (Own Drop)
  else if String.eqb name "reload" then Some (Own Reload)
  else if inherited name then Some Proto
  else None.

Fixpoint join_with (sep : string) (l : list string) : string :=
  match l with
  | [] => EmptyString
  | [x] => x
  | x :: r => x +:+ sep +:+ join_with sep r
  end.

(** The configuration read from the environment: [COMMAND_PREFIX]
    (["!"] unless set) and [OWNER_USERNAME] ([""] unless set). *)
Class Config := { COMMAND_PREFIX : string; OWNER_USERNAME : string }.

Section Bot.

Context {config : Config}.

Definition ping_execute (channel : string) (tags : Tags) : M unit :=
  say channel ("Pong! 🏓 @" +:+ show_opt (display_name tags)).

Definition help_execute (channel : string) (tags : Tags) : M unit :=
  let commandList :=
    join_with ", " (map (fun c => COMMAND_PREFIX +:+ c) command_names) in
  say channel ("@" +:+ show_opt (display_name tags)
               +:+ " Available commands: " +:+ commandList).

(** The replies of the personal-discount command. *)
Definition discount_wait_text (u : string) (cd : Z) : string :=
  "@" +:+ u +:+ " wait " +:+ show_Z cd +:+ "s before requesting another code.".

Definition discount_announcement (u : string) : string :=
  "@" +:+ u +:+ " generating your personal discount code… ⏳".

Definition discount_code_reply (u : string) (c : JValue) : string :=
  "🎁 @" +:+ u +:+ " your code: " +:+ js_String c +:+ " — valid for ~10 minutes!".

(** What the [try] block of the discount handler does with the result of
    the request. Every reply in it is [return client.say(...)]: the promise
    is handed back without [await], so its rejection is not caught by the
    handler's own [catch]. The block therefore yields the reply still to be
    sent. *)
Definition discount_on_result (channel u userId : string) (result : JValue)
  : M (M unit) :=
  if negb (truthy result)
     || (match opt_prop result "ok" with JUndefined => true | _ => false end)
  then ret (say channel ("@" +:+ u +:+ " the Dropify API didn't respond correctly."))
  else if negb (truthy (opt_prop result "ok")) then
    if is_str (opt_prop result "reason") "plan_limit"
       && truthy (opt_prop result "message")
    then ret (say channel ("@" +:+ u +:+ " " +:+ js_String (opt_prop result "message")))
    else if is_str (opt_prop result "reason") "disabled" then
      ret (say channel ("@" +:+ u +:+ " Dropify discounts are currently disabled for this channel."))
    else if is_str (opt_prop result "reason") "not_connected" then
      ret (say channel ("@" +:+ u +:+ " Dropify is not fully connected to Shopify yet."))
    else if is_str (opt_prop result "reason") "cooldown" then
      ret (say channel ("@" +:+ u +:+ " Dropify is on cooldown, try again in about "
                        +:+ js_String (js_or (opt_prop result "retryAfterSeconds") (JNum 10))
                        +:+ " seconds."))
    else if is_str (opt_prop result "reason") "limit_reached" then
      let* existing := getUserDiscount channel userId in
      match existing with
      | Some entry =>
          if truthy (code entry)
          then ret (say channel ("🎁 @" +:+ u +:+ " you already claimed a discount this stream: "
                                 +:+ js_String (code entry)))
          else ret (say channel ("@" +:+ u +:+ " you've already redeemed your discount for this stream 🙌"))
      | None =>
          ret (say channel ("@" +:+ u +:+ " you've already redeemed your discount for this stream 🙌"))
      end
    else if is_str (opt_prop result "reason") "not_found" then
      ret (say channel ("@" +:+ u +:+ " this channel isn't registered with Dropify yet."))
    else
      ret (say channel ("@" +:+ u +:+ " something went wrong while generating your discount."))
  else
    let c := opt_prop result "discountCode" in
    let* _ := setUserDiscount channel userId c in
    let* _ := setCooldown "discount" userId (30 * 1000) in
    ret (say channel (discount_code_reply u c)).

(** [COMMANDS.discount.execute]. *)
Definition discount_execute (channel : string) (tags : Tags) : M unit :=
  let uname := name_of tags in
  let u := show_opt uname in
  let* userId := lift (userId_of tags) in
  let twitchLogin := toLowerCase (remove_first "#" channel) in
  let* cd := isOnCooldown "discount" userId in
  if 0 <? cd then say channel (discount_wait_text u cd)
  else
    let* _ := say channel (discount_announcement u) in
    let* reply :=
      try_catch
        (let* result := requestViewerDiscount twitchLogin
                          {| viewer_id := userId;
                             viewer_login := username tags;
                             viewer_name := uname |} in
         discount_on_result channel u userId result)
        (fun _ =>
           ret (say channel ("@" +:+ u +:+ " something went wrong while generating your discount.")))
    in
    reply.

(** The handler is an [async] function: at each [await] it hands control
    back, and the process handles the messages that arrive until the
    awaited promise settles. [discount_begin] is the handler up to the
    end of its first [await] (bot.js 203-218): the check of the cooldown,
    then either the wait message, with which the handler is over
    ([None]), or the announcement, after which the handler goes on for
    the user id it read ([Some userId]). *)
Definition discount_begin (channel : string) (tags : Tags) : M (option string) :=
  let u := show_opt (name_of tags) in
  let* userId := lift (userId_of tags) in
  let* cd := isOnCooldown "discount" userId in
  if 0 <? cd then
    let* _ := say channel (discount_wait_text u cd) in ret None
  else
    let* _ := say channel (discount_announcement u) in ret (Some userId).

(** The handler from there on (bot.js 220-301): the request to the
    backend, what its result leads to, and the reply. *)
Definition discount_resume (channel : string) (tags : Tags) (userId : string) : M unit :=
  let uname := name_of tags in
  let u := show_opt uname in
  let twitchLogin := toLowerCase (remove_first "#" channel) in
  let* reply :=
    try_catch
      (let* result := requestViewerDiscount twitchLogin
                        {| viewer_id := userId;
                           viewer_login := username tags;
                           viewer_name := uname |} in
       discount_on_result channel u userId result)
      (fun _ =>
         ret (say channel ("@" +:+ u +:+ " something went wrong while generating your discount.")))
  in
  reply.

(** The replies of the global-drop command. *)
Definition drop_cooldown_text (u : string) (remaining : Z) : string :=
  "@" +:+ u +:+ " global drop is on cooldown. Try again in " +:+ show_Z remaining +:+ "s.".

Definition drop_usage_text (u : string) : string :=
  "@" +:+ u +:+ " use: !drop <1-50> (example: !drop 10)".

Definition drop_announcement (u : string) (percent : Z) : string :=
  "🔥 @" +:+ u +:+ " is creating a global " +:+ show_Z percent +:+ "% drop… stand by!".

Definition drop_activated_text (c : JValue) (percent : Z) : string :=
  "🔥 GLOBAL DROP ACTIVATED! 🎁 Code: " +:+ js_String c +:+ " 💸 "
  +:+ show_Z percent +:+ "% OFF for the next 10 minutes ⏳".

(** [data.drop.code]: a [TypeError] when [data.drop] is [undefined] or
    [null]. *)
Definition drop_code (data : JValue) : M JValue :=
  if is_nullish (opt_prop data "drop") then throw TypeError
  else ret (opt_prop (opt_prop data "drop") "code").

(** [COMMANDS.drop.execute]. *)
Definition drop_execute (channel : string) (tags : Tags) (args : list string) : M unit :=
  let u := show_opt (display_name tags) in
  let isStreamer := match broadcaster tags with
                    | Some b => String.eqb b "1"
                    | None => false
                    end in
  let twitchLogin := remove_first "#" channel in
  if negb isStreamer
  then say channel ("@" +:+ u +:+ " only the streamer can activate global drops.")
  else
    let* t := Date_now in
    let* last := gets lastGlobalDropAt in
    let sinceLast := t - last in
    if sinceLast <? GLOBAL_DROP_COOLDOWN_MS then
      let remaining := ceil_div (GLOBAL_DROP_COOLDOWN_MS - sinceLast) 1000 in
      say channel (drop_cooldown_text u remaining)
    else
      match parseInt10 (head args) with
      | None => say channel (drop_usage_text u)
      | Some percent =>
          if (percent <? 1) || (percent >? 50) then say channel (drop_usage_text u)
          else
            let* _ := say channel (drop_announcement u percent) in
            let* reply :=
              try_catch
                (let* data := callBackend ("/api/discounts/" +:+ twitchLogin +:+ "/global")
                                "POST" (JObj [("percent", JNum percent)]) in
                 if negb (truthy (opt_prop data "ok")) then
                   if is_str (opt_prop data "reason") "plan_limit"
                      && truthy (opt_prop data "message")
                   then ret (say channel ("@" +:+ u +:+ " " +:+ js_String (opt_prop data "message")))
                   else if truthy (opt_prop data "error")
                   then ret (say channel ("@" +:+ u +:+ " " +:+ js_String (opt_prop data "error")))
                   else ret (say channel ("@" +:+ u +:+ " could not create a global drop (Shopify not configured?)."))
                 else
                   let* c := drop_code data in
                   let* t' := Date_now in
                   let* _ := modify (with_lastGlobalDropAt t') in
                   ret (say channel (drop_activated_text c percent)))
                (fun err =>
                   let payload := exn_data err in
                   if is_str (opt_prop payload "reason") "plan_limit"
                      && truthy (opt_prop payload "message")
                   then ret (say channel ("@" +:+ u +:+ " " +:+ js_String (opt_prop payload "message")))
                   else ret (say channel ("@" +:+ u +:+ " something went wrong creating the drop.")))
            in
            reply
      end.

(** [COMMANDS.reload.execute]. *)
Definition reload_execute (channel : string) (tags : Tags) : M unit :=
  let user := toLowerCase <$> username tags in
  if is_empty OWNER_USERNAME
     || negb (bool_decide (user = Some (toLowerCase OWNER_USERNAME)))
  then say channel ("@" +:+ show_opt (display_name tags)
                    +:+ " You are not allowed to use this command.")
  else
    let* _ := say channel "Reloading channel list…" in
    let* _ := syncJoinsFromBackend in
    say channel "Channel list synced ✅".

(** [command.execute(channel, tags, args)]. *)
Definition execute (e : Entry) (channel : string) (tags : Tags) (args : list string) : M unit :=
  match e with
  | Own Ping => ping_execute channel tags
  | Own Help => help_execute channel tags
  | Own Discount => discount_execute channel tags
  | Own Drop => drop_execute channel tags args
  | Own Reload => reload_execute channel tags
  | Proto => throw TypeError
  end.

Definition cooldown_wait_text (u : string) (cd : Z) (commandName : string) : string :=
  "@" +:+ u +:+ " wait " +:+ show_Z cd +:+ "s before using "
  +:+ COMMAND_PREFIX +:+ commandName +:+ " again.".

Definition failure_text (u commandName : string) : string :=
  "@" +:+ u +:+ " something went wrong executing " +:+ COMMAND_PREFIX +:+ commandName +:+ ".".

(** The [try] block of the message handler: run the handler, then commit
    the cooldown of every command but [discount]. *)
Definition run_command (e : Entry) (commandName userId channel : string)
    (tags : Tags) (args : list string) : M unit :=
  try_catch
    (let* _ := execute e channel tags args in
     if negb (String.eqb commandName "discount")
     then setCooldown commandName userId
            (default DEFAULT_COOLDOWN_MS (COMMAND_COOLDOWNS commandName))
     else ret tt)
    (fun _ => say channel (failure_text (show_opt (name_of tags)) commandName)).

(** The message handler once the command is found: the eligibility
    check, then the [try] block. *)
Definition dispatch (command : Entry) (commandName channel : string)
    (tags : Tags) (args : list string) : M unit :=
  let* userId := lift (userId_of tags) in
  let* cd := isOnCooldown commandName userId in
  if (0 <? cd) && negb (String.eqb commandName "discount")
  then say channel (cooldown_wait_text (show_opt (name_of tags)) cd commandName)
  else run_command command commandName userId channel tags args.

(** [client.on("message", async (channel, tags, message, self) => ...)]. *)
Definition on_message (channel : string) (tags : Tags) (message : string) (self : bool)
  : M unit :=
  if self then ret tt
  else if negb (startsWith message COMMAND_PREFIX) then ret tt
  else
    let withoutPrefix := trim (slice_from (String.length COMMAND_PREFIX) message) in
    if (String.length withoutPrefix =? 0)%nat then ret tt
    else
      let parts := split_ws withoutPrefix in
      let commandName := toLowerCase (default EmptyString (head parts)) in
      let args := tail parts in
      match COMMANDS commandName with
      | None => ret tt
      | Some command => dispatch command commandName channel tags args
      end.

End Bot.

(** ** Shopify issuance client: the personal discount code *)

(** [Math.floor(1000 + Math.random() * 9000)], [r] being the value of
    [Math.random()]. *)
Definition random_suffix (r : Q) : Z := Qfloor (1000 + r * 9000).

Definition discount_code_text (uname : string) (r : Q) : string :=
  "DROP-" +:+ toUpperCase uname +:+ "-" +:+ show_Z (random_suffix r).

Record DiscountCode := { dc_code : string; dc_url : string; dc_id : JValue }.

(** [createDiscountCode(priceRuleId, username)]. [axios.post] throws on a
    status outside 2xx; [res.data.discount_code.id] is a [TypeError] when
    [res.data] or its [discount_code] is missing. *)
Definition createDiscountCode (STORE_DOMAIN : string) (r : Q)
    (priceRuleId username : string) : M DiscountCode :=
  let c := discount_code_text username r in
  let* res := axios (BackendCall ("/price_rules/" +:+ priceRuleId +:+ "/discount_codes.json")
                       "POST"
                       (JObj [("discount_code", JObj [("code", JStr c)])])) in
  if is_nullish (snd res) || is_nullish (opt_prop (snd res) "discount_code")
  then throw TypeError
  else ret {| dc_code := c;
              dc_url := "https://" +:+ STORE_DOMAIN +:+ "/discount/" +:+ c;
              dc_id := opt_prop (opt_prop (snd res) "discount_code") "id" |}.

(** ** Shopify issuance client: the two-step flows *)

Section Shopify.

(** [new Date(t).toISOString()], a built-in outside the repository. *)
Variable toISOString : Z -> string.

(** [STORE_DOMAIN], from the environment. *)
Variable STORE_DOMAIN : string.

(** The body of the price rule of a personal drop, built at instant [t]. *)
Definition personal_price_rule (t : Z) : JValue :=
  JObj [("price_rule",
         JObj [ ("title", JStr ("Dropify Auto Rule " +:+ show_Z t));
                ("target_type", JStr "line_item");
                ("target_selection", JStr "all");
                ("allocation_method", JStr "across");
                ("value_type", JStr "percentage");
                ("value", JStr "-10.0");
                ("customer_selection", JStr "all");
                ("once_per_customer", JBool false);
                ("usage_limit", JNum 1);
                ("starts_at", JStr (toISOString (t - 1000)));
                ("ends_at", JStr (toISOString (t + 10 * 60 * 1000))) ])].

(** [createPriceRule()]: [res.data.price_rule], a [TypeError] when
    [res.data] is [undefined] or [null]. *)
Definition createPriceRule : M JValue :=
  let* t := Date_now in
  let* res := axios (BackendCall "/price_rules.json" "POST" (personal_price_rule t)) in
  if is_nullish (snd res) then throw TypeError
  else ret (opt_prop (snd res) "price_rule").

(** [createDiscountForViewer(username)]: [priceRule.id] is a [TypeError]
    when the rule is [undefined] or [null]; the id goes into the path of
    the second call as a template literal prints it. *)
Definition createDiscountForViewer (r : Q) (uname : string) : M DiscountCode :=
  let* priceRule := createPriceRule in
  if is_nullish priceRule then throw TypeError
  else createDiscountCode STORE_DOMAIN r (js_String (opt_prop priceRule "id")) uname.

(** The body of the price rule of a global drop, built at instant [t]. *)
Definition global_price_rule (t : Z) (c : string) (percent : Z) : JValue :=
  JObj [("price_rule",
         JObj [ ("title", JStr ("Dropify Global Drop " +:+ c));
                ("target_type", JStr "line_item");
                ("target_selection", JStr "all");
                ("allocation_method", JStr "across");
                ("value_type", JStr "percentage");
                ("value", JStr ("-" +:+ show_Z percent +:+ ".0"));
                ("customer_selection", JStr "all");
                ("usage_limit", JNull);
                ("once_per_customer", JBool false);
                ("starts_at", JStr (toISOString (t - 1000)));
                ("ends_at", JStr (toISOString (t + 10 * 60 * 1000))) ])].

(** [createGlobalDrop(code, percent)], [percent] an integer. *)
Definition createGlobalDrop (c : string) (percent : Z) : M JValue :=
  let* t := Date_now in
  let* ruleRes := axios (BackendCall "/price_rules.json" "POST"
                           (global_price_rule t c percent)) in
  if is_nullish (snd ruleRes) || is_nullish (opt_prop (snd ruleRes) "price_rule")
  then throw TypeError
  else
    let priceRuleId := opt_prop (opt_prop (snd ruleRes) "price_rule") "id" in
    let* codeRes := axios (BackendCall ("/price_rules/" +:+ js_String priceRuleId
                                        +:+ "/discount_codes.json")
                             "POST"
                             (JObj [("discount_code", JObj [("code", JStr c)])])) in
    if is_nullish (snd codeRes) then throw TypeError
    else ret (opt_prop (snd codeRes) "discount_code").

End Shopify.

(** ** bot.js: the channels of the environment *)

(** [s.split(",")]. *)
Fixpoint split_comma (cur s : string) : list string :=
  match s with
  | EmptyString => [cur]
  | String c r =>
      if Ascii.eqb c ","%char then cur :: split_comma EmptyString r
      else split_comma (cur +:+ String c EmptyString) r
  end.

(** [(process.env.CHANNELS || process.env.CHANNEL_NAME || "").split(",")
    .map((c) => c.trim().toLowerCase()).filter(Boolean)]. *)
Definition channels_of_env (CHANNELS CHANNEL_NAME : option string) : list string :=
  filter (fun s => is_empty s = false)
    (map (fun c => toLowerCase (trim c))
       (split_comma EmptyString
          (default EmptyString (str_or (str_or CHANNELS CHANNEL_NAME) (Some EmptyString))))).

(** The body of the loop of [syncJoinsFromBackend], for one channel. *)
Definition join_missing (ch : string) : M unit :=
  let* joined := gets joinedChannels in
  if bool_decide (ch ∈ joined) then ret tt
  else try_catch
         (let* _ := join ch in
          let* _ := modify (fun w => with_joined ({[ch]} ∪ joinedChannels w) w) in
          sleep 900)
         (fun _ => ret tt).

(** The names [syncJoinsFromBackend] makes of [data.channels]. *)
Definition roster_names (items : list JValue) : list string :=
  filter (fun s => is_empty s = false)
    (map (fun c => toLowerCase (trim (js_String (js_or c (JStr EmptyString))))) items).

(** ** Observations used in the statements *)

(** The per-user part of the ledger reads the same in both worlds: every
    (command, user) expiry and every stored claim. *)
Definition same_entries (w w' : World) : Prop :=
  (forall c u, expiry (cooldowns w') c u = expiry (cooldowns w) c u)
  /\ claimedDiscounts w' = claimedDiscounts w.

(** The ledger reads the same in both worlds: every (command, user)
    expiry, every stored claim and the instant of the last global drop. *)
Definition same_ledger (w w' : World) : Prop :=
  (forall c u, expiry (cooldowns w') c u = expiry (cooldowns w) c u)
  /\ claimedDiscounts w' = claimedDiscounts w
  /\ lastGlobalDropAt w' = lastGlobalDropAt w.

(** Run from [w], the computation leaves the ledger alone, and its value,
    when it returns one, satisfies [P]. *)
Definition quiet_at {A} (w : World) (c : M A) (P : A -> Prop) : Prop :=
  same_ledger w (snd (c w)) /\ (forall a, fst (c w) = Ok a -> P a).

(** The same from every world. *)
Definition quiet {A} (c : M A) (P : A -> Prop) : Prop :=
  forall w, quiet_at w c P.

Definition any {A} : A -> Prop := fun _ => True.

(** The backend answered the discount request with a JSON object whose
    [ok] is truthy. *)
Definition backend_says_ok (out : FetchOutcome) : bool :=
  match out with
  | FetchResolves res =>
      match body res with
      | Readable _ (Some (JObj kvs)) => truthy (default JUndefined (assoc_get "ok" kvs))
      | _ => false
      end
  | FetchRejects _ => false
  end.

(** The invocation of the discount command reaches an issuance that
    succeeds: the viewer is not on cooldown, the announcement is delivered
    and the backend says ok. *)
Definition discount_issues (tags : Tags) (w : World) : bool :=
  match userId_of tags with
  | Ok uid =>
      (expiry (cooldowns w) "discount" uid <=? now w)
      && snd (next_say w) && backend_says_ok (snd (next_fetch w))
  | Throw _ => false
  end.

(** The backend answered the drop request with a truthy [ok] and a
    [drop]. *)
Definition backend_creates_drop (out : AxiosOutcome) : bool :=
  match out with
  | AxiosResolves _ data =>
      truthy (opt_prop data "ok") && negb (is_nullish (opt_prop data "drop"))
  | AxiosThrows _ => false
  end.

(** The invocation of the global-drop command creates a drop: the sender
    is the streamer, the global cooldown has elapsed, the percent is from
    1 to 50, the announcement is delivered and the backend creates the
    drop. *)
Definition drop_creates (tags : Tags) (args : list string) (w : World) : bool :=
  match broadcaster tags, parseInt10 (head args) with
  | Some b, Some p =>
      String.eqb b "1"
      && (GLOBAL_DROP_COOLDOWN_MS <=? now w - lastGlobalDropAt w)
      && (1 <=? p) && (p <=? 50)
      && snd (next_say w) && backend_creates_drop (snd (next_axios w))
  | _, _ => false
  end.

(** The request the discount handler sends for a viewer. *)
Definition discount_request (channel : string) (tags : Tags) (uid : string) : Event :=
  ViewerDiscountRequest (toLowerCase (toLowerCase (remove_first "#" channel)))
    (JStr uid) (jv_of_opt (username tags)) (jv_of_opt (name_of tags)).

(** [isNaN(percent) || percent < 1 || percent > 50]. *)
Definition invalid_percent (p : option Z) : bool :=
  match p with
  | None => true
  | Some n => (n <? 1) || (n >? 50)
  end.

(** The request the global-drop handler sends. *)
Definition drop_request (channel : string) (percent : Z) : Event :=
  BackendCall ("/api/discounts/" +:+ remove_first "#" channel +:+ "/global") "POST"
    (JObj [("percent", JNum percent)]).

Definition is_external_call (e : Event) : bool :=
  match e with
  | ViewerDiscountRequest _ _ _ _ | BackendCall _ _ _ | RosterRequest => true
  | Said _ _ _ | JoinRequest _ _ => false
  end.

(** The events a run added to the trace. *)
Definition new_events (w w' : World) : list Event :=
  drop (length (trace w)) (trace w').

(** The text has no white space: no white-space character starts at any
    of its bytes. *)
Fixpoint no_space (s : string) : bool :=
  match s with
  | EmptyString => true
  | String _ r => (space_width s =? 0)%nat && no_space r
  end.

(** A byte that continues a character of more than one byte. *)
Definition is_cont (c : Ascii.ascii) : bool :=
  let n := char_code c in ((128 <=? n) && (n <=? 191))%N.

(** The text does not begin in the middle of a character. *)
Definition starts_clean (s : string) : bool :=
  match s with
  | EmptyString => true
  | String c _ => negb (is_cont c)
  end.

(** A text made of white-space characters. *)
Inductive spaces : string -> Prop :=
| spaces_nil : spaces EmptyString
| spaces_cons p s : In p white_space -> spaces s -> spaces (p +:+ s).

(** What follows a word: nothing, or text that begins with white space. *)
Definition after_word (rest : string) : Prop :=
  rest = EmptyString \/ space_width rest <> 0%nat.

(** A channel name as the bot keeps it: not empty, in lower case, with no
    white space at either end. *)
Definition normal_name (s : string) : Prop :=
  s <> EmptyString /\ toLowerCase s = s /\ trim s = s.

(** [COMMAND_COOLDOWNS[commandName] || DEFAULT_COOLDOWN_MS], the duration
    the dispatcher commits. *)
Definition cooldown_of (name : string) : Z :=
  default DEFAULT_COOLDOWN_MS (COMMAND_COOLDOWNS name).

(** The channel names [syncJoinsFromBackend] reads from the answer to its
    roster request; [None] when it takes the unexpected-response exit or
    the request fails. *)
Definition roster_of (out : AxiosOutcome) : option (list string) :=
  match out with
  | AxiosThrows _ => None
  | AxiosResolves _ data =>
      if negb (truthy data)
         || negb (match opt_prop data "ok" with JBool true => true | _ => false end)
      then None
      else match opt_prop data "channels" with
           | JArr items => Some (roster_names items)
           | _ => None
           end
  end.

(** The join requests of a sync, replayed against the set of joined
    channels: each asks for a channel that is not in the set at that
    moment, and an accepted one puts its channel in. *)
Inductive joins_from : gset string -> list Event -> gset string -> Prop :=
| joins_done J : joins_from J [] J
| joins_accepted J ch l J' :
    ch ∉ J -> joins_from ({[ch]} ∪ J) l J' -> joins_from J (JoinRequest ch true :: l) J'
| joins_refused J ch l J' :
    ch ∉ J -> joins_from J l J' -> joins_from J (JoinRequest ch false :: l) J'.

(** The text has no comma. *)
Definition no_comma (s : string) : bool :=
  forall_string (fun c => negb (Ascii.eqb c ","%char)) s.

(** The request that creates the discount code [c] under the price rule
    [id]. *)
Definition code_request (id : JValue) (c : string) : Event :=
  BackendCall ("/price_rules/" +:+ js_String id +:+ "/discount_codes.json") "POST"
    (JObj [("discount_code", JObj [("code", JStr c)])]).

(** The two replies of the discount handler to [limit_reached]. *)
Definition discount_claimed_text (u : string) (c : JValue) : string :=
  "🎁 @" +:+ u +:+ " you already claimed a discount this stream: " +:+ js_String c.

Definition discount_redeemed_text (u : string) : string :=
  "@" +:+ u +:+ " you've already redeemed your discount for this stream 🙌".

(** ** Sample data *)

Definition defaults : Config := {| COMMAND_PREFIX := "!"; OWNER_USERNAME := "" |}.

Definition silent : Script :=
  {| says := []; fetches := []; axioses := []; joins := [] |}.

Definition alice : Tags :=
  {| display_name := Some "Alice"; username := Some "alice";
     user_id := Some "42"; broadcaster := None |}.

Definition bob : Tags :=
  {| display_name := Some "Bob"; username := Some "bob";
     user_id := Some "7"; broadcaster := Some "1" |}.

Definition carol : Tags :=
  {| display_name := Some "Carol"; username := Some "carol";
     user_id := Some "9"; broadcaster := Some "1" |}.

(** A backend answer that issues the code [DROP-ALICE-1234]. *)
Definition issued : FetchOutcome :=
  FetchResolves
    {| status := 200; content_type := Some "application/json";
       body := Readable "{...}"
                 (Some (JObj [("ok", JBool true);
                              ("discountCode", JStr "DROP-ALICE-1234")])) |}.

(** A backend answer that creates the global drop [STREAM10]. *)
Definition dropped : AxiosOutcome :=
  AxiosResolves 200
    (JObj [("ok", JBool true); ("drop", JObj [("code", JStr "STREAM10")])]).

(** A fresh process at instant 1000000 whose backend will create the
    drop, a quarter of a second after being asked. *)
Definition drop_world : World :=
  boot ∅ 1000000
    {| says := []; fetches := []; axioses := [(250, dropped)]; joins := [] |}.

(** A fresh process at instant 1000000 whose backend will issue the
    code, a quarter of a second after being asked. *)
Definition discount_world : World :=
  boot ∅ 1000000
    {| says := []; fetches := [(250, issued)]; axioses := []; joins := [] |}.

(** The same process when the chat server accepts the announcement and
    then rejects the reply that carries the code. *)
Definition lost_reply_world : World :=
  boot ∅ 1000000
    {| says := [(0, true); (5, false)]; fetches := [(250, issued)];
       axioses := []; joins := [] |}.

(** A backend answer that lists three channels, one of them untidy. *)
Definition roster : AxiosOutcome :=
  AxiosResolves 200
    (JObj [("ok", JBool true);
           ("channels", JArr [JStr " Alice "; JStr "bob"; JStr "carol"])]).

(** Bob's bot, in Bob's channel already, when the backend answers two
    polls with that roster and the chat server accepts the first join,
    refuses the second and accepts the later ones. *)
Definition roster_world : World :=
  boot {["bob"]} 1000000
    {| says := []; fetches := []; axioses := [(100, roster); (100, roster)];
       joins := [(50, true); (60, false)] |}.

(** A backend answer that refuses a second code. *)
Definition limit_reached : FetchOutcome :=
  FetchResolves
    {| status := 429; content_type := Some "application/json";
       body := Readable "{...}"
                 (Some (JObj [("ok", JBool false);
                              ("reason", JStr "limit_reached")])) |}.

(** Alice's code [DROP-ALICE-1234] was recorded in [#bob] a minute ago;
    the backend will refuse her next request. *)
Definition limit_world : World :=
  later 60000
    (snd (setUserDiscount "#bob" "42" (JStr "DROP-ALICE-1234")
            (boot ∅ 1000000
               {| says := []; fetches := [(250, limit_reached)];
                  axioses := []; joins := [] |}))).

(** A fresh process whose backend issues Alice's code and refuses her
    next request. *)
Definition twice_world : World :=
  boot ∅ 1000000
    {| says := []; fetches := [(250, issued); (250, limit_reached)];
       axioses := []; joins := [] |}.

(** A process whose backend creates the drop while the chat server
    accepts the announcement and then rejects the reply that carries the
    code. *)
Definition lost_drop_reply_world : World :=
  boot ∅ 1000000
    {| says := [(0, true); (5, false)]; fetches := [];
       axioses := [(250, dropped)]; joins := [] |}.

(** A backend answer that refuses to create a drop. *)
Definition refused : AxiosOutcome :=
  AxiosResolves 200
    (JObj [("ok", JBool false); ("error", JStr "Shopify is not connected.")]).

(** A fresh process whose backend refuses the first drop and creates the
    second. *)
Definition refused_drop_world : World :=
  boot ∅ 1000000
    {| says := []; fetches := []; axioses := [(250, refused); (250, dropped)];
       joins := [] |}.

(** A fresh process whose chat server rejects the announcement of the
    drop, with a backend that would create it. *)
Definition lost_announcement_world : World :=
  boot ∅ 1000000
    {| says := [(0, false)]; fetches := []; axioses := [(250, dropped)]; joins := [] |}.

(** A backend answer that issues the code [DROP-ALICE-5678]. *)
Definition issued_again : FetchOutcome :=
  FetchResolves
    {| status := 200; content_type := Some "application/json";
       body := Readable "{...}"
                 (Some (JObj [("ok", JBool true);
                              ("discountCode", JStr "DROP-ALICE-5678")])) |}.

(** A fresh process whose backend issues a code each time it is asked, a
    quarter of a second after being asked. *)
Definition generous_world : World :=
  boot ∅ 1000000
    {| says := []; fetches := [(250, issued); (250, issued_again)];
       axioses := []; joins := [] |}.

(** An error page of 600 characters. *)
Definition long_page : string :=
  String.string_of_list_ascii (repeat "x"%char 600).

(** A fresh process whose chat server rejects the next message and
    accepts the following ones. *)
Definition deaf_world : World :=
  boot ∅ 1000000
    {| says := [(0, false)]; fetches := []; axioses := []; joins := [] |}.

(** A fresh process whose backend answers 502 and drops the connection
    while the body is read. *)
Definition cut_world : World :=
  boot ∅ 1000000
    {| says := [];
       fetches := [(250, FetchResolves
                           {| status := 502; content_type := Some "text/html";
                              body := Unreadable "Premature close" |})];
       axioses := []; joins := [] |}.

(** * Properties *)

(** ** Arithmetic of remaining seconds *)

Lemma ceil_div_pos a b : 0 < a -> 0 < b -> 0 < ceil_div a b.
Proof.
  intros Ha Hb. unfold ceil_div.
  assert ((- a) / b < 0); [apply Z.div_lt_upper_bound; lia | lia].
Qed.

Lemma ceil_div_le a b k : 0 < b -> a <= k * b -> ceil_div a b <= k.
Proof.
  intros Hb H. unfold ceil_div.
  assert (- k <= (- a) / b); [apply Z.div_le_lower_bound; lia | lia].
Qed.

Lemma ceil_div_bounds a b : 0 < b -> a <= b * ceil_div a b < a + b.
Proof.
  intros Hb. unfold ceil_div.
  pose proof (Z.div_mod (- a) b) as Hdiv. pose proof (Z.mod_pos_bound (- a) b Hb). lia.
Qed.

(** ** The ledger operations, run *)

Lemma expiry_init cds command userId :
  cds !! command = None ->
  expiry (<[command := ∅]> cds) command userId = expiry cds command userId.
Proof.
  intros H. unfold expiry. rewrite lookup_insert_eq, H. simpl. by rewrite lookup_empty.
Qed.

Lemma isOnCooldown_value command userId w :
  fst (isOnCooldown command userId w) =
    Ok (if now w <? expiry (cooldowns w) command userId
        then ceil_div (expiry (cooldowns w) command userId - now w) 1000 else 0).
Proof.
  unfold isOnCooldown, bind, modify, gets, Date_now, ret. simpl.
  destruct (cooldowns w !! command) eqn:E; simpl; [done|].
  destruct (inherited command); simpl; [done|].
  by rewrite expiry_init.
Qed.

(** The check writes at most an empty inner object: no expiry moves, and
    nothing else in the world does. *)
Lemma isOnCooldown_world command userId w :
  let w' := snd (isOnCooldown command userId w) in
  same_ledger w w' /\ now w' = now w /\ script w' = script w /\ trace w' = trace w
  /\ lastGlobalDropAt w' = lastGlobalDropAt w /\ joinedChannels w' = joinedChannels w.
Proof.
  unfold isOnCooldown, bind, modify, gets, Date_now, ret, same_ledger. simpl.
  destruct (cooldowns w !! command) eqn:E; simpl; [done|].
  destruct (inherited command); simpl; [done|].
  repeat split. intros c u. destruct (decide (c = command)) as [->|Hne].
  - by apply expiry_init.
  - unfold expiry. by rewrite lookup_insert_ne.
Qed.

Lemma isOnCooldown_present command userId w :
  is_Some (cooldowns w !! command) -> snd (isOnCooldown command userId w) = w.
Proof.
  intros [m Hm]. unfold isOnCooldown, bind, modify, gets, Date_now, ret. simpl.
  by rewrite Hm.
Qed.

Lemma setCooldown_run command userId ms w :
  setCooldown command userId ms w =
    (Ok tt, with_cooldowns
              (<[command := <[userId := now w + ms]> (default ∅ (cooldowns w !! command))]>
                 (cooldowns w)) w).
Proof.
  unfold setCooldown, bind, modify, gets, Date_now, ret. simpl.
  destruct (cooldowns w !! command) eqn:E; simpl.
  - by rewrite E.
  - rewrite lookup_insert_eq. simpl. unfold with_cooldowns. simpl. by rewrite insert_insert_eq.
Qed.

Lemma expiry_setCooldown command userId ms w :
  expiry (cooldowns (snd (setCooldown command userId ms w))) command userId = now w + ms.
Proof.
  rewrite setCooldown_run. simpl. unfold expiry. rewrite lookup_insert_eq. simpl.
  by rewrite lookup_insert_eq.
Qed.

Lemma expiry_setCooldown_other command userId ms w c u :
  (c, u) <> (command, userId) ->
  expiry (cooldowns (snd (setCooldown command userId ms w))) c u = expiry (cooldowns w) c u.
Proof.
  intros Hne. rewrite setCooldown_run. simpl. unfold expiry.
  destruct (decide (c = command)) as [->|Hc].
  - rewrite lookup_insert_eq. simpl. rewrite lookup_insert_ne by congruence.
    by destruct (cooldowns w !! command).
  - by rewrite lookup_insert_ne.
Qed.

Lemma now_setCooldown command userId ms w :
  now (snd (setCooldown command userId ms w)) = now w.
Proof. by rewrite setCooldown_run. Qed.

Lemma getUserDiscount_run channel userId w :
  getUserDiscount channel userId w =
    (Ok (match claimedDiscounts w !! channel ≫= (.!! userId) with
         | Some entry => if now w - createdAt entry >? DISCOUNT_LIFETIME_MS then None
                         else Some entry
         | None => None
         end), w).
Proof.
  unfold getUserDiscount, bind, gets, Date_now, ret. simpl.
  destruct (claimedDiscounts w !! channel) as [m|]; simpl; [|done].
  destruct (m !! userId) as [entry|]; simpl; [|done].
  by destruct (now w - createdAt entry >? DISCOUNT_LIFETIME_MS).
Qed.

Lemma setUserDiscount_run channel userId c w :
  setUserDiscount channel userId c w =
    (Ok tt, with_claims
              (<[channel := <[userId := {| code := c; createdAt := now w |}]>
                              (default ∅ (claimedDiscounts w !! channel))]>
                 (claimedDiscounts w)) w).
Proof.
  unfold setUserDiscount, bind, modify, gets, Date_now, ret. simpl.
  destruct (claimedDiscounts w !! channel) eqn:E; simpl.
  - by rewrite E.
  - rewrite lookup_insert_eq. simpl. unfold with_claims. simpl. by rewrite insert_insert_eq.
Qed.

(** C3. For every (command, user) pair, [isOnCooldown] returns
    [ceil((expiry - now) / 1000)] when [now < expiry], that is the least
    number of whole seconds that covers the milliseconds left, and [0]
    otherwise, so it is never negative; it is [0] while the pair has no
    entry (before the first [setCooldown]), strictly positive immediately
    after [setCooldown] with a positive duration and for as long as the
    duration has not elapsed, where it is the milliseconds left rounded up
    to seconds, and [0] again from the instant the duration has elapsed. *)
Theorem remaining_cooldown_lifecycle (command userId : string) (w : World) (ms : Z) :
  0 <= now w -> 0 < ms ->
  let remaining := fun v => fst (isOnCooldown command userId v) in
  let e := expiry (cooldowns w) command userId in
  let w' := snd (setCooldown command userId ms w) in
  remaining w = Ok (if now w <? e then ceil_div (e - now w) 1000 else 0)
  /\ (now w < e ->
      exists cd, remaining w = Ok cd /\ e - now w <= 1000 * cd < e - now w + 1000)
  /\ (e <= now w -> remaining w = Ok 0)
  /\ (exists cd, remaining w = Ok cd /\ 0 <= cd)
  /\ (cooldowns w !! command ≫= (.!! userId) = None -> remaining w = Ok 0)
  /\ (exists cd, remaining w' = Ok cd /\ 0 < cd /\ ms <= 1000 * cd < ms + 1000)
  /\ (forall dt, 0 <= dt < ms ->
        exists cd, remaining (later dt w') = Ok cd
                   /\ cd = ceil_div (ms - dt) 1000
                   /\ 0 < cd /\ ms - dt <= 1000 * cd < ms - dt + 1000)
  /\ (forall dt, ms <= dt -> remaining (later dt w') = Ok 0).
Proof.
  intros Hnow Hms remaining e w'.
  assert (Hlater : forall dt, remaining (later dt w')
            = Ok (if dt <? ms then ceil_div (ms - dt) 1000 else 0)).
  { intros dt. unfold remaining. rewrite isOnCooldown_value.
    change (cooldowns (later dt w')) with (cooldowns w').
    change (now (later dt w')) with (now w' + dt).
    unfold w'. rewrite expiry_setCooldown, now_setCooldown.
    replace (now w + ms - (now w + dt)) with (ms - dt) by lia.
    destruct (Z.ltb_spec (now w + dt) (now w + ms)), (Z.ltb_spec dt ms); (done || lia). }
  assert (Hval : remaining w = Ok (if now w <? e then ceil_div (e - now w) 1000 else 0))
    by apply isOnCooldown_value.
  split; [done|]. repeat apply conj.
  - intros Hlt. rewrite Hval. destruct (Z.ltb_spec (now w) e); [|lia].
    eexists; split; [done|]. apply ceil_div_bounds. lia.
  - intros Hle. rewrite Hval. by destruct (Z.ltb_spec (now w) e); [lia|].
  - rewrite Hval. eexists; split; [done|].
    destruct (Z.ltb_spec (now w) e); [|lia].
    apply Z.lt_le_incl, ceil_div_pos; lia.
  - intros Hnone. rewrite Hval. unfold e, expiry. rewrite Hnone. simpl.
    by destruct (Z.ltb_spec (now w) 0); [lia|].
  - exists (ceil_div ms 1000). split; [|split; [apply ceil_div_pos; lia|]].
    + replace w' with (later 0 w').
      * rewrite Hlater. destruct (Z.ltb_spec 0 ms); [|lia]. by rewrite Z.sub_0_r.
      * destruct w'. unfold later. simpl. by rewrite Z.add_0_r.
    + apply ceil_div_bounds. lia.
  - intros dt Hdt. rewrite Hlater. destruct (Z.ltb_spec dt ms); [|lia].
    eexists. split; [done|]. split; [done|]. split; [apply ceil_div_pos; lia|].
    apply ceil_div_bounds. lia.
  - intros dt Hdt. rewrite Hlater. by destruct (Z.ltb_spec dt ms); [lia|].
Qed.

(** The lifecycle on a fresh process at instant 5000 with a cooldown of
    2500 ms: nothing before; three seconds right after; 1501 ms before
    the end two seconds, 1000 ms before the end one second and 1 ms before
    the end still one second; nothing once the 2500 ms are over. *)
Lemma remaining_cooldown_lifecycle_witness :
  let w := boot ∅ 5000 silent in
  let w' := snd (setCooldown "ping" "42" 2500 w) in
  0 <= now w /\ 0 < 2500
  /\ fst (isOnCooldown "ping" "42" w) = Ok 0
  /\ fst (isOnCooldown "ping" "42" w') = Ok 3
  /\ fst (isOnCooldown "ping" "42" (later 999 w')) = Ok 2
  /\ fst (isOnCooldown "ping" "42" (later 1500 w')) = Ok 1
  /\ fst (isOnCooldown "ping" "42" (later 2499 w')) = Ok 1
  /\ fst (isOnCooldown "ping" "42" (later 2500 w')) = Ok 0.
Proof.
  intros w w'.
  assert (H1 : 0 <= now w) by (simpl; lia).
  assert (H2 : 0 < 2500) by lia.
  destruct (remaining_cooldown_lifecycle "ping" "42" w 2500 H1 H2)
    as (_ & _ & _ & _ & Hnone & (cd0 & H0 & _ & Hb0) & Hin & Hout).
  split; [exact H1|]. split; [exact H2|]. split; [by apply Hnone|]. split.
  { replace 3 with cd0 by lia. exact H0. }
  repeat apply conj.
  - destruct (Hin 999) as (cd & Hv & _ & _ & Hb); [lia|]. replace 2 with cd by lia. exact Hv.
  - destruct (Hin 1500) as (cd & Hv & _ & _ & Hb); [lia|]. replace 1 with cd by lia. exact Hv.
  - destruct (Hin 2499) as (cd & Hv & _ & _ & Hb); [lia|]. replace 1 with cd by lia. exact Hv.
  - apply (Hout 2500). lia.
Defined.

(** C4. For every (channel, user) pair with a recorded claim,
    [getUserDiscount] returns the stored claim exactly when
    [now - createdAt <= 10 minutes] and [null] otherwise: it returns the
    claim at [createdAt + lifetime - eps] and [null] at
    [createdAt + lifetime + eps], and the world, hence the stored entry, is
    left as it was. A claim is recorded by [setUserDiscount] with the
    instant of the call. *)
Theorem getUserDiscount_lifetime (channel userId : string) (entry : Claim) (w : World) :
  claimedDiscounts w !! channel ≫= (.!! userId) = Some entry ->
  getUserDiscount channel userId w =
    (Ok (if now w - createdAt entry <=? 10 * 60 * 1000 then Some entry else None), w)
  /\ (forall eps, 0 < eps ->
        let before := at_instant (createdAt entry + DISCOUNT_LIFETIME_MS - eps) w in
        let after := at_instant (createdAt entry + DISCOUNT_LIFETIME_MS + eps) w in
        getUserDiscount channel userId before = (Ok (Some entry), before)
        /\ getUserDiscount channel userId after = (Ok None, after))
  /\ (forall c v,
        claimedDiscounts (snd (setUserDiscount channel userId c v)) !! channel
          ≫= (.!! userId)
        = Some {| code := c; createdAt := now v |}).
Proof.
  intros H. split; [|split].
  - rewrite getUserDiscount_run, H. unfold DISCOUNT_LIFETIME_MS.
    destruct (Z.leb_spec (now w - createdAt entry) (10 * 60 * 1000)),
             (Z.gtb_spec (now w - createdAt entry) (10 * 60 * 1000)); (done || lia).
  - intros eps Heps before after. unfold before, after.
    rewrite !getUserDiscount_run.
    change (claimedDiscounts (at_instant _ w)) with (claimedDiscounts w).
    rewrite H. simpl. split.
    + destruct (Z.gtb_spec (createdAt entry + DISCOUNT_LIFETIME_MS - eps - createdAt entry)
                  DISCOUNT_LIFETIME_MS); (done || lia).
    + destruct (Z.gtb_spec (createdAt entry + DISCOUNT_LIFETIME_MS + eps - createdAt entry)
                  DISCOUNT_LIFETIME_MS); (done || lia).
  - intros c v. rewrite setUserDiscount_run. simpl. rewrite lookup_insert_eq. simpl.
    by rewrite lookup_insert_eq.
Qed.

(** A claim recorded at instant 5000 is returned one millisecond before
    the ten minutes are over and no longer one millisecond after. *)
Lemma getUserDiscount_lifetime_witness :
  let w := snd (setUserDiscount "#bob" "42" (JStr "DROP-ALICE-1234") (boot ∅ 5000 silent)) in
  let entry := {| code := JStr "DROP-ALICE-1234"; createdAt := 5000 |} in
  claimedDiscounts w !! "#bob" ≫= (.!! "42") = Some entry
  /\ fst (getUserDiscount "#bob" "42" (at_instant (5000 + 600000 - 1) w)) = Ok (Some entry)
  /\ fst (getUserDiscount "#bob" "42" (at_instant (5000 + 600000 + 1) w)) = Ok None.
Proof.
  intros w entry.
  assert (H : claimedDiscounts w !! "#bob" ≫= (.!! "42") = Some entry) by reflexivity.
  destruct (getUserDiscount_lifetime "#bob" "42" entry w H) as (_ & Heps & _).
  destruct (Heps 1 ltac:(lia)) as [Hb Ha].
  split; [exact H|]. split.
  - change (5000 + 600000 - 1) with (createdAt entry + DISCOUNT_LIFETIME_MS - 1).
    by rewrite Hb.
  - change (5000 + 600000 + 1) with (createdAt entry + DISCOUNT_LIFETIME_MS + 1).
    by rewrite Ha.
Defined.

(** ** Computations that leave the ledger alone *)

Lemma same_ledger_refl w : same_ledger w w.
Proof. by repeat split. Qed.

Lemma same_ledger_entries w w' : same_ledger w w' -> same_entries w w'.
Proof. intros (H1 & H2 & _). by split. Qed.

Lemma same_entries_trans w1 w2 w3 :
  same_entries w1 w2 -> same_entries w2 w3 -> same_entries w1 w3.
Proof.
  intros [H1 H1'] [H2 H2']. split.
  - intros c u. by rewrite H2, H1.
  - by rewrite H2', H1'.
Qed.

Lemma same_ledger_trans w1 w2 w3 :
  same_ledger w1 w2 -> same_ledger w2 w3 -> same_ledger w1 w3.
Proof.
  intros (H1 & H1' & H1'') (H2 & H2' & H2''). split; [|split].
  - intros c u. by rewrite H2, H1.
  - by rewrite H2', H1'.
  - by rewrite H2'', H1''.
Qed.

Lemma same_ledger_settle dt s e w : same_ledger w (settle dt s e w).
Proof. by repeat split. Qed.

Lemma quiet_weaken {A} (c : M A) (P Q : A -> Prop) :
  quiet c P -> (forall a, P a -> Q a) -> quiet c Q.
Proof. intros H HPQ w. destruct (H w) as [H1 H2]. split; [done|]. eauto. Qed.

Lemma quiet_ret {A} (a : A) (P : A -> Prop) : P a -> quiet (ret a) P.
Proof. intros HP w. split; [apply same_ledger_refl|]. simpl. by intros ? [= <-]. Qed.

Lemma quiet_throw {A} e (P : A -> Prop) : quiet (throw e) P.
Proof. intros w. split; [apply same_ledger_refl|]. simpl. by intros ? [=]. Qed.

Lemma quiet_lift {A} (r : Result A) : quiet (lift r) any.
Proof. intros w. split; [apply same_ledger_refl|done]. Qed.

Lemma quiet_gets {A} (f : World -> A) : quiet (gets f) any.
Proof. intros w. split; [apply same_ledger_refl|done]. Qed.

Lemma quiet_say channel text : quiet (say channel text) any.
Proof. intros w. split; [apply same_ledger_settle|done]. Qed.

Lemma quiet_join channel : quiet (join channel) any.
Proof. intros w. split; [apply same_ledger_settle|done]. Qed.

Lemma quiet_fetch e : quiet (fetch e) any.
Proof. intros w. split; [apply same_ledger_settle|done]. Qed.

Lemma quiet_axios e : quiet (axios e) any.
Proof. intros w. split; [apply same_ledger_settle|done]. Qed.

Lemma quiet_sleep ms : quiet (sleep ms) any.
Proof. intros w. split; [by repeat split|done]. Qed.

Lemma quiet_with_joined (f : World -> gset string) :
  quiet (modify (fun w => with_joined (f w) w)) any.
Proof. intros w. split; [by repeat split|done]. Qed.

Lemma quiet_at_bind {A B} w (c : M A) (k : A -> M B) (P : A -> Prop) (Q : B -> Prop) :
  quiet_at w c P -> (forall a, P a -> quiet (k a) Q) -> quiet_at w (bind c k) Q.
Proof.
  intros [H1 H2] Hk. unfold quiet_at, bind in *.
  destruct (c w) as [[a|e] w']; simpl in *.
  - destruct (Hk a (H2 a eq_refl) w') as [H3 H4].
    split; [by eapply same_ledger_trans|done].
  - split; [done|]. by intros ? [=].
Qed.

Lemma quiet_at_try_catch {A} w (c : M A) (h : Exn -> M A) (P : A -> Prop) :
  quiet_at w c P -> (forall e, quiet (h e) P) -> quiet_at w (try_catch c h) P.
Proof.
  intros [H1 H2] Hh. unfold quiet_at, try_catch in *.
  destruct (c w) as [[a|e] w']; simpl in *.
  - split; [done|]. intros ? [= <-]. by apply H2.
  - destruct (Hh e w') as [H3 H4]. split; [by eapply same_ledger_trans|done].
Qed.

Lemma quiet_bind {A B} (c : M A) (k : A -> M B) (P : A -> Prop) (Q : B -> Prop) :
  quiet c P -> (forall a, P a -> quiet (k a) Q) -> quiet (bind c k) Q.
Proof. intros Hc Hk w. eapply quiet_at_bind; [apply Hc|done]. Qed.

Lemma quiet_try_catch {A} (c : M A) (h : Exn -> M A) (P : A -> Prop) :
  quiet c P -> (forall e, quiet (h e) P) -> quiet (try_catch c h) P.
Proof. intros Hc Hh w. apply quiet_at_try_catch; [apply Hc|done]. Qed.

Lemma quiet_for_each {A} (l : list A) (f : A -> M unit) :
  (forall x, quiet (f x) any) -> quiet (for_each l f) any.
Proof.
  intros Hf. induction l as [|x l IH]; simpl.
  - by apply quiet_ret.
  - eapply quiet_bind; [apply Hf|]. by intros _ _.
Qed.

Lemma quiet_isOnCooldown command userId : quiet (isOnCooldown command userId) any.
Proof. intros w. split; [|done]. apply isOnCooldown_world. Qed.

Lemma quiet_getUserDiscount channel userId : quiet (getUserDiscount channel userId) any.
Proof.
  intros w. unfold quiet_at. rewrite getUserDiscount_run.
  split; [apply same_ledger_refl|done].
Qed.

Create HintDb quiet_db.
#[local]
Hint Resolve quiet_say quiet_join quiet_fetch quiet_axios quiet_sleep
  quiet_gets quiet_lift quiet_with_joined
  quiet_isOnCooldown quiet_getUserDiscount : quiet_db.

(** One step of a proof that a computation is quiet: follow its shape. *)
Ltac quiet_step :=
  match goal with
  | |- forall _, _ => intro
  | |- quiet (bind _ _) _ => eapply quiet_bind
  | |- quiet (try_catch _ _) _ => apply quiet_try_catch
  | |- quiet (ret _) _ => apply quiet_ret
  | |- quiet (throw _) _ => apply quiet_throw
  | |- quiet (for_each _ _) _ => apply quiet_for_each
  | |- quiet (if ?b then _ else _) _ => destruct b
  | |- quiet (match ?x with _ => _ end) _ => destruct x
  | |- quiet _ _ => solve [eauto with quiet_db]
  | |- any _ => exact I
  end.

Ltac quiet_auto := repeat quiet_step.

Lemma quiet_requestViewerDiscount login viewer :
  quiet (requestViewerDiscount login viewer) any.
Proof. unfold requestViewerDiscount. quiet_auto. Qed.

Lemma quiet_callBackend path method req : quiet (callBackend path method req) any.
Proof. unfold callBackend. quiet_auto. Qed.

Lemma quiet_syncJoinsFromBackend : quiet syncJoinsFromBackend any.
Proof. unfold syncJoinsFromBackend. quiet_auto. Qed.

#[local]
Hint Resolve quiet_requestViewerDiscount quiet_callBackend
  quiet_syncJoinsFromBackend : quiet_db.

(** A block that yields the reply still to be sent, then sends it. *)
Lemma quiet_tail (c : M (M unit)) :
  quiet c (fun r => quiet r any) -> quiet (bind c (fun reply => reply)) any.
Proof. intros H. eapply quiet_bind; [exact H|]. by intros a Ha. Qed.

Lemma quiet_ping channel tags : quiet (ping_execute channel tags) any.
Proof. unfold ping_execute. quiet_auto. Qed.

Lemma quiet_help {config : Config} channel tags : quiet (help_execute channel tags) any.
Proof. unfold help_execute. quiet_auto. Qed.

Lemma quiet_reload {config : Config} channel tags :
  quiet (reload_execute channel tags) any.
Proof. unfold reload_execute. quiet_auto. Qed.

Lemma quiet_drop_code data : quiet (drop_code data) any.
Proof. unfold drop_code. quiet_auto. Qed.

Lemma quiet_discount_on_failure channel u userId result :
  truthy (opt_prop result "ok") = false ->
  quiet (discount_on_result channel u userId result) (fun r => quiet r any).
Proof.
  intros Hok. unfold discount_on_result. rewrite Hok. simpl negb. cbv iota.
  destruct (negb (truthy result) || _); quiet_auto.
Qed.

(** ** Replies and requests, run *)

Lemma say_run channel text w :
  say channel text w =
    (if snd (next_say w) then Ok tt else Throw {| exn_message := "say"; exn_data := JUndefined |},
     settle (fst (next_say w)) (pop_say (script w))
       (Said channel text (snd (next_say w))) w).
Proof. reflexivity. Qed.

Lemma new_events_app w w' l : trace w' = trace w ++ l -> new_events w w' = l.
Proof. intros H. unfold new_events. rewrite H. by rewrite drop_app_length. Qed.

Lemma assoc_get_set_ne k k' v kvs :
  String.eqb k k' = false -> assoc_get k (assoc_set k' v kvs) = assoc_get k kvs.
Proof.
  intros Hne. induction kvs as [|[k0 v0] kvs IH]; simpl.
  - by rewrite Hne.
  - destruct (String.eqb_spec k' k0) as [->|Hk0]; simpl.
    + by rewrite Hne.
    + destruct (String.eqb k k0); [done|apply IH].
Qed.

Lemma assoc_get_set_eq k v kvs : assoc_get k (assoc_set k v kvs) = Some v.
Proof.
  induction kvs as [|[k0 v0] kvs IH]; simpl.
  - by rewrite String.eqb_refl.
  - destruct (String.eqb_spec k k0) as [->|Hk0]; simpl.
    + by rewrite String.eqb_refl.
    + destruct (String.eqb_spec k k0); [done|apply IH].
Qed.

Lemma digit_char_is_digit d : 0 <= d < 10 -> is_digit (digit_char d) = true.
Proof.
  intros H. assert (Hd : d = 0 \/ d = 1 \/ d = 2 \/ d = 3 \/ d = 4 \/ d = 5 \/ d = 6
                       \/ d = 7 \/ d = 8 \/ d = 9) by lia.
  by destruct Hd as [->|[->|[->|[->|[->|[->|[->|[->|[->| ->]]]]]]]]].
Qed.

Lemma show_digits_head fuel n acc :
  exists c rest, show_digits (S fuel) n acc = String c rest /\ is_digit c = true.
Proof.
  revert n acc. induction fuel as [|fuel IH]; intros n acc.
  - simpl. destruct (n <? 10); eexists _, _; (split; [reflexivity|]);
      apply digit_char_is_digit, Z.mod_pos_bound; lia.
  - change (show_digits (S (S fuel)) n acc)
      with (let acc' := String (digit_char (n mod 10)) acc in
            if n <? 10 then acc' else show_digits (S fuel) (n / 10) acc').
    cbv zeta. destruct (n <? 10).
    + eexists _, _; split; [reflexivity|].
      apply digit_char_is_digit, Z.mod_pos_bound; lia.
    + apply IH.
Qed.

Lemma show_Z_head n :
  exists c rest, show_Z n = String c rest /\ (c = "-"%char \/ is_digit c = true).
Proof.
  unfold show_Z.
  destruct (show_digits_head (Z.to_nat (Z.log2 (Z.abs n))) (Z.abs n) EmptyString)
    as (c & rest & -> & Hc).
  destruct (n <? 0); eauto 6.
Qed.

Lemma show_Z_not_ok n : String.eqb "ok" (show_Z n) = false.
Proof.
  destruct (show_Z_head n) as (c & rest & -> & [-> | Hc]); [done|].
  cbn [String.eqb]. destruct (Ascii.eqb_spec "o"%char c) as [<-|]; [|done].
  vm_compute in Hc. discriminate Hc.
Qed.

Lemma assoc_get_indexed i items tl :
  assoc_get "ok" (indexed i items ++ tl) = assoc_get "ok" tl.
Proof.
  revert i. induction items as [|x items IH]; intros i; [done|].
  cbn [indexed app assoc_get]. rewrite show_Z_not_ok. apply IH.
Qed.

Lemma requestViewerDiscount_refused login viewer w :
  backend_says_ok (snd (next_fetch w)) = false ->
  quiet_at w (requestViewerDiscount login viewer)
    (fun result => truthy (opt_prop result "ok") = false).
Proof.
  intros Hno. split; [apply quiet_requestViewerDiscount|].
  intros result. unfold requestViewerDiscount, bind, fetch, lift, readJsonOrText.
  cbn [fst snd]. unfold backend_says_ok in Hno.
  destruct (snd (next_fetch w)) as [why|res]; cbn [fst snd ret].
  - intros H. injection H as <-. reflexivity.
  - destruct (body res) as [why|raw [data|]]; cbn [fst snd ret].
    + done.
    + assert (Hdata : truthy (opt_prop (spread_with_status data (status res)) "ok") = false).
      { destruct data as [| | | | |items|kvs]; try reflexivity.
        - cbn [spread_with_status opt_prop]. by rewrite assoc_get_indexed.
        - cbn [spread_with_status opt_prop]. by rewrite assoc_get_set_ne. }
      destruct (includes _ _); cbn [fst snd ret];
        (destruct (truthy data && is_object data); unfold ret;
         intros H; injection H as <-; [exact Hdata|reflexivity]).
    + destruct (includes _ _); intros H; injection H as <-; reflexivity.
Qed.

Lemma discount_waits channel tags uid w :
  userId_of tags = Ok uid ->
  now w < expiry (cooldowns w) "discount" uid ->
  discount_execute channel tags w
  = say channel
      (discount_wait_text (show_opt (name_of tags))
         (ceil_div (expiry (cooldowns w) "discount" uid - now w) 1000))
      (snd (isOnCooldown "discount" uid w)).
Proof.
  intros Hu Hcd. unfold discount_execute, bind, lift. rewrite Hu.
  pose proof (isOnCooldown_value "discount" uid w) as Hv.
  destruct (isOnCooldown "discount" uid w) as [r w0]. cbn [fst snd] in *. subst r.
  destruct (Z.ltb_spec (now w) (expiry (cooldowns w) "discount" uid)); [|lia].
  assert (Hpos : 0 < ceil_div (expiry (cooldowns w) "discount" uid - now w) 1000)
    by (apply ceil_div_pos; lia).
  by destruct (Z.ltb_spec 0 (ceil_div (expiry (cooldowns w) "discount" uid - now w) 1000));
    [|lia].
Qed.

Lemma discount_quiet_unless_issued channel tags w :
  discount_issues tags w = false ->
  same_ledger w (snd (discount_execute channel tags w)).
Proof.
  unfold discount_issues. intros Hno.
  unfold discount_execute, bind at 1, lift.
  destruct (userId_of tags) as [uid|err]; [|apply same_ledger_refl].
  unfold bind at 1.
  pose proof (isOnCooldown_value "discount" uid w) as Hv.
  pose proof (isOnCooldown_world "discount" uid w) as (Hl & Hnow & Hscript & _).
  destruct (isOnCooldown "discount" uid w) as [r w0]. cbn [fst snd] in *. subst r.
  eapply same_ledger_trans; [exact Hl|].
  destruct (Z.ltb_spec (now w) (expiry (cooldowns w) "discount" uid)) as [Hcd|Hcd].
  { assert ((0 <? ceil_div (expiry (cooldowns w) "discount" uid - now w) 1000) = true) as ->
      by (apply Z.ltb_lt, ceil_div_pos; lia).
    apply quiet_say. }
  change (0 <? 0) with false. cbv iota.
  assert (Hs : next_say w0 = next_say w) by (unfold next_say; by rewrite Hscript).
  unfold bind at 1. rewrite say_run, Hs.
  destruct (snd (next_say w)) eqn:Hsay; cbn [fst snd]; [|apply same_ledger_settle].
  assert (Hback : backend_says_ok (snd (next_fetch w)) = false).
  { destruct (Z.leb_spec (expiry (cooldowns w) "discount" uid) (now w)); [done|lia]. }
  match goal with |- same_ledger _ (snd (?c ?w1)) =>
    apply (same_ledger_trans _ w1);
      [apply same_ledger_settle | refine (proj1 (_ : quiet_at w1 c any))]
  end.
  eapply quiet_at_bind with (P := fun r => quiet r any); [|by intros].
  apply quiet_at_try_catch; [|intros; by apply quiet_ret, quiet_say].
  eapply quiet_at_bind.
  - apply requestViewerDiscount_refused.
    unfold next_fetch. cbn [script settle pop_say fetches]. rewrite Hscript. exact Hback.
  - intros result Hres. by apply quiet_discount_on_failure.
Qed.

Lemma discount_issued channel tags uid w res raw kvs :
  userId_of tags = Ok uid ->
  expiry (cooldowns w) "discount" uid <= now w ->
  snd (next_say w) = true ->
  snd (next_fetch w) = FetchResolves res ->
  body res = Readable raw (Some (JObj kvs)) ->
  truthy (default JUndefined (assoc_get "ok" kvs)) = true ->
  let u := show_opt (name_of tags) in
  let c := default JUndefined (assoc_get "discountCode" kvs) in
  let w0 := snd (isOnCooldown "discount" uid w) in
  let w1 := settle (fst (next_say w)) (pop_say (script w0))
              (Said channel (discount_announcement u) true) w0 in
  let w2 := settle (fst (next_fetch w)) (pop_fetch (script w1))
              (discount_request channel tags uid) w1 in
  let w3 := snd (setCooldown "discount" uid (30 * 1000)
                   (snd (setUserDiscount channel uid c w2))) in
  discount_execute channel tags w = say channel (discount_code_reply u c) w3.
Proof.
  intros Hu Hcd Hsay Hfetch Hbody Hok u c w0 w1 w2 w3.
  unfold discount_execute, bind at 1, lift. rewrite Hu.
  unfold bind at 1.
  pose proof (isOnCooldown_value "discount" uid w) as Hv.
  pose proof (isOnCooldown_world "discount" uid w) as (Hl & Hnow & Hscript & _).
  fold w0 in Hnow, Hscript, Hl.
  destruct (isOnCooldown "discount" uid w) as [r w0'] eqn:Hrun.
  cbn [fst snd] in *. subst r. subst w0.
  destruct (Z.ltb_spec (now w) (expiry (cooldowns w) "discount" uid)); [lia|].
  change (0 <? 0) with false. cbv iota.
  assert (Hs : next_say w0' = next_say w) by (unfold next_say; by rewrite Hscript).
  unfold bind at 1. rewrite say_run, Hs, Hsay. fold u. fold (discount_announcement u).
  fold w1.
  assert (Hf : next_fetch w1 = next_fetch w).
  { unfold next_fetch, w1. cbn [script settle pop_say fetches]. by rewrite Hscript. }
  unfold bind at 1, try_catch, bind at 1, requestViewerDiscount, bind at 1, fetch.
  rewrite Hf, Hfetch. cbn [fst snd viewer_id viewer_login viewer_name].
  fold (discount_request channel tags uid). fold w2.
  unfold bind at 1, lift, readJsonOrText. rewrite Hbody.
  assert (Hres : truthy (opt_prop (spread_with_status (JObj kvs) (status res)) "ok") = true).
  { cbn [spread_with_status opt_prop]. by rewrite assoc_get_set_ne. }
  assert (Hc : opt_prop (spread_with_status (JObj kvs) (status res)) "discountCode" = c).
  { cbn [spread_with_status opt_prop]. by rewrite assoc_get_set_ne. }
  assert (Hon : discount_on_result channel u uid (spread_with_status (JObj kvs) (status res)) w2
                = (Ok (say channel (discount_code_reply u c)), w3)).
  { unfold discount_on_result. rewrite Hres, Hc.
    destruct (opt_prop (spread_with_status (JObj kvs) (status res)) "ok") eqn:E;
      try discriminate Hres;
      cbn [spread_with_status truthy negb orb];
      unfold bind, ret, w3;
      rewrite setUserDiscount_run; cbn [fst snd]; rewrite setCooldown_run; reflexivity. }
  destruct (includes _ _); cbn [fst snd truthy is_object andb ret]; by rewrite Hon.
Qed.

(** ** The global-drop handler, case by case *)

Lemma drop_not_streamer channel tags args w :
  broadcaster tags <> Some "1" ->
  drop_execute channel tags args w
  = say channel ("@" +:+ show_opt (display_name tags)
                 +:+ " only the streamer can activate global drops.") w.
Proof.
  intros H. unfold drop_execute.
  destruct (broadcaster tags) as [b|]; [|done].
  destruct (String.eqb_spec b "1") as [->|]; [done|done].
Qed.

Lemma drop_on_cooldown channel tags args w :
  broadcaster tags = Some "1" ->
  now w - lastGlobalDropAt w < GLOBAL_DROP_COOLDOWN_MS ->
  drop_execute channel tags args w
  = say channel
      (drop_cooldown_text (show_opt (display_name tags))
         (ceil_div (GLOBAL_DROP_COOLDOWN_MS - (now w - lastGlobalDropAt w)) 1000)) w.
Proof.
  intros Hs Hcd. unfold drop_execute, bind, Date_now, gets. rewrite Hs. simpl.
  by destruct (Z.ltb_spec (now w - lastGlobalDropAt w) GLOBAL_DROP_COOLDOWN_MS); [|lia].
Qed.

Lemma drop_usage channel tags args w :
  broadcaster tags = Some "1" ->
  GLOBAL_DROP_COOLDOWN_MS <= now w - lastGlobalDropAt w ->
  invalid_percent (parseInt10 (head args)) = true ->
  drop_execute channel tags args w
  = say channel (drop_usage_text (show_opt (display_name tags))) w.
Proof.
  intros Hs Hcd Hbad. unfold drop_execute, bind, Date_now, gets. rewrite Hs. simpl.
  destruct (Z.ltb_spec (now w - lastGlobalDropAt w) GLOBAL_DROP_COOLDOWN_MS); [lia|].
  destruct (parseInt10 (head args)) as [p|]; [|done].
  simpl in Hbad. by rewrite Hbad.
Qed.

Lemma next_axios_after_say w dt ev : 
  next_axios (settle dt (pop_say (script w)) ev w) = next_axios w.
Proof. reflexivity. Qed.

Lemma drop_issues channel tags args w p st data :
  broadcaster tags = Some "1" ->
  GLOBAL_DROP_COOLDOWN_MS <= now w - lastGlobalDropAt w ->
  parseInt10 (head args) = Some p -> 1 <= p <= 50 ->
  snd (next_say w) = true ->
  snd (next_axios w) = AxiosResolves st data ->
  truthy (opt_prop data "ok") = true ->
  is_nullish (opt_prop data "drop") = false ->
  let u := show_opt (display_name tags) in
  let w1 := settle (fst (next_say w)) (pop_say (script w))
              (Said channel (drop_announcement u p) true) w in
  let w2 := settle (fst (next_axios w)) (pop_axios (script w1)) (drop_request channel p) w1 in
  drop_execute channel tags args w
  = say channel (drop_activated_text (opt_prop (opt_prop data "drop") "code") p)
      (with_lastGlobalDropAt (now w2) w2).
Proof.
  intros Hs Hcd Hp Hrange Hsay Hax Hok Hdrop u w1 w2.
  unfold drop_execute, bind, Date_now, gets. rewrite Hs.
  cbn [String.eqb Ascii.eqb Bool.eqb negb fst snd].
  destruct (Z.ltb_spec (now w - lastGlobalDropAt w) GLOBAL_DROP_COOLDOWN_MS); [lia|].
  rewrite Hp.
  destruct (Z.ltb_spec p 1); [lia|]. destruct (Z.gtb_spec p 50); [lia|].
  cbn [orb].
  rewrite say_run, Hsay. fold u. fold (drop_announcement u p). fold w1.
  unfold try_catch, callBackend, bind, axios.
  fold (drop_request channel p).
  change (next_axios w1) with (next_axios w). rewrite Hax.
  cbn [fst snd].
  destruct data as [| | | | | |kvs]; try discriminate Hok.
  cbn [is_object ret fst snd]. rewrite Hok. cbn [negb].
  unfold drop_code. rewrite Hdrop. unfold ret, modify. reflexivity.
Qed.

Lemma drop_calls_backend channel tags args w p :
  broadcaster tags = Some "1" ->
  GLOBAL_DROP_COOLDOWN_MS <= now w - lastGlobalDropAt w ->
  parseInt10 (head args) = Some p -> 1 <= p <= 50 ->
  snd (next_say w) = true ->
  exists text w3,
    drop_execute channel tags args w = say channel text w3
    /\ trace w3 = trace w ++ [Said channel (drop_announcement (show_opt (display_name tags)) p) true;
                              drop_request channel p].
Proof.
  intros Hs Hcd Hp Hrange Hsay.
  unfold drop_execute, bind, Date_now, gets. rewrite Hs.
  cbn [String.eqb Ascii.eqb Bool.eqb negb fst snd].
  destruct (Z.ltb_spec (now w - lastGlobalDropAt w) GLOBAL_DROP_COOLDOWN_MS); [lia|].
  rewrite Hp.
  destruct (Z.ltb_spec p 1); [lia|]. destruct (Z.gtb_spec p 50); [lia|].
  cbn [orb].
  rewrite say_run, Hsay.
  fold (drop_announcement (show_opt (display_name tags)) p).
  unfold try_catch, callBackend, bind, axios.
  fold (drop_request channel p).
  rewrite next_axios_after_say.
  destruct (snd (next_axios w)) as [err|st data]; cbn [fst snd].
  - destruct (is_str _ _ && truthy _); unfold ret;
      eexists _, _; (split; [reflexivity|]); cbn [trace settle]; by rewrite <- app_assoc.
  - unfold drop_code.
    repeat match goal with
           | |- context [if ?b then _ else _] => destruct b; cbn [fst snd ret modify throw]
           end;
      unfold ret, modify, throw;
      eexists _, _; (split; [reflexivity|]); cbn [trace settle with_lastGlobalDropAt];
      by rewrite <- app_assoc.
Qed.

Lemma drop_announcement_lost channel tags args w p :
  broadcaster tags = Some "1" ->
  GLOBAL_DROP_COOLDOWN_MS <= now w - lastGlobalDropAt w ->
  parseInt10 (head args) = Some p -> 1 <= p <= 50 ->
  snd (next_say w) = false ->
  drop_execute channel tags args w
  = say channel (drop_announcement (show_opt (display_name tags)) p) w.
Proof.
  intros Hs Hcd Hp Hrange Hsay.
  unfold drop_execute, bind, Date_now, gets. rewrite Hs.
  cbn [String.eqb Ascii.eqb Bool.eqb negb fst snd].
  destruct (Z.ltb_spec (now w - lastGlobalDropAt w) GLOBAL_DROP_COOLDOWN_MS); [lia|].
  rewrite Hp.
  destruct (Z.ltb_spec p 1); [lia|]. destruct (Z.gtb_spec p 50); [lia|].
  cbn [orb]. rewrite say_run, Hsay. reflexivity.
Qed.

Ltac answer_is_not_it := let H := fresh in intros ? ? H; first [discriminate H | injection H as <- <-; congruence].

Lemma drop_after_announcement channel tags args w p :
  broadcaster tags = Some "1" ->
  GLOBAL_DROP_COOLDOWN_MS <= now w - lastGlobalDropAt w ->
  parseInt10 (head args) = Some p -> 1 <= p <= 50 ->
  snd (next_say w) = true ->
  exists text w3,
    drop_execute channel tags args w = say channel text w3
    /\ trace w3 = trace w ++ [Said channel (drop_announcement (show_opt (display_name tags)) p) true;
                              drop_request channel p]
    /\ cooldowns w3 = cooldowns w /\ claimedDiscounts w3 = claimedDiscounts w
    /\ (lastGlobalDropAt w3 = lastGlobalDropAt w
        \/ exists st data,
             snd (next_axios w) = AxiosResolves st data
             /\ truthy (opt_prop data "ok") = true
             /\ is_nullish (opt_prop data "drop") = false
             /\ lastGlobalDropAt w3 = now w + fst (next_say w) + fst (next_axios w))
    /\ (forall st data, snd (next_axios w) = AxiosResolves st data ->
          is_object data = false ->
          text = "@" +:+ show_opt (display_name tags) +:+ " "
                 +:+ ("Backend returned HTTP " +:+ show_Z st)).
Proof.
  intros Hs Hcd Hp Hrange Hsay.
  unfold drop_execute, bind, Date_now, gets. rewrite Hs.
  cbn [String.eqb Ascii.eqb Bool.eqb negb fst snd].
  destruct (Z.ltb_spec (now w - lastGlobalDropAt w) GLOBAL_DROP_COOLDOWN_MS); [lia|].
  rewrite Hp.
  destruct (Z.ltb_spec p 1); [lia|]. destruct (Z.gtb_spec p 50); [lia|].
  cbn [orb].
  rewrite say_run, Hsay.
  fold (drop_announcement (show_opt (display_name tags)) p).
  unfold try_catch, callBackend, bind, axios.
  fold (drop_request channel p).
  rewrite next_axios_after_say.
  destruct (snd (next_axios w)) as [err|st data] eqn:Hax; cbn [fst snd].
  - destruct (is_str _ _ && truthy _); unfold ret;
      eexists _, _; (split; [reflexivity|]); cbn [trace settle lastGlobalDropAt];
      (split; [by rewrite <- app_assoc|]); (split; [reflexivity|]); (split; [reflexivity|]);
      (split; [by left|answer_is_not_it]).
  - destruct (is_object data) eqn:Hobj; cbn [fst snd ret].
    + destruct (truthy (opt_prop data "ok")) eqn:Hok; cbn [negb].
      * unfold drop_code.
        destruct (is_nullish (opt_prop data "drop")) eqn:Hdrop; cbn [fst snd throw ret].
        -- destruct (is_str _ _ && truthy _); unfold ret;
             eexists _, _; (split; [reflexivity|]); cbn [trace settle lastGlobalDropAt];
             (split; [by rewrite <- app_assoc|]); (split; [reflexivity|]); (split; [reflexivity|]);
      (split; [by left|answer_is_not_it]).
        -- unfold modify, ret. eexists _, _. split; [reflexivity|].
           cbn [trace settle with_lastGlobalDropAt lastGlobalDropAt now].
           split; [by rewrite <- app_assoc|]. split; [reflexivity|]. split; [reflexivity|].
           split; [|answer_is_not_it].
           right. exists st, data. repeat split; first [done | lia].
      * repeat match goal with
               | |- context [if ?b then _ else _] => destruct b
               end; unfold ret;
          eexists _, _; (split; [reflexivity|]); cbn [trace settle lastGlobalDropAt];
          (split; [by rewrite <- app_assoc|]); (split; [reflexivity|]); (split; [reflexivity|]);
      (split; [by left|answer_is_not_it]).
    + cbn [opt_prop assoc_get String.eqb Ascii.eqb Bool.eqb default truthy negb is_str
             andb is_empty].
      unfold ret. eexists _, _. split; [reflexivity|]. cbn [trace settle lastGlobalDropAt].
      split; [by rewrite <- app_assoc|]. split; [reflexivity|]. split; [reflexivity|].
      split; [by left|].
      intros st' data' [= <- <-] _. reflexivity.
Qed.

Lemma drop_cases channel tags args w :
  (exists text, drop_execute channel tags args w = say channel text w)
  \/ (broadcaster tags = Some "1"
      /\ GLOBAL_DROP_COOLDOWN_MS <= now w - lastGlobalDropAt w
      /\ exists p, parseInt10 (head args) = Some p /\ 1 <= p <= 50
                   /\ snd (next_say w) = true).
Proof.
  destruct (decide (broadcaster tags = Some "1")) as [Hs|Hs];
    [|left; eexists; by apply drop_not_streamer].
  destruct (Z.lt_ge_cases (now w - lastGlobalDropAt w) GLOBAL_DROP_COOLDOWN_MS) as [Hin|Hout];
    [left; eexists; by apply drop_on_cooldown|].
  destruct (invalid_percent (parseInt10 (head args))) eqn:Hbad;
    [left; eexists; by apply drop_usage|].
  destruct (parseInt10 (head args)) as [p|] eqn:Hp; [|done].
  cbn [invalid_percent] in Hbad. apply orb_false_iff in Hbad as [H1 H2].
  apply Z.ltb_ge in H1. rewrite Z.gtb_ltb in H2. apply Z.ltb_ge in H2.
  destruct (snd (next_say w)) eqn:Hsay.
  - right. split; [done|]. split; [done|]. exists p. repeat split; first [done | lia].
  - left. eexists. apply (drop_announcement_lost channel tags args w p); first [done | lia].
Qed.

Lemma say_after_events channel text w w3 l :
  trace w3 = trace w ++ l ->
  new_events w (snd (say channel text w3)) = l ++ [Said channel text (snd (next_say w3))].
Proof.
  intros H. apply new_events_app. cbn [snd say trace settle]. by rewrite H, <- app_assoc.
Qed.

Lemma drop_creates_inv tags args w :
  drop_creates tags args w = true ->
  broadcaster tags = Some "1"
  /\ GLOBAL_DROP_COOLDOWN_MS <= now w - lastGlobalDropAt w
  /\ exists p st data,
       parseInt10 (head args) = Some p /\ 1 <= p <= 50
       /\ snd (next_say w) = true
       /\ snd (next_axios w) = AxiosResolves st data
       /\ truthy (opt_prop data "ok") = true
       /\ is_nullish (opt_prop data "drop") = false.
Proof.
  unfold drop_creates, backend_creates_drop.
  destruct (broadcaster tags) as [b|]; [|done].
  destruct (parseInt10 (head args)) as [p|]; [|done].
  rewrite !andb_true_iff, Z.leb_le, !Z.leb_le.
  intros (((((Hb & Hcd) & H1) & H50) & Hsay) & Hback).
  apply String.eqb_eq in Hb as ->. split; [done|]. split; [done|].
  destruct (snd (next_axios w)) as [err|st data]; [done|].
  apply andb_prop in Hback as [Hok Hdrop]. apply negb_true_iff in Hdrop.
  exists p, st, data. repeat split; first [done | lia].
Qed.

(** The global-drop handler never touches the cooldowns or the claims. *)
Lemma drop_same_entries channel tags args w :
  same_entries w (snd (drop_execute channel tags args w)).
Proof.
  destruct (drop_cases channel tags args w) as [[text ->]|(Hs & Hcd & p & Hp & Hr & Hsay)].
  - apply same_ledger_entries, quiet_say.
  - destruct (drop_after_announcement channel tags args w p)
      as (text & w3 & -> & _ & Hc & Hcl & _); try done.
    split; cbn [snd say cooldowns claimedDiscounts settle]; [by rewrite Hc|exact Hcl].
Qed.

(** Unless it creates a drop, it leaves the whole ledger alone. *)
Lemma drop_same_ledger channel tags args w :
  drop_creates tags args w = false ->
  same_ledger w (snd (drop_execute channel tags args w)).
Proof.
  intros Hno. destruct (drop_same_entries channel tags args w) as [He Hc].
  split; [exact He|]. split; [exact Hc|].
  destruct (drop_cases channel tags args w) as [[text ->]|(Hs & Hcd & p & Hp & Hr & Hsay)];
    [done|].
  destruct (drop_after_announcement channel tags args w p)
    as (text & w3 & -> & _ & _ & _ & Hlast & _); try done.
  cbn [snd say lastGlobalDropAt settle].
  destruct Hlast as [Hlast|(st & data & Hax & Hok & Hdrop & _)]; [exact Hlast|].
  exfalso. revert Hno. unfold drop_creates, backend_creates_drop.
  rewrite Hs, Hp, Hsay, Hax, Hok, Hdrop. cbn [String.eqb Ascii.eqb Bool.eqb andb negb].
  destruct (Z.leb_spec GLOBAL_DROP_COOLDOWN_MS (now w - lastGlobalDropAt w)); [|lia].
  destruct (Z.leb_spec 1 p); [|lia]. destruct (Z.leb_spec p 50); [|lia]. done.
Qed.

Lemma drop_creates_after_check tags args command userId w :
  drop_creates tags args (snd (isOnCooldown command userId w)) = drop_creates tags args w.
Proof.
  pose proof (isOnCooldown_world command userId w) as (_ & Hnow & Hscript & _ & Hlast & _).
  unfold drop_creates, next_say, next_axios. cbv zeta in *.
  by rewrite Hnow, Hscript, Hlast.
Qed.

(** ** The dispatcher, run *)

Section Dispatcher.
Context {config : Config}.

Lemma run_command_throw e name uid channel tags args w err w1 :
  execute e channel tags args w = (Throw err, w1) ->
  run_command e name uid channel tags args w
  = say channel (failure_text (show_opt (name_of tags)) name) w1.
Proof. intros H. unfold run_command, try_catch, bind. by rewrite H. Qed.

Lemma run_command_ok e name uid channel tags args w w1 :
  execute e channel tags args w = (Ok tt, w1) ->
  run_command e name uid channel tags args w
  = if negb (String.eqb name "discount")
    then setCooldown name uid (default DEFAULT_COOLDOWN_MS (COMMAND_COOLDOWNS name)) w1
    else (Ok tt, w1).
Proof.
  intros H. unfold run_command, try_catch, bind. rewrite H.
  destruct (negb (String.eqb name "discount")); [|done].
  by rewrite setCooldown_run.
Qed.

Lemma dispatch_run e name channel tags args w uid :
  userId_of tags = Ok uid ->
  dispatch e name channel tags args w
  = match fst (isOnCooldown name uid w) with
    | Ok cd =>
        if (0 <? cd) && negb (String.eqb name "discount")
        then say channel (cooldown_wait_text (show_opt (name_of tags)) cd name)
               (snd (isOnCooldown name uid w))
        else run_command e name uid channel tags args (snd (isOnCooldown name uid w))
    | Throw err => (Throw err, snd (isOnCooldown name uid w))
    end.
Proof.
  intros H. unfold dispatch, bind, lift. rewrite H.
  destruct (isOnCooldown name uid w) as [[cd|err] w0]; simpl; [|done].
  by destruct ((0 <? cd) && negb (String.eqb name "discount")).
Qed.

End Dispatcher.

(** ** What a reply adds to the world *)

Lemma say_events channel text w :
  new_events w (snd (say channel text w)) = [Said channel text (snd (next_say w))].
Proof. by apply new_events_app. Qed.

Lemma say_lastGlobalDropAt channel text w :
  lastGlobalDropAt (snd (say channel text w)) = lastGlobalDropAt w.
Proof. reflexivity. Qed.

Lemma say_external channel text w e :
  e ∈ new_events w (snd (say channel text w)) -> is_external_call e = false.
Proof. rewrite say_events. intros ->%list_elem_of_singleton. done. Qed.

Lemma try_catch_say_events channel text text' w e :
  e ∈ new_events w (snd (try_catch (say channel text) (fun _ => say channel text') w)) ->
  is_external_call e = false.
Proof.
  unfold try_catch. rewrite say_run. destruct (snd (next_say w)); cbv iota beta.
  - cbn [snd]. intros He. unfold new_events in He. cbn [trace settle] in He.
    rewrite drop_app_length in He. by apply list_elem_of_singleton in He as ->.
  - cbn [snd say]. intros He. unfold new_events in He. cbn [trace settle] in He.
    rewrite <- app_assoc, drop_app_length in He.
    apply elem_of_cons in He as [->|He]; [done|].
    by apply list_elem_of_singleton in He as ->.
Qed.

(** ** The global drop *)






(** ** The personal discount *)

Lemma isOnCooldown_again command userId w :
  inherited command = false ->
  isOnCooldown command userId (snd (isOnCooldown command userId w))
  = isOnCooldown command userId w.
Proof.
  intros Hin.
  pose proof (isOnCooldown_value command userId w) as Hv.
  pose proof (isOnCooldown_value command userId (snd (isOnCooldown command userId w))) as Hv'.
  pose proof (isOnCooldown_world command userId w) as ([He _] & Hnow & _).
  assert (Hp : is_Some (cooldowns (snd (isOnCooldown command userId w)) !! command)).
  { unfold isOnCooldown, bind, modify, Date_now, gets, ret. cbn [fst snd].
    destruct (cooldowns w !! command) as [m|] eqn:E; cbn [fst snd]; [by rewrite E|].
    rewrite Hin. cbn [fst snd cooldowns with_cooldowns]. by rewrite lookup_insert_eq. }
  pose proof (isOnCooldown_present command userId _ Hp) as Hw.
  rewrite He, Hnow, <- Hv in Hv'.
  destruct (isOnCooldown command userId (snd (isOnCooldown command userId w))) as [r1 w1].
  destruct (isOnCooldown command userId w) as [r0 w0]. cbn [fst snd] in *. congruence.
Qed.

Lemma bind_lift_ok {A B} (a : A) (k : A -> M B) w : bind (lift (Ok a)) k w = k a w.
Proof. reflexivity. Qed.

Lemma bind_assoc {A B C} (c : M A) (f : A -> M B) (g : B -> M C) w :
  bind (bind c f) g w = bind c (fun a => bind (f a) g) w.
Proof. unfold bind. by destruct (c w) as [[a|e] w']. Qed.

Lemma bind_run {A B} (c : M A) (k : A -> M B) w :
  bind c k w = match c w with
               | (Ok a, w') => k a w'
               | (Throw e, w') => (Throw e, w')
               end.
Proof. reflexivity. Qed.

Lemma discount_execute_after_check channel tags uid w :
  userId_of tags = Ok uid ->
  discount_execute channel tags (snd (isOnCooldown "discount" uid w))
  = discount_execute channel tags w.
Proof.
  intros Hu. unfold discount_execute. rewrite Hu, !bind_lift_ok.
  rewrite !(bind_run (isOnCooldown _ _)). rewrite isOnCooldown_again by done.
  reflexivity.
Qed.

Lemma backend_says_ok_inv out :
  backend_says_ok out = true ->
  exists res raw kvs,
    out = FetchResolves res /\ body res = Readable raw (Some (JObj kvs))
    /\ truthy (default JUndefined (assoc_get "ok" kvs)) = true.
Proof.
  unfold backend_says_ok. destruct out as [why|res]; [done|].
  destruct (body res) as [why|raw [[| | | | | |kvs]|]] eqn:Hb; try done.
  intros H. by exists res, raw, kvs.
Qed.

Section Discount.
Context {config : Config}.

Lemma dispatch_discount channel tags args uid w :
  userId_of tags = Ok uid ->
  dispatch (Own Discount) "discount" channel tags args w
  = try_catch (discount_execute channel tags)
      (fun _ => say channel (failure_text (show_opt (name_of tags)) "discount")) w.
Proof.
  intros Hu. rewrite (dispatch_run _ _ _ _ _ _ uid) by done.
  rewrite isOnCooldown_value. cbn [String.eqb Ascii.eqb Bool.eqb negb andb].
  rewrite Bool.andb_false_r.
  unfold run_command, try_catch, bind, execute.
  rewrite discount_execute_after_check by done.
  destruct (discount_execute channel tags w) as [[[]|err] w1]; reflexivity.
Qed.

(** The handler is its two parts, one after the other. *)
Lemma discount_execute_parts channel tags w :
  discount_execute channel tags w
  = (let* r := discount_begin channel tags in
     match r with
     | Some userId => discount_resume channel tags userId
     | None => ret tt
     end) w.
Proof.
  unfold discount_execute, discount_begin, discount_resume.
  destruct (userId_of tags) as [uid|err]; [|reflexivity].
  rewrite !bind_assoc, !bind_lift_ok, !bind_assoc, !(bind_run (isOnCooldown _ _)).
  destruct (isOnCooldown "discount" uid w) as [[cd|err] w0]; [|reflexivity].
  destruct (0 <? cd); rewrite ?bind_assoc, !(bind_run (say _ _)), say_run;
    by destruct (snd (next_say w0)).
Qed.

(** An attempt while a cooldown of 30 seconds recorded at [t] is
    running. *)
Lemma discount_second_attempt channel tags args uid t w2 :
  userId_of tags = Ok uid ->
  cooldowns w2 !! "discount" ≫= (.!! uid) = Some (t + 30 * 1000) ->
  t <= now w2 < t + 30 * 1000 ->
  let u := show_opt (name_of tags) in
  let cd := ceil_div (t + 30 * 1000 - now w2) 1000 in
  let again := dispatch (Own Discount) "discount" channel tags args w2 in
  1 <= cd <= 30
  /\ discount_execute channel tags w2 = say channel (discount_wait_text u cd) w2
  /\ (forall e, e ∈ new_events w2 (snd again) -> is_external_call e = false)
  /\ same_ledger w2 (snd again).
Proof.
  intros Hu Hentry Ht u cd again.
  assert (He : expiry (cooldowns w2) "discount" uid = t + 30 * 1000)
    by (unfold expiry; by rewrite Hentry).
  assert (Hrun : discount_execute channel tags w2
                 = say channel (discount_wait_text u cd) w2).
  { rewrite (discount_waits channel tags uid) by (done || lia).
    rewrite isOnCooldown_present; [by rewrite He|].
    destruct (cooldowns w2 !! "discount"); [done|discriminate Hentry]. }
  assert (Hagain : again = try_catch (say channel (discount_wait_text u cd))
                             (fun _ => say channel (failure_text u "discount")) w2).
  { unfold again. rewrite (dispatch_discount _ _ _ uid) by done.
    unfold try_catch. by rewrite Hrun. }
  split; [|split; [exact Hrun|split]].
  - split; [|apply ceil_div_le; lia].
    assert (0 < cd) by (apply ceil_div_pos; lia). lia.
  - rewrite Hagain. apply try_catch_say_events.
  - rewrite Hagain.
    refine (proj1 (quiet_try_catch _ _ any _ _ w2)); [apply quiet_say|intros; apply quiet_say].
Qed.

(** The expiry an issuance records. *)
Lemma discount_issues_expiry channel tags uid w :
  userId_of tags = Ok uid ->
  discount_issues tags w = true ->
  cooldowns (snd (discount_execute channel tags w)) !! "discount" ≫= (.!! uid)
  = Some (now w + fst (next_say w) + fst (next_fetch w) + 30 * 1000).
Proof.
  intros Hu. unfold discount_issues. rewrite Hu. intros Hyes.
  apply andb_prop in Hyes as [Hyes Hback]. apply andb_prop in Hyes as [Hcd Hsay].
  apply Z.leb_le in Hcd.
  destruct (backend_says_ok_inv _ Hback) as (res & raw & kvs & Hfetch & Hbody & Hok).
  rewrite (discount_issued channel tags uid w res raw kvs) by done.
  cbn [snd say cooldowns settle]. rewrite setCooldown_run.
  cbn [snd cooldowns with_cooldowns]. rewrite lookup_insert_eq. cbn [mbind option_bind].
  rewrite lookup_insert_eq. f_equal. rewrite setUserDiscount_run.
  cbn [snd now with_claims settle].
  pose proof (isOnCooldown_world "discount" uid w) as (_ & Hnow & _).
  cbv zeta in Hnow. rewrite Hnow. lia.
Qed.

(** Alice sends [!discount] twice within half a second. Her second
    message is handled while the handler of the first waits for its
    announcement to be delivered: its check finds no cooldown yet, it
    announces, and both handlers then ask the backend, which issues a code
    each time: two requests, two codes, no wait message. The clock of the
    run adds up the waits of both handlers, half a second in all. Handled
    one after the other, the same two messages get one code and the wait
    message. *)
Lemma second_discount_during_the_first :
  let first_begins := discount_begin "#bob" alice generous_world in
  let second_begins := discount_begin "#bob" alice (snd first_begins) in
  let first_resumes := discount_resume "#bob" alice "42" (snd second_begins) in
  let second_resumes := discount_resume "#bob" alice "42" (snd first_resumes) in
  (fst first_begins = Ok (Some "42")
   /\ fst second_begins = Ok (Some "42")
   /\ fst first_resumes = Ok tt
   /\ fst second_resumes = Ok tt
   /\ now (snd second_resumes) - now generous_world = 500
   /\ new_events generous_world (snd second_resumes)
      = [Said "#bob" (discount_announcement "Alice") true;
         Said "#bob" (discount_announcement "Alice") true;
         discount_request "#bob" alice "42";
         Said "#bob" (discount_code_reply "Alice" (JStr "DROP-ALICE-1234")) true;
         discount_request "#bob" alice "42";
         Said "#bob" (discount_code_reply "Alice" (JStr "DROP-ALICE-5678")) true]
   /\ claimedDiscounts (snd second_resumes) !! "#bob" ≫= (.!! "42")
      = Some {| code := JStr "DROP-ALICE-5678"; createdAt := 1000500 |})
  /\ (let w1 := snd (discount_execute "#bob" alice generous_world) in
      new_events generous_world w1
      = [Said "#bob" (discount_announcement "Alice") true;
         discount_request "#bob" alice "42";
         Said "#bob" (discount_code_reply "Alice" (JStr "DROP-ALICE-1234")) true]
      /\ new_events w1 (snd (discount_execute "#bob" alice w1))
         = [Said "#bob" "@Alice wait 30s before requesting another code." true]).
Proof. vm_compute. repeat split. Qed.

(** C2, amended. The personal-discount command manages its own 30-second
    cooldown inside its handler. An invocation that does not reach a
    successful issuance (the viewer is on cooldown, the announcement
    fails, the request fails or the backend does not say ok) leaves every
    expiry and claim as it was; one that does sets the expiry to the
    instant at which the issuance came back plus 30 seconds. The
    dispatcher neither rejects nor commits for this command: it only wraps
    the handler in its [try]/[catch]. Consequently, a second attempt that
    is handled once the first has recorded its cooldown, and while the 30
    seconds it set have not elapsed, is answered by the wait-time message
    with between 1 and 30 remaining seconds, performs no external call and
    changes no expiry or claim: so it is for every world that holds the
    recorded expiry, and so for the world the first attempt leaves, any
    time later. The handler is its part before the end of the first
    [await] followed by the rest; nothing is promised for a second
    message that is handled between the two. *)
Theorem discount_cooldown_self_managed
    (channel : string) (tags : Tags) (args : list string) (uid : string) (w : World) :
  userId_of tags = Ok uid ->
  let u := show_opt (name_of tags) in
  let w' := snd (discount_execute channel tags w) in
  (discount_issues tags w = false -> same_ledger w w')
  /\ (discount_issues tags w = true ->
        cooldowns w' !! "discount" ≫= (.!! uid)
        = Some (now w + fst (next_say w) + fst (next_fetch w) + 30 * 1000))
  /\ dispatch (Own Discount) "discount" channel tags args w
     = try_catch (discount_execute channel tags)
         (fun _ => say channel (failure_text u "discount")) w
  /\ (forall t w2,
        cooldowns w2 !! "discount" ≫= (.!! uid) = Some (t + 30 * 1000) ->
        t <= now w2 < t + 30 * 1000 ->
        let cd := ceil_div (t + 30 * 1000 - now w2) 1000 in
        let again := dispatch (Own Discount) "discount" channel tags args w2 in
        1 <= cd <= 30
        /\ discount_execute channel tags w2 = say channel (discount_wait_text u cd) w2
        /\ (forall e, e ∈ new_events w2 (snd again) -> is_external_call e = false)
        /\ same_ledger w2 (snd again))
  /\ (discount_issues tags w = true ->
      forall dt,
        let t := now w + fst (next_say w) + fst (next_fetch w) in
        let w2 := later dt w' in
        t <= now w2 < t + 30 * 1000 ->
        let cd := ceil_div (t + 30 * 1000 - now w2) 1000 in
        let again := dispatch (Own Discount) "discount" channel tags args w2 in
        1 <= cd <= 30
        /\ discount_execute channel tags w2 = say channel (discount_wait_text u cd) w2
        /\ (forall e, e ∈ new_events w2 (snd again) -> is_external_call e = false)
        /\ same_ledger w2 (snd again))
  /\ discount_execute channel tags w
     = (let* r := discount_begin channel tags in
        match r with
        | Some userId => discount_resume channel tags userId
        | None => ret tt
        end) w.
Proof.
  intros Hu u w'. split; [|split; [|split; [|split; [|split]]]].
  - apply discount_quiet_unless_issued.
  - by apply discount_issues_expiry.
  - by apply (dispatch_discount _ _ _ uid).
  - intros t w2 Hentry Ht. by apply (discount_second_attempt _ _ _ uid).
  - intros Hyes dt t w2 Ht. apply (discount_second_attempt _ _ _ uid); [done| |done].
    unfold w2, w'. cbn [cooldowns later]. by apply discount_issues_expiry.
  - apply discount_execute_parts.
Qed.

End Discount.

(** Alice's [!discount] on a fresh process sets her expiry to 1030250;
    her second attempt ten seconds later is told to wait 20 seconds. *)
Lemma discount_cooldown_self_managed_witness :
  let w1 := snd (discount_execute "#bob" alice discount_world) in
  let w2 := later 10000 w1 in
  userId_of alice = Ok "42"
  /\ cooldowns w1 !! "discount" ≫= (.!! "42") = Some 1030250
  /\ discount_execute "#bob" alice w2
     = say "#bob" "@Alice wait 20s before requesting another code." w2.
Proof.
  intros w1 w2.
  assert (H : userId_of alice = Ok "42") by reflexivity.
  destruct (@discount_cooldown_self_managed defaults "#bob" alice [] "42"
              discount_world H)
    as (_ & Hset & _ & _ & Hnext & _).
  split; [exact H|]. split; [exact (Hset eq_refl)|].
  destruct (Hnext eq_refl 10000
              ltac:(vm_compute; split; [discriminate|reflexivity])) as (_ & Hrun & _).
  exact Hrun.
Defined.

(** ** The dispatch boundary *)

Lemma COMMANDS_discount name :
  COMMANDS name = Some (Own Discount) <-> name = "discount".
Proof.
  unfold COMMANDS. split.
  - destruct (String.eqb_spec name "ping") as [->|?]; [intros [=]|].
    destruct (String.eqb_spec name "help") as [->|?]; [intros [=]|].
    destruct (String.eqb_spec name "discount") as [->|?]; [done|].
    destruct (String.eqb_spec name "drop") as [->|?]; [intros [=]|].
    destruct (String.eqb_spec name "reload") as [->|?]; [intros [=]|].
    destruct (inherited name); intros [=].
  - by intros ->.
Qed.

Lemma discount_issues_after_check tags command userId w :
  discount_issues tags (snd (isOnCooldown command userId w)) = discount_issues tags w.
Proof.
  pose proof (isOnCooldown_world command userId w) as ([He _] & Hnow & Hscript & _).
  unfold discount_issues, next_say, next_fetch. cbv zeta in *.
  destruct (userId_of tags); [|done]. by rewrite He, Hnow, Hscript.
Qed.

Section Containment.
Context {config : Config}.

Lemma quiet_execute_other e channel tags args :
  e <> Own Discount -> e <> Own Drop -> quiet (execute e channel tags args) any.
Proof.
  intros He Hd. destruct e as [[]|]; unfold execute;
    first [ apply quiet_ping | apply quiet_help
          | apply quiet_reload | apply quiet_throw | done ].
Qed.

Lemma execute_same_ledger e channel tags args w :
  e <> Own Discount \/ discount_issues tags w = false ->
  e <> Own Drop \/ drop_creates tags args w = false ->
  same_ledger w (snd (execute e channel tags args w)).
Proof.
  intros Hdiscount Hdrop. destruct e as [[]|]; try (by apply quiet_execute_other).
  - destruct Hdiscount as [?|Hno]; [done|]. by apply discount_quiet_unless_issued.
  - destruct Hdrop as [?|Hno]; [done|]. by apply drop_same_ledger.
Qed.

Lemma execute_same_entries e channel tags args w :
  e <> Own Discount \/ discount_issues tags w = false ->
  same_entries w (snd (execute e channel tags args w)).
Proof.
  intros Hdiscount. destruct e as [[]|];
    try (by apply same_ledger_entries, quiet_execute_other).
  - destruct Hdiscount as [?|Hno]; [done|].
    by apply same_ledger_entries, discount_quiet_unless_issued.
  - apply drop_same_entries.
Qed.

(** The handler raises after the check and the failure reply follows:
    unless a discount was issued or a drop created, the ledger reads as
    before the check. *)
Lemma raise_same_ledger e name channel tags args uid err text w w1 :
  e <> Own Discount \/ discount_issues tags w = false ->
  e <> Own Drop \/ drop_creates tags args w = false ->
  execute e channel tags args (snd (isOnCooldown name uid w)) = (Throw err, w1) ->
  same_ledger w (snd (say channel text w1)).
Proof.
  intros Hdiscount Hdrop Hraise.
  eapply same_ledger_trans; [apply isOnCooldown_world|].
  eapply same_ledger_trans; [|apply quiet_say].
  replace w1 with (snd (execute e channel tags args (snd (isOnCooldown name uid w))))
    by (by rewrite Hraise).
  apply execute_same_ledger.
  - by rewrite discount_issues_after_check.
  - by rewrite drop_creates_after_check.
Qed.

(** The per-user part, which no drop touches. *)
Lemma raise_same_entries e name channel tags args uid err text w w1 :
  e <> Own Discount \/ discount_issues tags w = false ->
  execute e channel tags args (snd (isOnCooldown name uid w)) = (Throw err, w1) ->
  same_entries w (snd (say channel text w1)).
Proof.
  intros Hdiscount Hraise.
  eapply same_entries_trans; [apply same_ledger_entries, isOnCooldown_world|].
  eapply same_entries_trans; [|apply same_ledger_entries, quiet_say].
  replace w1 with (snd (execute e channel tags args (snd (isOnCooldown name uid w))))
    by (by rewrite Hraise).
  apply execute_same_entries. by rewrite discount_issues_after_check.
Qed.

(** C5, amended. For every command invocation whose handler raises an
    exception, the exception is caught at the dispatch boundary: the
    dispatcher does nothing but send one generic failure reply, and the
    message handler completes normally when that reply is delivered. The
    dispatcher writes nothing to the ledger: cooldowns, claims and the
    time of the last global drop are as the handler left them when it
    raised. That is as they were before the invocation for every command
    other than discount and drop, for discount whenever the invocation
    did not reach a successful issuance, and for drop whenever it did not
    create a drop; the per-user cooldowns and the claims are as before
    also for a drop that was created. *)
Theorem handler_exception_is_contained
    (e : Entry) (name channel : string) (tags : Tags) (args : list string)
    (uid : string) (cd : Z) (err : Exn) (w w1 : World) :
  userId_of tags = Ok uid ->
  fst (isOnCooldown name uid w) = Ok cd ->
  (0 <? cd) && negb (String.eqb name "discount") = false ->
  execute e channel tags args (snd (isOnCooldown name uid w)) = (Throw err, w1) ->
  let text := failure_text (show_opt (name_of tags)) name in
  let final := dispatch e name channel tags args w in
  final = say channel text w1
  /\ new_events w1 (snd final) = [Said channel text (snd (next_say w1))]
  /\ (snd (next_say w1) = true -> fst final = Ok tt)
  /\ same_ledger w1 (snd final)
  /\ (e <> Own Discount \/ discount_issues tags w = false ->
      same_entries w (snd final)
      /\ (e <> Own Drop \/ drop_creates tags args w = false ->
          same_ledger w (snd final))).
Proof.
  intros Hu Hcd Hgo Hraise text final.
  assert (Hfinal : final = say channel text w1).
  { unfold final. rewrite (dispatch_run _ _ _ _ _ _ uid) by done.
    rewrite Hcd, Hgo. by apply (run_command_throw _ _ _ _ _ _ _ err). }
  split; [exact Hfinal|]. rewrite Hfinal.
  split; [apply say_events|]. split; [|split].
  - rewrite say_run. by intros ->.
  - apply quiet_say.
  - intros Hdiscount. split.
    + by apply (raise_same_entries e name channel tags args uid err).
    + intros Hdrop. by apply (raise_same_ledger e name channel tags args uid err).
Qed.

(** C1, amended. For every command invocation the dispatcher first reads
    the (command, user) cooldown; a command other than discount that is
    still on cooldown is answered with the wait message and its handler is
    not run. Otherwise the handler runs, and the cooldown of a command
    other than discount is committed only after the handler has returned,
    counted from the instant of the return, no other expiry being touched.
    When the handler raises, the dispatcher commits nothing: the (command,
    user) expiry is the same as before the invocation for every command
    other than discount, and for discount whenever the invocation did not
    reach a successful issuance. *)
Theorem cooldown_committed_after_execution
    (e : Entry) (name channel : string) (tags : Tags) (args : list string)
    (uid : string) (cd : Z) (w : World) :
  userId_of tags = Ok uid ->
  COMMANDS name = Some e ->
  fst (isOnCooldown name uid w) = Ok cd ->
  let u := show_opt (name_of tags) in
  let w0 := snd (isOnCooldown name uid w) in
  let final := dispatch e name channel tags args w in
  (0 < cd -> name <> "discount" ->
     final = say channel (cooldown_wait_text u cd name) w0
     /\ same_ledger w (snd final))
  /\ (cd <= 0 \/ name = "discount" ->
      (forall w1, execute e channel tags args w0 = (Ok tt, w1) -> name <> "discount" ->
         fst final = Ok tt
         /\ expiry (cooldowns (snd final)) name uid
            = now w1 + default DEFAULT_COOLDOWN_MS (COMMAND_COOLDOWNS name)
         /\ (forall c v, (c, v) <> (name, uid) ->
               expiry (cooldowns (snd final)) c v = expiry (cooldowns w1) c v))
      /\ (forall err w1, execute e channel tags args w0 = (Throw err, w1) ->
           final = say channel (failure_text u name) w1
           /\ (name <> "discount" \/ discount_issues tags w = false ->
               expiry (cooldowns (snd final)) name uid = expiry (cooldowns w) name uid))).
Proof.
  intros Hu Hcmd Hcd u w0 final.
  assert (Hrun := dispatch_run e name channel tags args w uid Hu).
  rewrite Hcd in Hrun. fold w0 final in Hrun. split.
  - intros Hpos Hname.
    assert (Hgate : (0 <? cd) && negb (String.eqb name "discount") = true).
    { apply andb_true_intro. split; [by apply Z.ltb_lt|].
      by destruct (String.eqb_spec name "discount"). }
    rewrite Hgate in Hrun. split; [exact Hrun|]. rewrite Hrun.
    eapply same_ledger_trans; [apply isOnCooldown_world|apply quiet_say].
  - intros Helig.
    assert (Hgate : (0 <? cd) && negb (String.eqb name "discount") = false).
    { destruct Helig as [Hle| ->]; [|by rewrite Bool.andb_false_r].
      by destruct (Z.ltb_spec 0 cd); [lia|]. }
    rewrite Hgate in Hrun. split.
    + intros w1 Hok Hname.
      rewrite (run_command_ok _ _ _ _ _ _ _ w1 Hok) in Hrun.
      destruct (String.eqb_spec name "discount") as [|_]; [done|].
      cbn [negb] in Hrun. rewrite Hrun. split; [by rewrite setCooldown_run|].
      split; [apply expiry_setCooldown|]. intros c v Hne.
      by apply expiry_setCooldown_other.
    + intros err w1 Hraise.
      rewrite (run_command_throw _ _ _ _ _ _ _ err w1 Hraise) in Hrun.
      split; [exact Hrun|]. intros Hwhich. rewrite Hrun.
      apply (raise_same_entries e name channel tags args uid err); [|exact Hraise].
      destruct Hwhich as [Hname|Hno]; [left|by right].
      intros ->. by apply COMMANDS_discount in Hcmd.
Qed.

(** Messages the handler drops without a reply, a handler run or a
    change of the world: its own, those without the prefix, those with
    nothing after it, and those whose command name finds nothing in
    [COMMANDS]. *)
Lemma on_message_ignores channel tags message self w :
  self = true
  \/ startsWith message COMMAND_PREFIX = false
  \/ trim (slice_from (String.length COMMAND_PREFIX) message) = EmptyString
  \/ COMMANDS (toLowerCase
                (default EmptyString
                   (head (split_ws (trim (slice_from (String.length COMMAND_PREFIX)
                                             message)))))) = None ->
  on_message channel tags message self w = (Ok tt, w).
Proof.
  unfold on_message. intros [->|[Hp|[He|Hc]]]; [done|..].
  - destruct self; [done|]. by rewrite Hp.
  - destruct self; [done|]. destruct (negb _); [done|]. by rewrite He.
  - destruct self; [done|]. destruct (negb _); [done|].
    destruct (_ =? 0)%nat; [done|]. by rewrite Hc.
Qed.

(** [COMMANDS] finds nothing exactly for the names that are neither one
    of the five commands nor a property every object inherits. *)
Lemma COMMANDS_none name :
  COMMANDS name = None <-> (name ∉ command_names) /\ inherited name = false.
Proof.
  unfold COMMANDS, command_names. split.
  - destruct (String.eqb_spec name "ping") as [->|?]; [done|].
    destruct (String.eqb_spec name "help") as [->|?]; [done|].
    destruct (String.eqb_spec name "discount") as [->|?]; [done|].
    destruct (String.eqb_spec name "drop") as [->|?]; [done|].
    destruct (String.eqb_spec name "reload") as [->|?]; [done|].
    destruct (inherited name); [done|]. intros _. split; [|done].
    rewrite !elem_of_cons, elem_of_nil. tauto.
  - intros [Hn Hi]. rewrite !elem_of_cons, elem_of_nil in Hn.
    destruct (String.eqb_spec name "ping") as [->|?]; [tauto|].
    destruct (String.eqb_spec name "help") as [->|?]; [tauto|].
    destruct (String.eqb_spec name "discount") as [->|?]; [tauto|].
    destruct (String.eqb_spec name "drop") as [->|?]; [tauto|].
    destruct (String.eqb_spec name "reload") as [->|?]; [tauto|].
    by rewrite Hi.
Qed.

End Containment.

(** The chat server rejects the [Pong]: the exception of the [ping]
    handler is replaced by the failure reply, the message handler completes
    and the ledger reads as before. *)
Lemma handler_exception_is_contained_witness :
  let final := @dispatch defaults (Own Ping) "ping" "#bob" alice [] deaf_world in
  userId_of alice = Ok "42"
  /\ fst (isOnCooldown "ping" "42" deaf_world) = Ok 0
  /\ fst (@execute defaults (Own Ping) "#bob" alice []
            (snd (isOnCooldown "ping" "42" deaf_world)))
     = Throw {| exn_message := "say"; exn_data := JUndefined |}
  /\ fst final = Ok tt
  /\ same_ledger deaf_world (snd final).
Proof.
  intros final.
  assert (H1 : userId_of alice = Ok "42") by reflexivity.
  assert (H2 : fst (isOnCooldown "ping" "42" deaf_world) = Ok 0) by reflexivity.
  destruct (@handler_exception_is_contained defaults (Own Ping) "ping" "#bob" alice []
              "42" 0 {| exn_message := "say"; exn_data := JUndefined |} deaf_world
              (snd (@execute defaults (Own Ping) "#bob" alice []
                      (snd (isOnCooldown "ping" "42" deaf_world))))
              H1 H2 eq_refl eq_refl)
    as (_ & _ & Hdone & _ & Hsame).
  split; [exact H1|]. split; [exact H2|]. split; [reflexivity|]. split.
  - apply Hdone. reflexivity.
  - apply Hsame; left; discriminate.
Defined.

(** The backend issues Alice's code and the chat server rejects the reply
    that carries it: the discount handler raises, the dispatcher replaces
    the exception by the failure reply, and the claim and the cooldown the
    handler had recorded stay. In the same way, the backend creates Bob's
    drop and the chat server rejects the reply that carries its code: the
    drop handler raises, and the drop time it had recorded stays. And when
    the chat server rejects both the [Pong] of Alice's [!ping] and the
    failure reply that follows, the second rejection leaves the message
    handler. *)
Lemma lost_reply_keeps_record :
  let final := @dispatch defaults (Own Discount) "discount" "#bob" alice []
                 lost_reply_world in
  let drop_final := @dispatch defaults (Own Drop) "drop" "#bob" bob ["10"]
                      lost_drop_reply_world in
  let deaf_twice := boot ∅ 1000000
                      {| says := [(0, false); (0, false)]; fetches := [];
                         axioses := []; joins := [] |} in
  (fst (@execute defaults (Own Discount) "#bob" alice []
          (snd (isOnCooldown "discount" "42" lost_reply_world)))
   = Throw {| exn_message := "say"; exn_data := JUndefined |}
   /\ fst final = Ok tt
   /\ claimedDiscounts lost_reply_world !! "#bob" ≫= (.!! "42") = None
   /\ claimedDiscounts (snd final) !! "#bob" ≫= (.!! "42")
      = Some {| code := JStr "DROP-ALICE-1234"; createdAt := 1000250 |}
   /\ expiry (cooldowns lost_reply_world) "discount" "42" = 0
   /\ expiry (cooldowns (snd final)) "discount" "42" = 1030250)
  /\ (fst (@execute defaults (Own Drop) "#bob" bob ["10"]
             (snd (isOnCooldown "drop" "7" lost_drop_reply_world)))
      = Throw {| exn_message := "say"; exn_data := JUndefined |}
      /\ fst drop_final = Ok tt
      /\ lastGlobalDropAt lost_drop_reply_world = 0
      /\ lastGlobalDropAt (snd drop_final) = 1000250
      /\ expiry (cooldowns (snd drop_final)) "drop" "7" = 0)
  /\ (fst (@on_message defaults "#bob" alice "!ping" false deaf_twice)
      = Throw {| exn_message := "say"; exn_data := JUndefined |}
      /\ new_events deaf_twice (snd (@on_message defaults "#bob" alice "!ping" false deaf_twice))
         = [Said "#bob" "Pong! 🏓 @Alice" false;
            Said "#bob" "@Alice something went wrong executing !ping." false]).
Proof. vm_compute. repeat split. Qed.

(** The chat server rejects the [Pong] of Alice's [!ping]: nothing is
    committed, her expiry for [ping] reads 0 as before. *)
Lemma cooldown_committed_after_execution_witness :
  let final := @dispatch defaults (Own Ping) "ping" "#bob" alice [] deaf_world in
  userId_of alice = Ok "42"
  /\ COMMANDS "ping" = Some (Own Ping)
  /\ fst (isOnCooldown "ping" "42" deaf_world) = Ok 0
  /\ final = say "#bob" (@failure_text defaults "Alice" "ping")
               (snd (@execute defaults (Own Ping) "#bob" alice []
                       (snd (isOnCooldown "ping" "42" deaf_world))))
  /\ expiry (cooldowns (snd final)) "ping" "42" = expiry (cooldowns deaf_world) "ping" "42".
Proof.
  intros final.
  assert (H1 : userId_of alice = Ok "42") by reflexivity.
  assert (H2 : COMMANDS "ping" = Some (Own Ping)) by reflexivity.
  assert (H3 : fst (isOnCooldown "ping" "42" deaf_world) = Ok 0) by reflexivity.
  destruct (@cooldown_committed_after_execution defaults (Own Ping) "ping" "#bob" alice []
              "42" 0 deaf_world H1 H2 H3) as (_ & Helig).
  destruct (Helig ltac:(left; lia)) as (_ & Hraise).
  destruct (Hraise {| exn_message := "say"; exn_data := JUndefined |}
              (snd (@execute defaults (Own Ping) "#bob" alice []
                      (snd (isOnCooldown "ping" "42" deaf_world)))) eq_refl)
    as (Hfinal & Hsame).
  split; [exact H1|]. split; [exact H2|]. split; [exact H3|]. split; [exact Hfinal|].
  apply Hsame. left. discriminate.
Defined.

(** Alice's [!discount] fails in her eyes, she is told that something
    went wrong, and yet her 30 seconds are running. *)
Lemma failed_discount_consumes_cooldown :
  let final := @on_message defaults "#bob" alice "!discount" false lost_reply_world in
  new_events lost_reply_world (snd final)
  = [ Said "#bob" "@Alice generating your personal discount code… ⏳" true;
      ViewerDiscountRequest "bob" (JStr "42") (JStr "alice") (JStr "Alice");
      Said "#bob" "🎁 @Alice your code: DROP-ALICE-1234 — valid for ~10 minutes!" false;
      Said "#bob" "@Alice something went wrong executing !discount." true ]
  /\ expiry (cooldowns lost_reply_world) "discount" "42" = 0
  /\ expiry (cooldowns (snd final)) "discount" "42" = 1030250.
Proof. vm_compute. repeat split. Qed.

(** A handler that answers an error and returns has, for the dispatcher,
    run: Bob's [!drop 0] gets the usage message, records no drop, and
    commits his 5 minutes for [drop]; his [!drop 10] a second later is told
    to wait. *)
Lemma usage_error_commits_cooldown :
  let w1 := snd (@on_message defaults "#bob" bob "!drop 0" false drop_world) in
  let w2 := later 1000 w1 in
  new_events drop_world w1 = [Said "#bob" "@Bob use: !drop <1-50> (example: !drop 10)" true]
  /\ lastGlobalDropAt w1 = 0
  /\ expiry (cooldowns w1) "drop" "7" = 1300000
  /\ new_events w2 (snd (@on_message defaults "#bob" bob "!drop 10" false w2))
     = [Said "#bob" "@Bob wait 299s before using !drop again." true].
Proof. vm_compute. repeat split. Qed.

(** When the chat server rejects the failure reply as well, that
    rejection leaves the message handler. *)
Lemma failure_reply_can_reject :
  let w := boot ∅ 1000000
             {| says := [(0, false); (0, false)]; fetches := [];
                axioses := []; joins := [] |} in
  fst (@on_message defaults "#bob" alice "!ping" false w)
  = Throw {| exn_message := "say"; exn_data := JUndefined |}.
Proof. reflexivity. Qed.

(** C7, at the input that breaks it. [constructor] is not a command, yet
    [COMMANDS["constructor"]] is the truthy [Object] every plain object
    inherits: the message [!constructor] is dispatched, calling its missing
    [execute] raises, and the chatter gets the failure reply. *)
Theorem inherited_name_is_dispatched :
  let w := boot ∅ 1000000 silent in
  let final := @on_message defaults "#bob" alice "!constructor" false w in
  ("constructor" ∉ command_names)
  /\ COMMANDS "constructor" = Some Proto
  /\ final = say "#bob" "@Alice something went wrong executing !constructor." w
  /\ new_events w (snd final)
     = [Said "#bob" "@Alice something went wrong executing !constructor." true].
Proof.
  split; [|by vm_compute].
  unfold command_names. rewrite !elem_of_cons, elem_of_nil.
  intros [H|[H|[H|[H|[H|[]]]]]]; discriminate H.
Qed.

(** ** The clients of the outside services *)

Lemma Qfloor_iff (x : Q) (k : Z) :
  Qfloor x = k <-> (inject_Z k <= x /\ x < inject_Z (k + 1))%Q.
Proof.
  split.
  - intros <-. split; [apply Qfloor_le|apply Qlt_floor].
  - intros [Hlo Hhi].
    pose proof (Qfloor_le x) as H1. pose proof (Qlt_floor x) as H2.
    assert (Ha : (inject_Z (Qfloor x) < inject_Z (k + 1))%Q) by lra.
    assert (Hb : (inject_Z k < inject_Z (Qfloor x + 1))%Q) by lra.
    rewrite <- Zlt_Qlt in Ha, Hb. lia.
Qed.

Lemma random_suffix_iff (r : Q) (k : Z) :
  random_suffix r = k
  <-> (inject_Z (k - 1000) / 9000 <= r /\ r < inject_Z (k - 999) / 9000)%Q.
Proof.
  unfold random_suffix. rewrite Qfloor_iff.
  assert (E1 : (inject_Z k == inject_Z (k - 1000) + 1000)%Q).
  { change 1000%Q with (inject_Z 1000). rewrite <- inject_Z_plus.
    replace (k - 1000 + 1000) with k by lia. reflexivity. }
  assert (E2 : (inject_Z (k + 1) == inject_Z (k - 999) + 1000)%Q).
  { change 1000%Q with (inject_Z 1000). rewrite <- inject_Z_plus.
    replace (k - 999 + 1000) with (k + 1) by lia. reflexivity. }
  assert (D1 : (inject_Z (k - 1000) == inject_Z (k - 1000) / 9000 * 9000)%Q) by (field; discriminate).
  assert (D2 : (inject_Z (k - 999) == inject_Z (k - 999) / 9000 * 9000)%Q) by (field; discriminate).
  set (q1 := (inject_Z (k - 1000) / 9000)%Q) in *.
  set (q2 := (inject_Z (k - 999) / 9000)%Q) in *.
  split; intros [H1 H2]; split; lra.
Qed.

Lemma random_suffix_range (r : Q) :
  (0 <= r)%Q -> (r < 1)%Q -> 1000 <= random_suffix r <= 9999.
Proof.
  intros H0 H1. unfold random_suffix.
  pose proof (Qfloor_le (1000 + r * 9000)) as Hlo.
  pose proof (Qlt_floor (1000 + r * 9000)) as Hhi.
  set (n := Qfloor (1000 + r * 9000)) in *.
  assert (Ha : (inject_Z 1000 < inject_Z (n + 1))%Q).
  { change (inject_Z 1000) with 1000%Q. lra. }
  assert (Hb : (inject_Z n < inject_Z 10000)%Q).
  { change (inject_Z 10000) with 10000%Q. lra. }
  rewrite <- Zlt_Qlt in Ha. rewrite <- Zlt_Qlt in Hb. clearbody n. lia.
Qed.

Lemma show_Z_four n :
  1000 <= n <= 9999 ->
  show_Z n = String (digit_char (n / 10 / 10 / 10 mod 10))
               (String (digit_char (n / 10 / 10 mod 10))
                  (String (digit_char (n / 10 mod 10))
                     (String (digit_char (n mod 10)) EmptyString))).
Proof.
  intros Hn. unfold show_Z.
  destruct (Z.ltb_spec n 0); [lia|]. rewrite Z.abs_eq by lia.
  assert (Hlog : 9 <= Z.log2 n) by (apply Z.log2_le_pow2; lia).
  destruct (Z.to_nat (Z.log2 n)) as [|[|[|f]]] eqn:Hf; try lia.
  cbn [show_digits].
  assert (H1 : (n <? 10) = false) by (apply Z.ltb_ge; lia).
  assert (H2 : (n / 10 <? 10) = false)
    by (apply Z.ltb_ge, Z.div_le_lower_bound; lia).
  assert (H3 : (n / 10 / 10 <? 10) = false)
    by (apply Z.ltb_ge; rewrite Z.div_div by lia; apply Z.div_le_lower_bound; lia).
  assert (H4 : (n / 10 / 10 / 10 <? 10) = true)
    by (apply Z.ltb_lt; rewrite !Z.div_div by lia; apply Z.div_lt_upper_bound; lia).
  by rewrite H1, H2, H3, H4.
Qed.

Lemma upper_of_alnum c :
  is_alnum c = true -> is_digit (upper_char c) || is_upper (upper_char c) = true.
Proof. destruct c as [[] [] [] [] [] [] [] []]; vm_compute; congruence. Qed.

Lemma toUpperCase_alnum s :
  forall_string is_alnum s = true ->
  forall_string (fun c => is_digit c || is_upper c) (toUpperCase s) = true.
Proof.
  induction s as [|c s IH]; [done|]. cbn [forall_string toUpperCase map_string].
  intros [Hc Hs]%andb_prop. apply andb_true_intro. split.
  - by apply upper_of_alnum.
  - by apply IH.
Qed.

Lemma map_string_length f s : String.length (map_string f s) = String.length s.
Proof. induction s as [|c s IH]; [done|]. cbn [map_string String.length]. by rewrite IH. Qed.

Lemma map_string_get f s : forall i,
  String.get i (map_string f s) = option_map f (String.get i s).
Proof.
  induction s as [|c s IH]; intros i; [done|].
  cbn [map_string String.get]. destruct i; [done|apply IH].
Qed.

Lemma mod10_digit n : is_digit (digit_char (n mod 10)) = true.
Proof. apply digit_char_is_digit, Z.mod_pos_bound. lia. Qed.

Lemma digit_char_code d :
  0 <= d < 10 -> Z.of_N (Ascii.N_of_ascii (digit_char d)) = 48 + d.
Proof.
  intros H. assert (Hd : d = 0 \/ d = 1 \/ d = 2 \/ d = 3 \/ d = 4 \/ d = 5 \/ d = 6
                       \/ d = 7 \/ d = 8 \/ d = 9) by lia.
  by destruct Hd as [->|[->|[->|[->|[->|[->|[->|[->|[->| ->]]]]]]]]].
Qed.

Lemma four_digits_value n :
  1000 <= n <= 9999 ->
  1000 * (n / 10 / 10 / 10 mod 10) + 100 * (n / 10 / 10 mod 10)
  + 10 * (n / 10 mod 10) + n mod 10 = n.
Proof. intros Hn. Z.div_mod_to_equations. lia. Qed.

(** Four digit characters are determined by the number they read. *)
Lemma four_digits_read d1 d2 d3 d4 k1 k2 k3 k4 :
  48 <= Z.of_N (Ascii.N_of_ascii d1) <= 57 -> 48 <= Z.of_N (Ascii.N_of_ascii d2) <= 57 ->
  48 <= Z.of_N (Ascii.N_of_ascii d3) <= 57 -> 48 <= Z.of_N (Ascii.N_of_ascii d4) <= 57 ->
  0 <= k1 < 10 -> 0 <= k2 < 10 -> 0 <= k3 < 10 -> 0 <= k4 < 10 ->
  1000 * (Z.of_N (Ascii.N_of_ascii d1) - 48) + 100 * (Z.of_N (Ascii.N_of_ascii d2) - 48)
  + 10 * (Z.of_N (Ascii.N_of_ascii d3) - 48) + (Z.of_N (Ascii.N_of_ascii d4) - 48)
  = 1000 * k1 + 100 * k2 + 10 * k3 + k4 ->
  String d1 (String d2 (String d3 (String d4 EmptyString)))
  = String (digit_char k1) (String (digit_char k2)
      (String (digit_char k3) (String (digit_char k4) EmptyString))).
Proof.
  intros B1 B2 B3 B4 K1 K2 K3 K4 Hval.
  assert (Hd : forall d k, 0 <= k < 10 -> Z.of_N (Ascii.N_of_ascii d) = 48 + k ->
                           d = digit_char k).
  { intros d k Hk E. unfold digit_char.
    rewrite <- (Ascii.ascii_N_embedding d). f_equal. lia. }
  rewrite (Hd d1 k1), (Hd d2 k2), (Hd d3 k3), (Hd d4 k4) by (done || lia). done.
Qed.



(** Once the headers of a 502 are in, the connection drops while the body
    is read: [res.text()] rejects and so does [requestViewerDiscount]. *)
Lemma unreadable_body_propagates :
  fst (requestViewerDiscount "bob"
         {| viewer_id := "42"; viewer_login := Some "alice"; viewer_name := Some "Alice" |}
         cut_world)
  = Throw {| exn_message := "Premature close"; exn_data := JUndefined |}.
Proof. reflexivity. Qed.

(** C10, amended. [requestViewerDiscount] returns a result whenever the
    body of the response can be read, and a rejection of [res.text()] is
    all it lets through: when [fetch] itself rejects it returns
    [{ok: false, reason: "network_error"}]; when the body is not parseable
    JSON it returns [ok: false] with reason [not_found] exactly when the
    status is 404 and [http_error] otherwise; when the body parses as a
    JSON object it returns that object with [httpStatus] set to the
    status, whatever the status, every other property as received. *)
Theorem requestViewerDiscount_outcomes (login : string) (viewer : Viewer) (w : World) :
  let run := requestViewerDiscount login viewer w in
  let out := snd (next_fetch w) in
  (forall why,
     out = FetchRejects why ->
     fst run = Ok (JObj [ ("ok", JBool false); ("reason", JStr "network_error");
                          ("message", JStr "Failed to reach Dropify API.");
                          ("error", JStr why) ]))
  /\ (forall res raw,
        out = FetchResolves res -> body res = Readable raw None ->
        fst run
        = Ok (JObj [ ("ok", JBool false);
                     ("reason", JStr (if status res =? 404 then "not_found"
                                      else "http_error"));
                     ("message", JStr ("Dropify API returned HTTP "
                                       +:+ show_Z (status res)));
                     ("httpStatus", JNum (status res));
                     ("raw", JStr (slice_to 500 raw)) ]))
  /\ (forall res raw kvs,
        out = FetchResolves res -> body res = Readable raw (Some (JObj kvs)) ->
        let result := JObj (assoc_set "httpStatus" (JNum (status res)) kvs) in
        fst run = Ok result
        /\ opt_prop result "httpStatus" = JNum (status res)
        /\ (forall k, String.eqb k "httpStatus" = false ->
                      opt_prop result k = opt_prop (JObj kvs) k))
  /\ (forall res why,
        out = FetchResolves res -> body res = Unreadable why ->
        fst run = Throw {| exn_message := why; exn_data := JUndefined |})
  /\ ((forall res why, out = FetchResolves res -> body res <> Unreadable why) ->
      exists result, fst run = Ok result).
Proof.
  intros run out. unfold run, out, requestViewerDiscount, bind, fetch, lift, readJsonOrText.
  cbn [fst snd]. split; [|split; [|split; [|split]]].
  - by intros why ->.
  - intros res raw -> ->. by destruct (includes _ _).
  - intros res raw kvs -> ->. cbv zeta. split; [by destruct (includes _ _)|]. split.
    + cbn [opt_prop]. by rewrite assoc_get_set_eq.
    + intros k Hk. cbn [opt_prop]. by rewrite assoc_get_set_ne.
  - by intros res why -> ->.
  - intros Hreadable. destruct (snd (next_fetch w)) as [why|res]; [by eexists|].
    specialize (Hreadable res). cbn [fst snd].
    destruct (body res) as [why|raw [data|]].
    + by destruct (Hreadable why).
    + destruct (includes _ _); cbn [fst snd];
        destruct (truthy data && is_object data); by eexists.
    + destruct (includes _ _); by eexists.
Qed.

(** On a fresh process with no backend in reach the request comes back as
    a network error. *)
Lemma requestViewerDiscount_outcomes_witness :
  exists result,
    fst (requestViewerDiscount "bob"
           {| viewer_id := "42"; viewer_login := Some "alice"; viewer_name := Some "Alice" |}
           (boot ∅ 1000000 silent)) = Ok result
    /\ opt_prop result "reason" = JStr "network_error".
Proof.
  destruct (requestViewerDiscount_outcomes "bob"
              {| viewer_id := "42"; viewer_login := Some "alice";
                 viewer_name := Some "Alice" |}
              (boot ∅ 1000000 silent)) as (Hnet & _).
  eexists. split; [exact (Hnet "unreachable" eq_refl)|reflexivity].
Defined.

(** * Further properties of the code *)

(** ** The ledger *)

(** X1. [setCooldown] overwrites: a second call for the same command and
    user, [dt] milliseconds after a first one, leaves the expiry at the
    instant of the second call plus its duration, whatever the first
    duration was. No other (command, user) pair moves, and the claims, the
    global drop time and the trace stay as they were. *)
Theorem setCooldown_overwrites (command userId : string) (ms1 ms2 dt : Z) (w : World) :
  let w1 := later dt (snd (setCooldown command userId ms1 w)) in
  let w2 := snd (setCooldown command userId ms2 w1) in
  expiry (cooldowns w2) command userId = now w + dt + ms2
  /\ (forall c u, (c, u) <> (command, userId) ->
        expiry (cooldowns w2) c u = expiry (cooldowns w) c u)
  /\ claimedDiscounts w2 = claimedDiscounts w
  /\ lastGlobalDropAt w2 = lastGlobalDropAt w
  /\ trace w2 = trace w.
Proof.
  intros w1 w2. split; [|split; [|split; [|split]]].
  - unfold w2. rewrite expiry_setCooldown. unfold w1.
    change (now (later dt ?x)) with (now x + dt). by rewrite now_setCooldown.
  - intros c u Hne. unfold w2. rewrite expiry_setCooldown_other by done.
    unfold w1. change (cooldowns (later dt ?x)) with (cooldowns x).
    by apply expiry_setCooldown_other.
  - unfold w2, w1. by rewrite !setCooldown_run.
  - unfold w2, w1. by rewrite !setCooldown_run.
  - unfold w2, w1. by rewrite !setCooldown_run.
Qed.

(** X2. The claim cache reads back what was written: right after
    [setUserDiscount] the same channel and user get the code with the
    instant of the call; a second write replaces code and instant; every
    other (channel, user) pair reads what it read before; a pair never
    written reads [null]; and writing a claim touches neither the
    cooldowns nor the global drop time. *)
Theorem claim_cache_round_trip (channel userId : string) (c1 c2 : JValue) (dt : Z)
    (w : World) :
  let w1 := snd (setUserDiscount channel userId c1 w) in
  let w2 := snd (setUserDiscount channel userId c2 (later dt w1)) in
  getUserDiscount channel userId w1 = (Ok (Some {| code := c1; createdAt := now w |}), w1)
  /\ getUserDiscount channel userId w2
     = (Ok (Some {| code := c2; createdAt := now w + dt |}), w2)
  /\ (forall ch u, (ch, u) <> (channel, userId) ->
        getUserDiscount ch u w1 = (fst (getUserDiscount ch u w), w1))
  /\ (claimedDiscounts w !! channel ≫= (.!! userId) = None ->
        getUserDiscount channel userId w = (Ok None, w))
  /\ cooldowns w1 = cooldowns w /\ lastGlobalDropAt w1 = lastGlobalDropAt w.
Proof.
  intros w1 w2.
  assert (Hset : forall c v,
            claimedDiscounts (snd (setUserDiscount channel userId c v)) !! channel
              ≫= (.!! userId) = Some {| code := c; createdAt := now v |}).
  { intros c v. rewrite setUserDiscount_run. cbn [snd claimedDiscounts with_claims].
    rewrite lookup_insert_eq. cbn [mbind option_bind]. by rewrite lookup_insert_eq. }
  assert (Hnow : forall c v, now (snd (setUserDiscount channel userId c v)) = now v)
    by (intros; by rewrite setUserDiscount_run).
  split; [|split; [|split; [|split]]].
  - rewrite getUserDiscount_run. unfold w1. rewrite Hset, Hnow. cbn [createdAt].
    rewrite Z.sub_diag. reflexivity.
  - rewrite getUserDiscount_run. unfold w2. rewrite Hset, Hnow. cbn [createdAt].
    rewrite Z.sub_diag. unfold w1. change (now (later dt ?x)) with (now x + dt).
    by rewrite Hnow.
  - intros ch u Hne. rewrite !getUserDiscount_run. cbn [fst].
    assert (Hsame : claimedDiscounts w1 !! ch ≫= (.!! u)
                    = claimedDiscounts w !! ch ≫= (.!! u)).
    { unfold w1. rewrite setUserDiscount_run. cbn [snd claimedDiscounts with_claims].
      destruct (decide (ch = channel)) as [->|Hc].
      - rewrite lookup_insert_eq. cbn [mbind option_bind].
        rewrite lookup_insert_ne by congruence.
        by destruct (claimedDiscounts w !! channel).
      - by rewrite lookup_insert_ne. }
    rewrite Hsame. unfold w1. by rewrite Hnow.
  - intros Hnone. by rewrite getUserDiscount_run, Hnone.
  - unfold w1. by rewrite setUserDiscount_run.
Qed.

(** X3. The seconds [isOnCooldown] reports are the remaining time rounded
    up to whole seconds: it always returns, the answer is [0] exactly when
    nothing remains, and a positive answer [cd] never understates the wait
    and overstates it by less than a second. *)
Theorem wait_is_remaining_rounded_up (command userId : string) (w : World) :
  let remaining := expiry (cooldowns w) command userId - now w in
  exists cd,
    fst (isOnCooldown command userId w) = Ok cd
    /\ (cd = 0 <-> remaining <= 0)
    /\ (0 < cd -> 1000 * (cd - 1) < remaining <= 1000 * cd).
Proof.
  intros remaining. rewrite isOnCooldown_value. eexists. split; [reflexivity|].
  unfold remaining.
  destruct (Z.ltb_spec (now w) (expiry (cooldowns w) command userId)) as [Hlt|Hge].
  - set (d := expiry (cooldowns w) command userId - now w) in *.
    assert (Hd : 0 < d) by (unfold d; lia).
    pose proof (ceil_div_pos d 1000 Hd ltac:(lia)) as Hpos.
    unfold ceil_div in *.
    pose proof (Z.div_mod (- d) 1000 ltac:(lia)) as Hdm.
    pose proof (Z.mod_pos_bound (- d) 1000 ltac:(lia)) as Hm.
    split; [lia|]. intros _. lia.
  - split; [lia|]. lia.
Qed.

(** ** Reading a command out of a message *)

(** *** Text *)

Lemma append_cons c l s : String c l +:+ s = String c (l +:+ s).
Proof. reflexivity. Qed.

Lemma append_empty s : s +:+ EmptyString = s.
Proof. induction s as [|c s IH]; [done|]. by rewrite append_cons, IH. Qed.

Lemma append_assoc a b c : (a +:+ b) +:+ c = a +:+ b +:+ c.
Proof. induction a as [|d a IH]; [done|]. by rewrite !append_cons, IH. Qed.

Lemma append_assoc_cons cur c s : (cur +:+ String c EmptyString) +:+ s = cur +:+ String c s.
Proof. by rewrite append_assoc. Qed.

Lemma is_empty_app a b : is_empty b = false -> is_empty (a +:+ b) = false.
Proof. by destruct a. Qed.

Lemma startsWith_app p s : startsWith (p +:+ s) p = true.
Proof.
  unfold startsWith. induction p as [|c p IH]; simpl.
  - by destruct s.
  - destruct (ascii_dec c c); [exact IH|done].
Qed.

Lemma prefix_inv p s : String.prefix p s = true -> exists rest, s = p +:+ rest.
Proof.
  revert s. induction p as [|c p IH]; intros s H; [by exists s|].
  destruct s as [|d s]; [done|]. simpl in H.
  destruct (ascii_dec c d) as [->|]; [|done].
  destruct (IH s H) as [rest ->]. by exists rest.
Qed.

Lemma slice_from_app p s : slice_from (String.length p) (p +:+ s) = s.
Proof. induction p as [|c p IH]; [done|apply IH]. Qed.

(** Two ways of cutting one text. *)
Lemma append_eq_append p x t y :
  p +:+ x = t +:+ y ->
  (exists m, t = p +:+ m /\ x = m +:+ y)
  \/ (exists m, m <> EmptyString /\ p = t +:+ m /\ y = m +:+ x).
Proof.
  revert t. induction p as [|c p IH]; intros t H.
  - left. by exists t.
  - destruct t as [|d t].
    + right. exists (String c p). by split.
    + rewrite !append_cons in H. injection H as <- H.
      destruct (IH t H) as [(m & -> & ->)|(m & Hm & -> & ->)].
      * left. by exists m.
      * right. by exists m.
Qed.

(** *** White space *)

(** What the list of white-space characters is checked for once: no
    character is empty, a letter or the beginning of another one; each
    begins with a byte that continues nothing and goes on with bytes that
    do. *)
Lemma white_space_shape :
  Forall (fun p =>
            match p with
            | EmptyString => False
            | String a r =>
                is_cont a = false /\ forall_string is_cont r = true
                /\ forall_string (fun c => negb (is_upper c) && negb (is_lower c)) p = true
            end
            /\ Forall (fun q => String.prefix p q = true -> p = q) white_space)
    white_space.
Proof.
  repeat constructor; try (intros H; vm_compute in H; first [discriminate H | reflexivity]).
Qed.

Lemma white_space_lead p :
  In p white_space ->
  exists a r, p = String a r /\ is_cont a = false /\ forall_string is_cont r = true.
Proof.
  intros Hin. pose proof white_space_shape as H. rewrite Forall_forall in H.
  apply list_elem_of_In, H in Hin as [Hp _]. destruct p as [|a r]; [done|].
  exists a, r. tauto.
Qed.

Lemma white_space_no_letter p :
  In p white_space ->
  forall_string (fun c => negb (is_upper c) && negb (is_lower c)) p = true.
Proof.
  intros Hin. pose proof white_space_shape as H. rewrite Forall_forall in H.
  apply list_elem_of_In, H in Hin as [Hp _]. destruct p as [|a r]; [done|]. tauto.
Qed.

Lemma white_space_prefix_free p q :
  In p white_space -> In q white_space -> String.prefix p q = true -> p = q.
Proof.
  intros Hp Hq. pose proof white_space_shape as H. rewrite Forall_forall in H.
  apply list_elem_of_In, H in Hp as [_ Hp]. rewrite Forall_forall in Hp.
  apply Hp. by apply list_elem_of_In.
Qed.

Lemma space_width_found s k :
  space_width s = S k ->
  exists p rest, In p white_space /\ s = p +:+ rest /\ String.length p = S k.
Proof.
  unfold space_width. destruct (List.find _ _) as [p|] eqn:Hf; [|done].
  apply find_some in Hf as [Hin Hpre]. intros Hk.
  destruct (prefix_inv _ _ Hpre) as [rest ->]. by exists p, rest.
Qed.

Lemma space_width_here p rest :
  In p white_space -> space_width (p +:+ rest) = String.length p.
Proof.
  intros Hin. unfold space_width.
  destruct (List.find _ _) as [q|] eqn:Hf.
  - apply find_some in Hf as [Hq Hpre]. f_equal.
    destruct (prefix_inv _ _ Hpre) as [x Hx].
    destruct (append_eq_append _ _ _ _ Hx) as [(m & -> & _)|(m & _ & -> & _)].
    + symmetry. apply white_space_prefix_free; [done|done|apply startsWith_app].
    + apply white_space_prefix_free; [done|done|apply startsWith_app].
  - apply (find_none _ _ Hf) in Hin. by rewrite (startsWith_app p rest : String.prefix _ _ = _) in Hin.
Qed.

Lemma space_width_none s :
  space_width s = 0%nat <-> forall p, In p white_space -> String.prefix p s = false.
Proof.
  unfold space_width. split.
  - destruct (List.find _ _) as [q|] eqn:Hf.
    + apply find_some in Hf as [Hq _]. destruct (white_space_lead q Hq) as (a & r & -> & _).
      done.
    + intros _ p Hp. by apply (find_none _ _ Hf).
  - intros H. destruct (List.find _ _) as [q|] eqn:Hf; [|done].
    apply find_some in Hf as [Hq Hpre]. by rewrite H in Hpre.
Qed.

Lemma space_width_cont c r : is_cont c = true -> space_width (String c r) = 0%nat.
Proof.
  intros Hc. apply space_width_none. intros p Hp.
  destruct (white_space_lead p Hp) as (a & q & -> & Ha & _). simpl.
  destruct (ascii_dec a c) as [->|]; [congruence|done].
Qed.

(** A text without white space at its head has none there when more text
    follows, as long as that text begins a character. *)
Lemma space_width_app t b :
  space_width t = 0%nat -> t <> EmptyString -> starts_clean b = true ->
  space_width (t +:+ b) = 0%nat.
Proof.
  intros Ht Hne Hb. apply space_width_none. intros p Hp.
  destruct (String.prefix p (t +:+ b)) eqn:Hpre; [|done]. exfalso.
  destruct (prefix_inv _ _ Hpre) as [x Hx]. symmetry in Hx.
  destruct (append_eq_append _ _ _ _ Hx) as [(m & -> & _)|(m & Hm & -> & ->)].
  - rewrite space_width_here in Ht by done.
    destruct (white_space_lead p Hp) as (a & r & -> & _). done.
  - destruct (white_space_lead _ Hp) as (a & r & Heq & _ & Hr).
    destruct t as [|c t]; [done|]. rewrite append_cons in Heq. injection Heq as <- <-.
    destruct m as [|d m]; [done|].
    assert (Hd : is_cont d = true).
    { clear -Hr. induction t as [|e t IH]; cbn [String.append forall_string] in Hr.
      - by apply andb_prop in Hr as [? _].
      - apply andb_prop in Hr as [_ Hr]. by apply IH. }
    rewrite append_cons in Hb. cbn [starts_clean] in Hb. by rewrite Hd in Hb.
Qed.

(** *** [trimStart] *)

Lemma skip_spaces_pass k q s :
  String.length q = k -> skip_spaces k (q +:+ s) = skip_spaces 0 s.
Proof.
  revert k. induction q as [|c q IH]; intros k Hk; cbn [String.length] in Hk; subst k.
  - done.
  - rewrite append_cons. cbn [skip_spaces]. by apply IH.
Qed.

Lemma trimStart_space p s : In p white_space -> trimStart (p +:+ s) = trimStart s.
Proof.
  intros Hp. unfold trimStart.
  pose proof (space_width_here p s Hp) as Hw.
  destruct (white_space_lead p Hp) as (a & r & -> & _).
  rewrite append_cons in *. cbn [skip_spaces]. rewrite Hw. cbn [String.length].
  by apply skip_spaces_pass.
Qed.

Lemma trimStart_none s : space_width s = 0%nat -> trimStart s = s.
Proof. intros H. unfold trimStart. destruct s as [|c s]; [done|]. cbn [skip_spaces]. by rewrite H. Qed.

Lemma trimStart_spaces l s : spaces l -> trimStart (l +:+ s) = trimStart s.
Proof.
  induction 1 as [|p l Hp Hl IH]; [done|]. by rewrite append_assoc, trimStart_space.
Qed.

Lemma spaces_all_space l : spaces l -> all_space l = true.
Proof.
  intros H. unfold all_space. rewrite <- (append_empty l). by rewrite trimStart_spaces.
Qed.

Lemma trimStart_cases s :
  (space_width s = 0%nat /\ trimStart s = s)
  \/ exists p rest, In p white_space /\ s = p +:+ rest /\ trimStart s = trimStart rest.
Proof.
  destruct (space_width s) as [|k] eqn:Hw.
  - left. split; [done|by apply trimStart_none].
  - right. destruct (space_width_found s k Hw) as (p & rest & Hp & -> & _).
    exists p, rest. split; [done|]. split; [done|]. by apply trimStart_space.
Qed.

Lemma string_length_app a b : String.length (a +:+ b) = (String.length a + String.length b)%nat.
Proof. induction a as [|c a IH]; [done|]. rewrite append_cons. cbn [String.length]. by rewrite IH. Qed.

(** Induction on a text by the white-space character at its head. *)
Lemma by_leading_space (P : string -> Prop) :
  (forall s, space_width s = 0%nat -> P s) ->
  (forall p rest, In p white_space -> P rest -> P (p +:+ rest)) ->
  forall s, P s.
Proof.
  intros H0 Hs s.
  remember (String.length s) as n eqn:Hn. revert s Hn.
  induction n as [n IH] using lt_wf_ind. intros s ->.
  destruct (trimStart_cases s) as [[Hw _]|(p & rest & Hp & -> & _)]; [by apply H0|].
  apply Hs; [done|]. apply (IH (String.length rest)); [|done].
  rewrite string_length_app. destruct (white_space_lead p Hp) as (a & r & -> & _).
  cbn [String.length]. lia.
Qed.

Lemma all_space_spaces l : all_space l = true -> spaces l.
Proof.
  unfold all_space. induction l as [s Hw|p rest Hp IH] using by_leading_space.
  - rewrite trimStart_none by done. destruct s; [constructor|done].
  - rewrite trimStart_space by done. intros H. by constructor; [|apply IH].
Qed.

Lemma trimStart_done s : space_width (trimStart s) = 0%nat.
Proof.
  induction s as [s Hw|p rest Hp IH] using by_leading_space.
  - by rewrite trimStart_none.
  - by rewrite trimStart_space.
Qed.

Lemma spaces_app a b : spaces a -> spaces b -> spaces (a +:+ b).
Proof.
  induction 1 as [|p a Hp Ha IH]; [done|]. intros Hb. rewrite append_assoc.
  constructor; [done|by apply IH].
Qed.

Lemma spaces_starts_clean r : spaces r -> starts_clean r = true.
Proof.
  intros [|p s Hp _]; [done|]. destruct (white_space_lead p Hp) as (a & q & -> & Ha & _).
  rewrite append_cons. cbn [starts_clean]. by rewrite Ha.
Qed.

Lemma spaces_starts_clean_app sp x :
  spaces sp -> sp <> EmptyString -> starts_clean (sp +:+ x) = true.
Proof.
  intros [|p s Hp _] Hne; [done|]. destruct (white_space_lead p Hp) as (a & q & -> & Ha & _).
  rewrite !append_cons. cbn [starts_clean]. by rewrite Ha.
Qed.

(** *** [trimEnd] and [trim] *)

Lemma no_space_head c r : no_space (String c r) = true -> space_width (String c r) = 0%nat.
Proof. cbn [no_space]. intros [H _]%andb_prop. by apply Nat.eqb_eq in H. Qed.

Lemma no_space_tail c r : no_space (String c r) = true -> no_space r = true.
Proof. cbn [no_space]. by intros [_ H]%andb_prop. Qed.

Lemma not_all_space s : space_width s = 0%nat -> s <> EmptyString -> all_space s = false.
Proof. intros Hw Hne. unfold all_space. rewrite trimStart_none by done. by destruct s. Qed.

Lemma trimEnd_spaces r : spaces r -> trimEnd r = EmptyString.
Proof. intros H. destruct r as [|c r]; [done|]. cbn [trimEnd]. by rewrite spaces_all_space. Qed.

(** A word followed by white space. *)
Lemma trimEnd_word name r :
  no_space name = true -> spaces r -> trimEnd (name +:+ r) = name.
Proof.
  intros Hn Hr. induction name as [|c name IH]; [by apply trimEnd_spaces|].
  rewrite append_cons. cbn [trimEnd]. rewrite <- append_cons.
  rewrite not_all_space.
  - rewrite IH; [done|by eapply no_space_tail].
  - apply space_width_app; [by apply no_space_head|done|by apply spaces_starts_clean].
  - done.
Qed.

(** Bytes that continue a character are kept with what follows them. *)
Lemma trimEnd_cont q x :
  forall_string is_cont q = true -> trimEnd (q +:+ x) = q +:+ trimEnd x.
Proof.
  induction q as [|c q IH]; [done|]. cbn [forall_string]. intros [Hc Hq]%andb_prop.
  rewrite !append_cons. cbn [trimEnd]. rewrite <- append_cons.
  rewrite not_all_space; [by rewrite IH|by apply space_width_cont|done].
Qed.

(** White space followed by text that begins with none is kept. *)
Lemma trimEnd_inner sp b :
  spaces sp -> space_width b = 0%nat -> b <> EmptyString ->
  trimEnd (sp +:+ b) = sp +:+ trimEnd b.
Proof.
  intros Hsp Hb Hne. induction Hsp as [|p s Hp Hs IH]; [done|].
  rewrite append_assoc.
  destruct (white_space_lead p Hp) as (a & q & -> & _ & Hq).
  rewrite !append_cons. cbn [trimEnd]. rewrite <- append_cons.
  assert (Hno : all_space (String a q +:+ s +:+ b) = false).
  { unfold all_space. rewrite trimStart_space, trimStart_spaces by done.
    rewrite trimStart_none by done. by destruct b. }
  rewrite Hno, trimEnd_cont, IH by done. by rewrite append_assoc.
Qed.

(** A word followed by text that begins a character and does not end in
    white space alone. *)
Lemma trimEnd_after_word name b :
  no_space name = true -> starts_clean b = true -> is_empty (trimEnd b) = false ->
  trimEnd (name +:+ b) = name +:+ trimEnd b.
Proof.
  intros Hn Hb Hne. induction name as [|c name IH]; [done|].
  rewrite !append_cons. cbn [trimEnd]. rewrite <- append_cons.
  rewrite not_all_space.
  - rewrite IH; [done|by eapply no_space_tail].
  - apply space_width_app; [by apply no_space_head|done|done].
  - done.
Qed.

Lemma trim_word l name r :
  spaces l -> spaces r -> no_space name = true -> name <> EmptyString ->
  trim (l +:+ name +:+ r) = name.
Proof.
  intros Hl Hr Hn Hne. unfold trim. rewrite trimStart_spaces by done.
  destruct name as [|c name]; [done|].
  rewrite trimStart_none.
  - by apply trimEnd_word.
  - apply space_width_app; [by apply no_space_head|done|by apply spaces_starts_clean].
Qed.

Lemma trim_two_words l name sp arg r :
  spaces l -> spaces r -> spaces sp -> sp <> EmptyString ->
  no_space name = true -> name <> EmptyString ->
  no_space arg = true -> arg <> EmptyString ->
  trim (l +:+ name +:+ sp +:+ arg +:+ r) = name +:+ sp +:+ arg.
Proof.
  intros Hl Hr Hsp Hspne Hn Hne Ha Hane. unfold trim. rewrite trimStart_spaces by done.
  assert (Harg : trimEnd (arg +:+ r) = arg) by (by apply trimEnd_word).
  assert (Hw : space_width (arg +:+ r) = 0%nat).
  { destruct arg as [|c arg]; [done|].
    apply space_width_app; [by apply no_space_head|done|by apply spaces_starts_clean]. }
  assert (Hin : trimEnd (sp +:+ arg +:+ r) = sp +:+ arg).
  { rewrite trimEnd_inner; [by rewrite Harg|done|done|by destruct arg]. }
  rewrite trimStart_none.
  - rewrite trimEnd_after_word; [by rewrite Hin|done|by apply spaces_starts_clean_app|].
    rewrite Hin. destruct sp; [done|done].
  - destruct name as [|c name]; [done|].
    apply space_width_app; [by apply no_space_head|done|by apply spaces_starts_clean_app].
Qed.

Lemma trimEnd_split s : exists x, s = trimEnd s +:+ x /\ spaces x.
Proof.
  induction s as [|c s (x & Hx & Hs)]; [exists EmptyString; split; [done|constructor]|].
  cbn [trimEnd]. destruct (all_space (String c s)) eqn:E.
  - exists (String c s). split; [done|by apply all_space_spaces].
  - exists x. split; [|done]. rewrite append_cons. by rewrite <- Hx.
Qed.

Lemma trimEnd_idem s : trimEnd (trimEnd s) = trimEnd s.
Proof.
  induction s as [|c s IH]; [done|]. cbn [trimEnd].
  destruct (all_space (String c s)) eqn:E; [done|]. cbn [trimEnd].
  destruct (all_space (String c (trimEnd s))) eqn:E'; [|by rewrite IH].
  destruct (trimEnd_split s) as (x & Hx & Hs).
  apply all_space_spaces in E'.
  pose proof (spaces_app _ _ E' Hs) as H. rewrite append_cons, <- Hx in H.
  apply spaces_all_space in H. congruence.
Qed.

Lemma space_width_prefix v x : v <> EmptyString -> space_width (v +:+ x) = 0%nat -> space_width v = 0%nat.
Proof.
  intros Hne H. destruct (space_width v) as [|k] eqn:Hv; [done|].
  destruct (space_width_found v k Hv) as (p & rest & Hp & -> & Hk).
  rewrite append_assoc, space_width_here in H by done. lia.
Qed.

Lemma trim_idem s : trim (trim s) = trim s.
Proof.
  unfold trim. set (u := trimStart s).
  assert (Hu : space_width u = 0%nat) by apply trimStart_done.
  destruct (trimEnd_split u) as (x & Hx & _).
  rewrite trimStart_none; [apply trimEnd_idem|].
  destruct (trimEnd u) as [|c v] eqn:E; [done|].
  apply (space_width_prefix _ x); [done|]. by rewrite <- Hx.
Qed.

(** *** Lower case and white space *)

Lemma lower_char_idem c : lower_char (lower_char c) = lower_char c.
Proof. by destruct c as [[] [] [] [] [] [] [] []]. Qed.

Lemma lower_char_other c x :
  negb (is_upper x) && negb (is_lower x) = true -> (lower_char c = x <-> c = x).
Proof.
  intros Hx. split.
  - intros <-. revert Hx. by destruct c as [[] [] [] [] [] [] [] []].
  - intros ->. revert Hx. by destruct x as [[] [] [] [] [] [] [] []].
Qed.

Lemma toLowerCase_idem s : toLowerCase (toLowerCase s) = toLowerCase s.
Proof.
  unfold toLowerCase. induction s as [|c s IH]; [done|].
  cbn [map_string]. by rewrite lower_char_idem, IH.
Qed.

Lemma toLowerCase_empty s : toLowerCase s = EmptyString <-> s = EmptyString.
Proof. by destruct s. Qed.

Lemma toLowerCase_prefix p s :
  forall_string (fun c => negb (is_upper c) && negb (is_lower c)) p = true ->
  String.prefix p (toLowerCase s) = String.prefix p s.
Proof.
  revert s. induction p as [|x p IH]; intros s Hp; [by destruct s|].
  destruct s as [|c s]; [done|]. cbn [forall_string] in Hp.
  apply andb_prop in Hp as [Hx Hp]. unfold toLowerCase. cbn [map_string]. simpl.
  pose proof (lower_char_other c x Hx) as Hiff.
  destruct (ascii_dec x (lower_char c)) as [E|E], (ascii_dec x c) as [E'|E'].
  - by apply IH.
  - exfalso. apply E'. symmetry. by apply Hiff.
  - exfalso. apply E. symmetry. by apply Hiff.
  - done.
Qed.

Lemma toLowerCase_space_width s : space_width (toLowerCase s) = space_width s.
Proof.
  unfold space_width.
  assert (H : forall l, (forall p, In p l -> In p white_space) ->
            List.find (fun p => String.prefix p (toLowerCase s)) l
            = List.find (fun p => String.prefix p s) l).
  { induction l as [|p l IH]; intros Hl; [done|]. cbn [List.find].
    rewrite toLowerCase_prefix by (apply white_space_no_letter, Hl; by left).
    rewrite IH; [done|]. intros q Hq. apply Hl. by right. }
  by rewrite H.
Qed.

Lemma toLowerCase_skip_spaces k s :
  skip_spaces k (toLowerCase s) = toLowerCase (skip_spaces k s).
Proof.
  revert k. induction s as [|c s IH]; intros k; [done|].
  change (toLowerCase (String c s)) with (String (lower_char c) (toLowerCase s)).
  cbn [skip_spaces]. destruct k as [|k]; [|apply IH].
  change (String (lower_char c) (toLowerCase s)) with (toLowerCase (String c s)).
  rewrite toLowerCase_space_width. destruct (space_width (String c s)); [done|apply IH].
Qed.

Lemma toLowerCase_trimStart s : trimStart (toLowerCase s) = toLowerCase (trimStart s).
Proof. apply toLowerCase_skip_spaces. Qed.

Lemma toLowerCase_all_space s : all_space (toLowerCase s) = all_space s.
Proof. unfold all_space. rewrite toLowerCase_trimStart. by destruct (trimStart s). Qed.

Lemma toLowerCase_trimEnd s : trimEnd (toLowerCase s) = toLowerCase (trimEnd s).
Proof.
  induction s as [|c s IH]; [done|].
  change (toLowerCase (String c s)) with (String (lower_char c) (toLowerCase s)).
  cbn [trimEnd].
  change (String (lower_char c) (toLowerCase s)) with (toLowerCase (String c s)).
  rewrite toLowerCase_all_space. destruct (all_space (String c s)); [done|].
  rewrite IH. reflexivity.
Qed.

Lemma toLowerCase_trim s : trim (toLowerCase s) = toLowerCase (trim s).
Proof. unfold trim. by rewrite toLowerCase_trimStart, toLowerCase_trimEnd. Qed.

Lemma toLowerCase_no_space s : no_space (toLowerCase s) = no_space s.
Proof.
  induction s as [|c s IH]; [done|].
  change (toLowerCase (String c s)) with (String (lower_char c) (toLowerCase s)).
  cbn [no_space].
  change (String (lower_char c) (toLowerCase s)) with (toLowerCase (String c s)).
  by rewrite toLowerCase_space_width, IH.
Qed.

(** What [.trim().toLowerCase()] followed by [.filter(Boolean)] keeps. *)
Lemma normal_name_made s :
  is_empty (toLowerCase (trim s)) = false -> normal_name (toLowerCase (trim s)).
Proof.
  intros H. split; [by destruct (toLowerCase (trim s))|]. split.
  - apply toLowerCase_idem.
  - by rewrite toLowerCase_trim, trim_idem.
Qed.

(** *** Splitting at white space *)

Lemma split_ws_pass k q in_run cur s :
  String.length q = k ->
  split_ws_from k in_run cur (q +:+ s) = split_ws_from 0 in_run cur s.
Proof.
  revert k. induction q as [|c q IH]; intros k Hk; cbn [String.length] in Hk; subst k.
  - done.
  - rewrite append_cons. cbn [split_ws_from]. by apply IH.
Qed.

Lemma split_ws_word cur name :
  no_space name = true -> split_ws_from 0 false cur name = [cur +:+ name].
Proof.
  revert cur. induction name as [|c name IH]; intros cur Hn.
  - cbn [split_ws_from]. by rewrite append_empty.
  - cbn [split_ws_from]. rewrite (no_space_head _ _ Hn).
    rewrite IH by (by eapply no_space_tail). by rewrite append_assoc_cons.
Qed.

Lemma split_ws_space p in_run cur s :
  In p white_space ->
  split_ws_from 0 in_run cur (p +:+ s)
  = if in_run then split_ws_from 0 true EmptyString s
    else cur :: split_ws_from 0 true EmptyString s.
Proof.
  intros Hp. pose proof (space_width_here p s Hp) as Hw.
  destruct (white_space_lead p Hp) as (a & q & -> & _).
  rewrite append_cons in *. cbn [split_ws_from]. rewrite Hw. cbn [String.length].
  by rewrite !split_ws_pass.
Qed.

Lemma split_ws_skip sp arg :
  spaces sp -> no_space arg = true ->
  split_ws_from 0 true EmptyString (sp +:+ arg) = [arg].
Proof.
  intros Hsp Harg. induction Hsp as [|p s Hp Hs IH].
  - destruct arg as [|c arg]; [done|].
    change (EmptyString +:+ String c arg) with (String c arg).
    pose proof (split_ws_word EmptyString (String c arg) Harg) as H.
    cbn [split_ws_from] in *. rewrite (no_space_head _ _ Harg) in *. exact H.
  - rewrite append_assoc, split_ws_space by done. exact IH.
Qed.

Lemma split_ws_two cur name sp arg :
  no_space name = true -> spaces sp -> sp <> EmptyString -> no_space arg = true ->
  split_ws_from 0 false cur (name +:+ sp +:+ arg) = [cur +:+ name; arg].
Proof.
  intros Hn Hsp Hne Harg. revert cur. induction name as [|c name IH]; intros cur.
  - destruct Hsp as [|p s Hp Hs]; [done|].
    change (EmptyString +:+ (p +:+ s) +:+ arg) with ((p +:+ s) +:+ arg).
    rewrite append_assoc, split_ws_space, append_empty by done.
    f_equal. by apply split_ws_skip.
  - rewrite append_cons. cbn [split_ws_from]. rewrite <- append_cons.
    rewrite space_width_app;
      [|by apply no_space_head|done|by apply spaces_starts_clean_app].
    rewrite IH by (by eapply no_space_tail). by rewrite append_assoc_cons.
Qed.

Lemma trimEnd_space_head p s :
  In p white_space -> all_space (p +:+ s) = false -> trimEnd (p +:+ s) = p +:+ trimEnd s.
Proof.
  intros Hp Hno. destruct (white_space_lead p Hp) as (a & q & -> & _ & Hq).
  rewrite !append_cons. cbn [trimEnd]. rewrite <- append_cons.
  by rewrite Hno, trimEnd_cont.
Qed.

Lemma after_word_cases rest :
  after_word rest ->
  rest = EmptyString \/ exists p s, In p white_space /\ rest = p +:+ s.
Proof.
  intros [->|Hw]; [by left|]. right.
  destruct (space_width rest) as [|k] eqn:E; [done|].
  destruct (space_width_found rest k E) as (p & s & Hp & -> & _). by exists p, s.
Qed.

Lemma after_word_starts_clean rest : after_word rest -> starts_clean rest = true.
Proof.
  intros [->|(p & s & Hp & ->)]%after_word_cases; [done|].
  destruct (white_space_lead p Hp) as (a & q & -> & Ha & _).
  rewrite append_cons. cbn [starts_clean]. by rewrite Ha.
Qed.

Lemma after_word_trimEnd rest : after_word rest -> after_word (trimEnd rest).
Proof.
  intros [->|(p & s & Hp & ->)]%after_word_cases; [by left|].
  destruct (all_space (p +:+ s)) eqn:E.
  - left. by apply trimEnd_spaces, all_space_spaces.
  - right. rewrite trimEnd_space_head, space_width_here by done.
    by destruct (white_space_lead p Hp) as (a & q & -> & _).
Qed.

Lemma trimEnd_word_rest name rest :
  no_space name = true -> after_word rest ->
  trimEnd (name +:+ rest) = name +:+ trimEnd rest.
Proof.
  intros Hn Hrest. destruct (all_space rest) eqn:E.
  - apply all_space_spaces in E.
    by rewrite trimEnd_word, trimEnd_spaces, append_empty.
  - apply trimEnd_after_word; [done|by apply after_word_starts_clean|].
    destruct rest as [|c r]; [done|]. cbn [trimEnd]. by rewrite E.
Qed.

Lemma trim_word_rest l name rest :
  spaces l -> no_space name = true -> name <> EmptyString -> after_word rest ->
  trim (l +:+ name +:+ rest) = name +:+ trimEnd rest.
Proof.
  intros Hl Hn Hne Hrest. unfold trim. rewrite trimStart_spaces by done.
  rewrite trimStart_none; [by apply trimEnd_word_rest|].
  destruct name as [|c name]; [done|].
  apply space_width_app; [by apply no_space_head|done|by apply after_word_starts_clean].
Qed.

Lemma split_ws_word_rest cur name rest :
  no_space name = true -> after_word rest ->
  split_ws_from 0 false cur (name +:+ rest)
  = (cur +:+ name) :: tail (split_ws_from 0 false EmptyString rest).
Proof.
  intros Hn Hrest. revert cur. induction name as [|c name IH]; intros cur.
  - rewrite append_empty. change (EmptyString +:+ rest) with rest.
    destruct (after_word_cases rest Hrest) as [->|(p & s & Hp & ->)]; [done|].
    by rewrite !split_ws_space.
  - rewrite append_cons. cbn [split_ws_from]. rewrite <- append_cons.
    rewrite space_width_app;
      [|by apply no_space_head|done|by apply after_word_starts_clean].
    rewrite IH by (by eapply no_space_tail). by rewrite append_assoc_cons.
Qed.

Section Parse.
Context {config : Config}.

(** The message handler on a message whose first word is [name]. *)
Lemma on_message_word channel tags l name rest w :
  spaces l -> no_space name = true -> name <> EmptyString -> after_word rest ->
  on_message channel tags (COMMAND_PREFIX +:+ l +:+ name +:+ rest) false w
  = match COMMANDS (toLowerCase name) with
    | None => (Ok tt, w)
    | Some command =>
        dispatch command (toLowerCase name) channel tags
          (tail (split_ws_from 0 false EmptyString (trimEnd rest))) w
    end.
Proof.
  intros Hl Hn Hne Hrest. unfold on_message.
  rewrite startsWith_app. cbn [negb]. rewrite slice_from_app, trim_word_rest by done.
  destruct name as [|c name]; [done|]. rewrite append_cons. cbn [String.length Nat.eqb].
  rewrite <- append_cons.
  unfold split_ws. rewrite split_ws_word_rest by (done || by apply after_word_trimEnd).
  cbn [head default tail id].
  change (EmptyString +:+ String c name) with (String c name).
  by destruct (COMMANDS _).
Qed.

(** X4. White space before the command name and the case of its letters
    do not matter: a message made of the prefix, white space of any kind
    (any run of the white-space characters of JavaScript, possibly empty),
    a name without white space and then either nothing or white space
    followed by anything is handled exactly as the prefix, the name in
    lower case and the same rest. *)
Theorem command_parsing_ignores_space_and_case channel tags l name rest w :
  all_space l = true -> no_space name = true -> name <> EmptyString ->
  rest = EmptyString \/ space_width rest <> 0%nat ->
  on_message channel tags (COMMAND_PREFIX +:+ l +:+ name +:+ rest) false w
  = on_message channel tags (COMMAND_PREFIX +:+ toLowerCase name +:+ rest) false w.
Proof.
  intros Hl Hn Hne Hrest. apply all_space_spaces in Hl.
  rewrite on_message_word by done.
  pose proof (on_message_word channel tags EmptyString (toLowerCase name) rest w) as H.
  change (EmptyString +:+ toLowerCase name +:+ rest) with (toLowerCase name +:+ rest) in H.
  rewrite H; [by rewrite toLowerCase_idem|constructor|by rewrite toLowerCase_no_space| |done].
  by rewrite toLowerCase_empty.
Qed.

(** X21. The first argument of a command is the next word: in a message
    made of the prefix, a name and one more word, with white space of any
    kind between them and optionally around them, the handler of the
    lower-cased name is dispatched with that word as its only argument. *)
Theorem command_argument_is_the_next_word
    (channel : string) (tags : Tags) (l name sp arg r : string) (w : World) :
  all_space l = true -> all_space r = true ->
  all_space sp = true -> sp <> EmptyString ->
  no_space name = true -> name <> EmptyString ->
  no_space arg = true -> arg <> EmptyString ->
  on_message channel tags (COMMAND_PREFIX +:+ l +:+ name +:+ sp +:+ arg +:+ r) false w
  = match COMMANDS (toLowerCase name) with
    | None => (Ok tt, w)
    | Some command => dispatch command (toLowerCase name) channel tags [arg] w
    end.
Proof.
  intros Hl Hr Hsp Hspne Hn Hne Ha Hane.
  apply all_space_spaces in Hl, Hr, Hsp. unfold on_message.
  rewrite startsWith_app. cbn [negb]. rewrite slice_from_app, trim_two_words by done.
  destruct name as [|c name]; [done|]. rewrite append_cons. cbn [String.length Nat.eqb].
  rewrite <- append_cons.
  unfold split_ws. rewrite split_ws_two by done. cbn [head default tail id].
  change (EmptyString +:+ String c name) with (String c name).
  by destruct (COMMANDS _).
Qed.

End Parse.

(** [!], an ideographic space (U+3000), [PiNg] and a space is [!ping]
    and a space. *)
Lemma command_parsing_ignores_space_and_case_witness :
  let w := boot ∅ 1000000 silent in
  @on_message defaults "#bob" alice "!　PiNg " false w
  = @on_message defaults "#bob" alice "!ping " false w.
Proof.
  intros w.
  refine (@command_parsing_ignores_space_and_case defaults "#bob" alice "　" "PiNg" " " w
            _ _ _ _); [reflexivity|reflexivity|discriminate|right; discriminate].
Defined.

(** [! DROP], a no-break space (U+00A0), [10] and a space hand ["10"] to
    the handler of [drop]. *)
Lemma command_argument_is_the_next_word_witness :
  @on_message defaults "#bob" bob "! DROP 10 " false drop_world
  = @dispatch defaults (Own Drop) "drop" "#bob" bob ["10"] drop_world.
Proof.
  refine (@command_argument_is_the_next_word defaults "#bob" bob " " "DROP" " " "10" " "
            drop_world _ _ _ _ _ _ _ _); (reflexivity || discriminate).
Defined.

(** ** The cooldown the dispatcher commits *)

Lemma cooldown_of_pos name : 0 < cooldown_of name.
Proof.
  unfold cooldown_of, COMMAND_COOLDOWNS.
  repeat (destruct (String.eqb name _); [done|]). done.
Qed.

Section Repeat.
Context {config : Config}.

(** X5. Once a command other than [discount] has run for a user, the same
    user's next invocation of it, [dt] milliseconds later and before the
    command's cooldown is over, is answered by the wait message alone: the
    seconds in it are the remaining cooldown rounded up, between 1 and the
    whole cooldown, no handler runs whatever the arguments, and the ledger
    is left as it was. *)
Theorem repeat_within_cooldown_is_refused
    (e : Entry) (name channel : string) (tags : Tags) (args args' : list string)
    (uid : string) (cd0 dt : Z) (w w1 : World) :
  userId_of tags = Ok uid ->
  name <> "discount" ->
  fst (isOnCooldown name uid w) = Ok cd0 -> cd0 <= 0 ->
  execute e channel tags args (snd (isOnCooldown name uid w)) = (Ok tt, w1) ->
  0 <= dt < cooldown_of name ->
  let w2 := later dt (snd (dispatch e name channel tags args w)) in
  let cd := ceil_div (cooldown_of name - dt) 1000 in
  1 <= cd <= ceil_div (cooldown_of name) 1000
  /\ dispatch e name channel tags args' w2
     = say channel (cooldown_wait_text (show_opt (name_of tags)) cd name) w2
  /\ new_events w2 (snd (dispatch e name channel tags args' w2))
     = [Said channel (cooldown_wait_text (show_opt (name_of tags)) cd name)
          (snd (next_say w2))]
  /\ same_ledger w2 (snd (dispatch e name channel tags args' w2)).
Proof.
  intros Hu Hname Hcd0 Hle Hok Hdt w2 cd.
  assert (Hne : negb (String.eqb name "discount") = true)
    by (by destruct (String.eqb_spec name "discount")).
  assert (Hfirst : snd (dispatch e name channel tags args w)
                   = snd (setCooldown name uid (cooldown_of name) w1)).
  { rewrite (dispatch_run _ _ _ _ _ _ uid) by done. rewrite Hcd0.
    destruct (Z.ltb_spec 0 cd0); [lia|]. cbn [andb].
    rewrite (run_command_ok _ _ _ _ _ _ _ w1 Hok). by rewrite Hne. }
  assert (Hpos : 0 < cd) by (apply ceil_div_pos; lia).
  assert (Hcd : fst (isOnCooldown name uid w2) = Ok cd).
  { rewrite isOnCooldown_value. unfold w2.
    change (cooldowns (later dt ?x)) with (cooldowns x).
    change (now (later dt ?x)) with (now x + dt).
    rewrite Hfirst, expiry_setCooldown, now_setCooldown.
    destruct (Z.ltb_spec (now w1 + dt) (now w1 + cooldown_of name)); [|lia].
    unfold cd. do 2 f_equal. lia. }
  assert (Hw2 : snd (isOnCooldown name uid w2) = w2).
  { apply isOnCooldown_present. unfold w2.
    change (cooldowns (later dt ?x)) with (cooldowns x).
    rewrite Hfirst, setCooldown_run. cbn [snd cooldowns with_cooldowns].
    by rewrite lookup_insert_eq. }
  assert (Hrun : dispatch e name channel tags args' w2
                 = say channel (cooldown_wait_text (show_opt (name_of tags)) cd name) w2).
  { rewrite (dispatch_run _ _ _ _ _ _ uid) by done. rewrite Hcd, Hw2, Hne.
    by destruct (Z.ltb_spec 0 cd); [|lia]. }
  split; [|split; [exact Hrun|split]].
  - split; [lia|]. unfold cd, ceil_div.
    assert ((- cooldown_of name) / 1000 <= (- (cooldown_of name - dt)) / 1000)
      by (apply Z.div_le_mono; lia).
    lia.
  - rewrite Hrun. apply say_events.
  - rewrite Hrun. apply quiet_say.
Qed.

End Repeat.

(** Alice's second [!ping], 400 ms after her first, is told to wait one
    second. *)
Lemma repeat_within_cooldown_is_refused_witness :
  let w := boot ∅ 1000000 silent in
  let w2 := later 400 (snd (@dispatch defaults (Own Ping) "ping" "#bob" alice [] w)) in
  @dispatch defaults (Own Ping) "ping" "#bob" alice [] w2
  = say "#bob" "@Alice wait 1s before using !ping again." w2.
Proof.
  intros w w2.
  refine (proj1 (proj2
    (@repeat_within_cooldown_is_refused defaults (Own Ping) "ping" "#bob" alice [] []
       "42" 0 400 w
       (snd (@execute defaults (Own Ping) "#bob" alice [] (snd (isOnCooldown "ping" "42" w))))
       _ _ _ _ _ _)));
    [reflexivity|discriminate|reflexivity|lia|reflexivity|by vm_compute].
Defined.

(** ** The global drop, from the other side *)

(** X6. The global-drop handler reaches the backend only for the
    streamer, with the global cooldown elapsed, a percent from 1 to 50 and
    the announcement delivered; the one request it then makes is the
    creation of a drop with that percent for the channel. *)
Theorem drop_external_call_requires (channel : string) (tags : Tags) (args : list string)
    (w : World) (e : Event) :
  e ∈ new_events w (snd (drop_execute channel tags args w)) ->
  is_external_call e = true ->
  broadcaster tags = Some "1"
  /\ 5 * 60 * 1000 <= now w - lastGlobalDropAt w
  /\ exists p, parseInt10 (head args) = Some p /\ 1 <= p <= 50
               /\ snd (next_say w) = true
               /\ e = drop_request channel p.
Proof.
  intros Hin Hext.
  destruct (drop_cases channel tags args w) as [[text Hrun]|(Hs & Hcd & p & Hp & Hr & Hsay)].
  - rewrite Hrun in Hin. apply say_external in Hin. congruence.
  - split; [done|]. split; [exact Hcd|]. exists p. repeat split; try done; try lia.
    destruct (drop_after_announcement channel tags args w p) as (text & w3 & Hrun & Htr & _);
      try done.
    rewrite Hrun, (say_after_events _ _ _ _ _ Htr) in Hin.
    cbn [app] in Hin.
    apply elem_of_cons in Hin as [->|Hin]; [done|].
    apply elem_of_cons in Hin as [->|Hin]; [done|].
    apply list_elem_of_singleton in Hin as ->. done.
Qed.

(** Bob's [!drop 10] on a fresh process asks the backend for a 10% drop
    in [bob]. *)
Lemma drop_external_call_requires_witness :
  broadcaster bob = Some "1"
  /\ 5 * 60 * 1000 <= now drop_world - lastGlobalDropAt drop_world
  /\ exists p, parseInt10 (head ["10"]) = Some p /\ 1 <= p <= 50
               /\ snd (next_say drop_world) = true
               /\ drop_request "#bob" 10 = drop_request "#bob" p.
Proof.
  refine (drop_external_call_requires "#bob" bob ["10"] drop_world
            (drop_request "#bob" 10) _ _); [|reflexivity].
  vm_compute. apply list_elem_of_further, list_elem_of_here.
Defined.

(** X7. The time of the last global drop moves only when a drop was
    created: the caller is the streamer, the global cooldown has elapsed,
    the percent is from 1 to 50, the announcement was delivered and the
    backend answered [ok] with a [drop]; it then becomes the instant the
    backend's answer arrived. *)
Theorem drop_time_moves_only_on_success (channel : string) (tags : Tags)
    (args : list string) (w : World) :
  lastGlobalDropAt (snd (drop_execute channel tags args w)) <> lastGlobalDropAt w ->
  broadcaster tags = Some "1"
  /\ 5 * 60 * 1000 <= now w - lastGlobalDropAt w
  /\ exists p st data,
       parseInt10 (head args) = Some p /\ 1 <= p <= 50
       /\ snd (next_say w) = true
       /\ snd (next_axios w) = AxiosResolves st data
       /\ truthy (opt_prop data "ok") = true
       /\ is_nullish (opt_prop data "drop") = false
       /\ lastGlobalDropAt (snd (drop_execute channel tags args w))
          = now w + fst (next_say w) + fst (next_axios w).
Proof.
  intros Hmoved.
  destruct (drop_cases channel tags args w) as [[text Hrun]|(Hs & Hcd & p & Hp & Hr & Hsay)].
  - rewrite Hrun, say_lastGlobalDropAt in Hmoved. done.
  - split; [done|]. split; [exact Hcd|].
    destruct (drop_after_announcement channel tags args w p)
      as (text & w3 & Hrun & _ & _ & _ & Hlast & _); try done.
    rewrite Hrun, say_lastGlobalDropAt in Hmoved |- *.
    destruct Hlast as [Hlast|(st & data & Hax & Hok & Hdrop & Hlast)]; [done|].
    exists p, st, data. repeat split; try done; lia.
Qed.

(** Bob's [!drop 10] on a fresh process moves the drop time from 0. *)
Lemma drop_time_moves_only_on_success_witness :
  exists p st data,
    parseInt10 (head ["10"]) = Some p /\ 1 <= p <= 50
    /\ snd (next_axios drop_world) = AxiosResolves st data
    /\ lastGlobalDropAt (snd (drop_execute "#bob" bob ["10"] drop_world)) = 1000250.
Proof.
  destruct (drop_time_moves_only_on_success "#bob" bob ["10"] drop_world)
    as (_ & _ & p & st & data & Hp & Hr & _ & Hax & _ & _ & Hlast);
    [by vm_compute|].
  exists p, st, data. split; [exact Hp|]. split; [exact Hr|]. split; [exact Hax|].
  exact Hlast.
Defined.

(** X8. When the backend answers the drop request with something that is
    not a JSON object or array (an HTML error page, an empty body), the
    streamer is told [Backend returned HTTP <status>] after the
    announcement and the request, no drop time is recorded and the ledger
    is left as it was. *)
Theorem drop_backend_answer_not_an_object (channel : string) (tags : Tags)
    (args : list string) (w : World) (p st : Z) (data : JValue) :
  broadcaster tags = Some "1" ->
  5 * 60 * 1000 <= now w - lastGlobalDropAt w ->
  parseInt10 (head args) = Some p -> 1 <= p <= 50 ->
  snd (next_say w) = true ->
  snd (next_axios w) = AxiosResolves st data ->
  is_object data = false ->
  let u := show_opt (display_name tags) in
  let w' := snd (drop_execute channel tags args w) in
  (exists ok,
     new_events w w'
     = [Said channel (drop_announcement u p) true;
        drop_request channel p;
        Said channel ("@" +:+ u +:+ " " +:+ ("Backend returned HTTP " +:+ show_Z st)) ok])
  /\ lastGlobalDropAt w' = lastGlobalDropAt w
  /\ same_ledger w w'.
Proof.
  intros Hs Hcd Hp Hr Hsay Hax Hobj u w'. unfold w', u.
  destruct (drop_after_announcement channel tags args w p)
    as (text & w3 & Hrun & Htr & _ & _ & Hlast & Htext); try done.
  split; [|split].
  - rewrite Hrun, (say_after_events _ _ _ _ _ Htr), (Htext st data Hax Hobj).
    eexists. reflexivity.
  - rewrite Hrun, say_lastGlobalDropAt.
    destruct Hlast as [Hlast|(st' & data' & Hax' & Hok & _)]; [done|].
    rewrite Hax in Hax'. injection Hax' as <- <-.
    destruct data; done.
  - apply drop_same_ledger. unfold drop_creates. rewrite Hs, Hp, Hax.
    cbn [backend_creates_drop]. destruct data; try done;
      cbn [opt_prop truthy andb]; by rewrite !andb_false_r.
Qed.

(** A 502 page from the proxy in front of the backend. *)
Lemma drop_backend_answer_not_an_object_witness :
  let w := boot ∅ 1000000
             {| says := []; fetches := [];
                axioses := [(250, AxiosResolves 502 (JStr "<html>Bad Gateway</html>"))];
                joins := [] |} in
  let w' := snd (drop_execute "#bob" bob ["10"] w) in
  (exists ok,
     new_events w w'
     = [Said "#bob" (drop_announcement "Bob" 10) true;
        drop_request "#bob" 10;
        Said "#bob" "@Bob Backend returned HTTP 502" ok])
  /\ lastGlobalDropAt w' = lastGlobalDropAt w
  /\ same_ledger w w'.
Proof.
  intros w w'.
  refine (drop_backend_answer_not_an_object "#bob" bob ["10"] w 10 502
            (JStr "<html>Bad Gateway</html>") _ _ _ _ _ _ _);
    [reflexivity|by vm_compute|reflexivity|lia|reflexivity|reflexivity|reflexivity].
Defined.

(** ** Channel names *)

Lemma roster_names_normal items ch : ch ∈ roster_names items -> normal_name ch.
Proof.
  unfold roster_names. rewrite list_elem_of_filter. intros [Hne Hin].
  apply list_elem_of_In, in_map_iff in Hin as (c & <- & _). by apply normal_name_made.
Qed.

(** ** The sync of the joined channels *)

Lemma join_missing_present ch w :
  ch ∈ joinedChannels w -> join_missing ch w = (Ok tt, w).
Proof.
  intros H. unfold join_missing, bind, gets. by rewrite bool_decide_eq_true_2.
Qed.

Lemma join_missing_absent ch w :
  ch ∉ joinedChannels w ->
  let w1 := settle (fst (next_join w)) (pop_join (script w))
              (JoinRequest ch (snd (next_join w))) w in
  join_missing ch w
  = (Ok tt, if snd (next_join w)
            then later 900 (with_joined ({[ch]} ∪ joinedChannels w) w1)
            else w1).
Proof.
  intros H. unfold join_missing, bind at 1, gets. rewrite bool_decide_eq_false_2 by done.
  unfold try_catch, bind, join, modify, sleep, ret. cbn [fst snd].
  by destruct (snd (next_join w)).
Qed.

(** What the loop of the sync does to the world. *)
Lemma sync_loop names : forall w,
  exists l,
    fst (for_each names join_missing w) = Ok tt
    /\ trace (snd (for_each names join_missing w)) = trace w ++ l
    /\ joins_from (joinedChannels w) l (joinedChannels (snd (for_each names join_missing w)))
    /\ (forall ch ok, JoinRequest ch ok ∈ l -> ch ∈ names)
    /\ (forall ch, ch ∈ names -> ch ∉ joinedChannels w -> exists ok, JoinRequest ch ok ∈ l)
    /\ lastGlobalDropAt (snd (for_each names join_missing w)) = lastGlobalDropAt w.
Proof.
  induction names as [|x names IH]; intros w.
  - exists []. cbn [for_each ret fst snd]. rewrite app_nil_r.
    split; [done|]. split; [done|]. split; [constructor|]. split; [|split; [|done]].
    + intros ch ok H. by apply elem_of_nil in H.
    + intros ch H. by apply elem_of_nil in H.
  - cbn [for_each]. unfold bind.
    destruct (decide (x ∈ joinedChannels w)) as [Hin|Hout].
    + rewrite join_missing_present by done.
      destruct (IH w) as (l & Hok & Htr & Hj & Hn & Hm & Hl).
      exists l. split; [done|]. split; [done|]. split; [done|]. split; [|split; [|done]].
      * intros ch ok H. apply list_elem_of_further. by eapply Hn.
      * intros ch Hch Hno. apply elem_of_cons in Hch as [->|Hch]; [done|]. by apply Hm.
    + rewrite join_missing_absent by done.
      set (w1 := settle _ _ _ w).
      destruct (snd (next_join w)) eqn:Hjoin.
      * destruct (IH (later 900 (with_joined ({[x]} ∪ joinedChannels w) w1)))
          as (l & Hok & Htr & Hj & Hn & Hm & Hl).
        exists (JoinRequest x true :: l). split; [done|]. split.
        { rewrite Htr. cbn [trace later with_joined w1 settle]. by rewrite <- app_assoc. }
        split; [by constructor|]. split; [|split; [|done]].
        -- intros ch ok H. apply elem_of_cons in H as [[= -> _]|H];
             [apply list_elem_of_here|apply list_elem_of_further; by eapply Hn].
        -- intros ch Hch Hno. destruct (decide (ch = x)) as [->|Hne].
           { exists true. apply list_elem_of_here. }
           apply elem_of_cons in Hch as [->|Hch]; [done|].
           destruct (Hm ch Hch) as [ok Hok'].
           { cbn [joinedChannels later with_joined].
             rewrite elem_of_union, elem_of_singleton. tauto. }
           exists ok. by apply list_elem_of_further.
      * destruct (IH w1) as (l & Hok & Htr & Hj & Hn & Hm & Hl).
        exists (JoinRequest x false :: l). split; [done|]. split.
        { rewrite Htr. cbn [trace w1 settle]. by rewrite <- app_assoc. }
        split; [by constructor|]. split; [|split; [|done]].
        -- intros ch ok H. apply elem_of_cons in H as [[= -> _]|H];
             [apply list_elem_of_here|apply list_elem_of_further; by eapply Hn].
        -- intros ch Hch Hno. destruct (decide (ch = x)) as [->|Hne].
           { exists false. apply list_elem_of_here. }
           apply elem_of_cons in Hch as [->|Hch]; [done|].
           destruct (Hm ch Hch Hno) as [ok Hok']. exists ok. by apply list_elem_of_further.
Qed.

Lemma joins_from_subseteq J l J' : joins_from J l J' -> J ⊆ J'.
Proof. induction 1; set_solver. Qed.

Lemma joins_from_fresh J l J' ch ok :
  joins_from J l J' -> JoinRequest ch ok ∈ l -> ch ∉ J.
Proof.
  induction 1 as [J|J c l J' Hc H IH|J c l J' Hc H IH]; intros Hin.
  - by apply elem_of_nil in Hin.
  - apply elem_of_cons in Hin as [[= -> _]|Hin]; [done|]. set_solver.
  - apply elem_of_cons in Hin as [[= -> _]|Hin]; [done|]. auto.
Qed.

Lemma joins_from_added J l J' ch :
  joins_from J l J' -> ch ∈ J' <-> ch ∈ J \/ JoinRequest ch true ∈ l.
Proof.
  induction 1 as [J|J c l J' Hc H IH|J c l J' Hc H IH].
  - rewrite elem_of_nil. tauto.
  - rewrite IH, elem_of_cons, elem_of_union, elem_of_singleton.
    split; [intros [[->|?]|?]; auto|intros [?|[[= ->]|?]]; auto].
  - rewrite IH, elem_of_cons. split; [intros [?|?]; auto|intros [?|[[=]|?]]; auto].
Qed.

Lemma joins_from_once J l1 l2 J' ch ok :
  joins_from J (l1 ++ JoinRequest ch true :: l2) J' -> JoinRequest ch ok ∉ l2.
Proof.
  revert J. induction l1 as [|e l1 IH]; intros J H; cbn [app] in H.
  - inversion H as [|J0 c l J0' Hc Hrest|]; subst.
    intros Hin. apply (joins_from_fresh _ _ _ _ _ Hrest) in Hin. set_solver.
  - inversion H; subst; eauto.
Qed.

Lemma joins_from_only J l J' e :
  joins_from J l J' -> e ∈ l -> exists ch ok, e = JoinRequest ch ok.
Proof.
  induction 1 as [J|J c l J' Hc H IH|J c l J' Hc H IH]; intros Hin.
  - by apply elem_of_nil in Hin.
  - apply elem_of_cons in Hin as [->|Hin]; eauto.
  - apply elem_of_cons in Hin as [->|Hin]; eauto.
Qed.

(** The sync, run: the roster request, then the loop over the names read
    from its answer. *)
Lemma sync_run w :
  let w1 := settle (fst (next_axios w)) (pop_axios (script w)) RosterRequest w in
  syncJoinsFromBackend w
  = (Ok tt, match roster_of (snd (next_axios w)) with
            | Some names => snd (for_each names join_missing w1)
            | None => w1
            end).
Proof.
  intros w1. unfold syncJoinsFromBackend, try_catch, bind at 1, axios. fold w1.
  unfold roster_of.
  destruct (snd (next_axios w)) as [err|st data]; [done|]. cbn [fst snd].
  destruct (negb (truthy data) || negb _); [done|].
  destruct (opt_prop data "channels"); try done.
  change (for_each _ _ w1) with (for_each (roster_names items) join_missing w1).
  destruct (sync_loop (roster_names items) w1) as (l & Hok & _).
  destruct (for_each (roster_names items) join_missing w1) as [r w']. cbn [fst snd] in *.
  by subst r.
Qed.

(** The events of a sync: the roster request, then the join requests. *)
Lemma sync_events w :
  exists l,
    new_events w (snd (syncJoinsFromBackend w)) = RosterRequest :: l
    /\ joins_from (joinedChannels w) l (joinedChannels (snd (syncJoinsFromBackend w)))
    /\ (forall ch, (exists ok, JoinRequest ch ok ∈ l)
                   <-> (ch ∉ joinedChannels w)
                       /\ exists names, roster_of (snd (next_axios w)) = Some names
                                        /\ ch ∈ names)
    /\ lastGlobalDropAt (snd (syncJoinsFromBackend w)) = lastGlobalDropAt w.
Proof.
  rewrite sync_run. cbn [snd].
  set (w1 := settle (fst (next_axios w)) (pop_axios (script w)) RosterRequest w).
  destruct (roster_of (snd (next_axios w))) as [names|].
  - destruct (sync_loop names w1) as (l & _ & Htr & Hj & Hn & Hm & Hl).
    exists l. split; [|split; [exact Hj|split; [|exact Hl]]].
    + apply new_events_app. rewrite Htr. cbn [trace w1 settle]. by rewrite <- app_assoc.
    + intros ch. split.
      * intros [ok Hin]. split; [by apply (joins_from_fresh _ _ _ _ _ Hj Hin)|].
        exists names. split; [done|]. by eapply Hn.
      * intros (Hno & names' & [= <-] & Hin). by apply Hm.
  - exists []. split; [by apply new_events_app|]. split; [constructor|]. split; [|done].
    intros ch. split; [intros [ok H]; by apply elem_of_nil in H|].
    by intros (_ & names & H & _).
Qed.

(** X9. A sync never fails and never takes anything away, whatever the
    backend and the chat server do: it returns normally, every channel
    joined before is still joined after, the cooldowns, the claims and the
    global drop time are untouched, and what it does outside is one roster
    request followed by join requests only. *)
Theorem syncJoins_is_contained (w : World) :
  let w' := snd (syncJoinsFromBackend w) in
  fst (syncJoinsFromBackend w) = Ok tt
  /\ joinedChannels w ⊆ joinedChannels w'
  /\ same_ledger w w'
  /\ lastGlobalDropAt w' = lastGlobalDropAt w
  /\ exists l, new_events w w' = RosterRequest :: l
               /\ forall e, e ∈ l -> exists ch ok, e = JoinRequest ch ok.
Proof.
  intros w'. unfold w'.
  destruct (sync_events w) as (l & Hev & Hj & _ & Hl).
  split; [by rewrite sync_run|]. split; [by eapply joins_from_subseteq|].
  split; [apply quiet_syncJoinsFromBackend|]. split; [exact Hl|].
  exists l. split; [exact Hev|]. intros e. by eapply joins_from_only.
Qed.

(** X10. The channels a sync asks to join are exactly the names of the
    roster that are not joined yet: a join request for [ch] is made if and
    only if the backend answered [ok: true] with an array of channels that
    holds [ch] once trimmed, lower-cased and freed of empty names, and
    [ch] is not in the set of joined channels. Every such name is not
    empty, in lower case and without surrounding white space. A failed or
    unexpected answer therefore leads to no join request at all. *)
Theorem syncJoins_asks_for_the_missing_roster_channels (w : World) (ch : string) :
  let w' := snd (syncJoinsFromBackend w) in
  ((exists ok, JoinRequest ch ok ∈ new_events w w')
   <-> (ch ∉ joinedChannels w)
       /\ exists names, roster_of (snd (next_axios w)) = Some names /\ ch ∈ names)
  /\ ((exists ok, JoinRequest ch ok ∈ new_events w w') -> normal_name ch)
  /\ (roster_of (snd (next_axios w)) = None -> new_events w w' = [RosterRequest]).
Proof.
  intros w'. unfold w'.
  destruct (sync_events w) as (l & Hev & Hj & Hiff & _). rewrite Hev.
  assert (Hcons : (exists ok, JoinRequest ch ok ∈ RosterRequest :: l)
                  <-> exists ok, JoinRequest ch ok ∈ l).
  { split; intros [ok H]; exists ok; [|by apply list_elem_of_further].
    by apply elem_of_cons in H as [[=]|H]. }
  split; [by rewrite Hcons|]. split.
  - rewrite Hcons, Hiff. intros (_ & names & Hr & Hin).
    unfold roster_of in Hr.
    destruct (snd (next_axios w)) as [err|st data]; [done|].
    destruct (negb (truthy data) || negb _); [done|].
    destruct (opt_prop data "channels"); try done.
    injection Hr as <-. by eapply roster_names_normal.
  - intros Hnone. f_equal. destruct l as [|e l]; [done|]. exfalso.
    destruct (joins_from_only _ _ _ e Hj) as (c & ok & ->); [apply list_elem_of_here|].
    assert (Hex : exists b, JoinRequest c b ∈ JoinRequest c ok :: l)
      by (exists ok; apply list_elem_of_here).
    destruct (proj1 (Hiff c) Hex) as (_ & names & Hr & _). congruence.
Qed.

(** X11. The set of joined channels after a sync is the set before plus
    the channels whose join the chat server accepted: a refused join is
    not recorded, and within one sync no channel is asked for again once
    its join was accepted, even when the roster lists it twice. *)
Theorem syncJoins_records_accepted_joins (w : World) (ch : string) :
  let w' := snd (syncJoinsFromBackend w) in
  (ch ∈ joinedChannels w'
   <-> ch ∈ joinedChannels w \/ JoinRequest ch true ∈ new_events w w')
  /\ (forall l1 l2 ok,
        new_events w w' = l1 ++ JoinRequest ch true :: l2 -> JoinRequest ch ok ∉ l2).
Proof.
  intros w'. unfold w'.
  destruct (sync_events w) as (l & Hev & Hj & _ & _). rewrite Hev. split.
  - rewrite (joins_from_added _ _ _ ch Hj), elem_of_cons.
    split; [intros [?|?]; auto|intros [?|[[=]|?]]; auto].
  - intros l1 l2 ok Heq. destruct l1 as [|e l1]; [done|].
    cbn [app] in Heq. injection Heq as <- ->. by eapply joins_from_once.
Qed.

Lemma next_join_delay w :
  Forall (fun p => 0 <= fst p) (joins (script w)) -> 0 <= fst (next_join w).
Proof.
  unfold next_join. destruct (joins (script w)) as [|p l]; [done|].
  intros H. by apply Forall_cons in H as [H _].
Qed.

Lemma Forall_tail_delays (l : list (Z * bool)) :
  Forall (fun p => 0 <= fst p) l -> Forall (fun p => 0 <= fst p) (tail l).
Proof. destruct l as [|p l]; [done|]. intros H. by apply Forall_cons in H as [_ H]. Qed.

(** The clock of the loop: 900 ms for every channel it adds. *)
Lemma sync_loop_clock names : forall w,
  Forall (fun p => 0 <= fst p) (joins (script w)) ->
  let w' := snd (for_each names join_missing w) in
  joinedChannels w ⊆ joinedChannels w'
  /\ now w + 900 * (Z.of_nat (size (joinedChannels w')) - Z.of_nat (size (joinedChannels w)))
     <= now w'.
Proof.
  induction names as [|x names IH]; intros w Hd.
  - cbn [for_each ret snd]. split; [done|]. lia.
  - cbn [for_each]. unfold bind.
    destruct (decide (x ∈ joinedChannels w)) as [Hin|Hout].
    + rewrite join_missing_present by done. by apply IH.
    + rewrite join_missing_absent by done.
      pose proof (next_join_delay w Hd) as Hpos.
      set (w1 := settle _ _ _ w).
      assert (Hd1 : Forall (fun p => 0 <= fst p) (joins (script w1)))
        by (by apply Forall_tail_delays).
      destruct (snd (next_join w)).
      * pose proof (IH (later 900 (with_joined ({[x]} ∪ joinedChannels w) w1))) as IH'.
        destruct (IH' Hd1) as [Hsub Hclock].
        cbn [joinedChannels now later with_joined w1 settle] in Hsub, Hclock.
        cbv zeta. split.
        { intros c Hc. apply Hsub. apply elem_of_union. by right. }
        rewrite size_union in Hclock
          by (intros c Hc1 Hc2; apply elem_of_singleton in Hc1 as ->; done).
        rewrite size_singleton in Hclock. lia.
      * destruct (IH w1 Hd1) as [Hsub Hclock].
        cbn [joinedChannels now w1 settle] in Hsub, Hclock. cbv zeta.
        split; [exact Hsub|]. lia.
Qed.

(** X12. Joins are spaced: when no outside call takes negative time, a
    sync lasts at least 900 ms for every channel it adds to the joined
    set. *)
Theorem syncJoins_spaces_joins (w : World) :
  0 <= fst (next_axios w) ->
  Forall (fun p => 0 <= fst p) (joins (script w)) ->
  let w' := snd (syncJoinsFromBackend w) in
  900 * Z.of_nat (size (joinedChannels w' ∖ joinedChannels w)) <= now w' - now w.
Proof.
  intros Hax Hd w'. unfold w'. rewrite sync_run. cbn [snd].
  set (w1 := settle (fst (next_axios w)) (pop_axios (script w)) RosterRequest w).
  destruct (roster_of (snd (next_axios w))) as [names|].
  - destruct (sync_loop_clock names w1 Hd) as [Hsub Hclock].
    cbn [joinedChannels now w1 settle] in Hsub, Hclock.
    change (joinedChannels w1) with (joinedChannels w).
    rewrite size_difference by exact Hsub.
    pose proof (subseteq_size _ _ Hsub). lia.
  - cbn [joinedChannels now w1 settle].
    rewrite size_difference by done. lia.
Qed.

(** Bob's bot learns of Alice and Carol; the chat server accepts Alice
    and refuses Carol. *)
Lemma syncJoins_spaces_joins_witness :
  let w' := snd (syncJoinsFromBackend roster_world) in
  900 * Z.of_nat (size (joinedChannels w' ∖ joinedChannels roster_world))
  <= now w' - now roster_world.
Proof.
  refine (syncJoins_spaces_joins roster_world _ _); [by vm_compute|].
  repeat constructor; by vm_compute.
Defined.

(** ** The reload command *)

Section Reload.
Context {config : Config}.

Lemma reload_refused channel tags w :
  ~ (is_empty OWNER_USERNAME = false
     /\ toLowerCase <$> username tags = Some (toLowerCase OWNER_USERNAME)) ->
  reload_execute channel tags w
  = say channel ("@" +:+ show_opt (display_name tags)
                 +:+ " You are not allowed to use this command.") w.
Proof.
  intros Hno. unfold reload_execute.
  destruct (is_empty OWNER_USERNAME); [done|]. cbn [orb].
  destruct (decide (toLowerCase <$> username tags = Some (toLowerCase OWNER_USERNAME)))
    as [Heq|Hne]; [by destruct Hno|].
  by rewrite bool_decide_eq_false_2.
Qed.

Lemma reload_allowed channel tags w :
  is_empty OWNER_USERNAME = false ->
  toLowerCase <$> username tags = Some (toLowerCase OWNER_USERNAME) ->
  reload_execute channel tags w
  = (let* _ := say channel "Reloading channel list…" in
     let* _ := syncJoinsFromBackend in
     say channel "Channel list synced ✅") w.
Proof.
  intros Hown Heq. unfold reload_execute. rewrite Hown. cbn [orb].
  by rewrite bool_decide_eq_true_2.
Qed.

(** The events of a reload by the owner. *)
Lemma reload_events channel tags w :
  is_empty OWNER_USERNAME = false ->
  toLowerCase <$> username tags = Some (toLowerCase OWNER_USERNAME) ->
  let w' := snd (reload_execute channel tags w) in
  new_events w w' = [Said channel "Reloading channel list…" (snd (next_say w))]
  \/ snd (next_say w) = true
     /\ exists l ok,
          new_events w w'
          = Said channel "Reloading channel list…" true :: RosterRequest :: l
            ++ [Said channel "Channel list synced ✅" ok]
          /\ (forall e, e ∈ l -> exists ch b, e = JoinRequest ch b)
          /\ (roster_of (snd (next_axios w)) = None -> l = []).
Proof.
  intros Hown Heq w'. unfold w'. rewrite reload_allowed by done.
  destruct (snd (next_say w)) eqn:Hsay.
  - right. split; [done|].
    unfold bind at 1. rewrite say_run, Hsay. cbn [fst snd].
    match goal with |- context [settle ?a ?b ?c w] => set (w1 := settle a b c w) end.
    unfold bind. rewrite sync_run. cbn [snd].
    destruct (sync_events w1) as (l & Hev & Hj & Hiff & _).
    rewrite sync_run in Hev, Hj. cbn [snd] in Hev, Hj.
    exists l. eexists. split; [|split].
    + rewrite (say_after_events _ _ w _
                 (Said channel "Reloading channel list…" true :: RosterRequest :: l)).
      * by rewrite <- !app_comm_cons.
      * unfold new_events in Hev.
        match type of Hev with drop _ (trace ?x) = _ => set (w2 := x) in * end.
        assert (Hpre : take (length (trace w1)) (trace w2) = trace w1).
        { unfold w2. destruct (roster_of _) as [names|].
          - destruct (sync_loop names
                        (settle (fst (next_axios w1)) (pop_axios (script w1))
                           RosterRequest w1)) as (l' & _ & Htr & _).
            rewrite Htr. cbn [trace settle]. rewrite <- app_assoc.
            by rewrite take_app_length.
          - cbn [trace settle]. by rewrite take_app_length. }
        rewrite <- (take_drop (length (trace w1)) (trace w2)), Hpre, Hev.
        unfold w1. cbn [trace settle]. by rewrite <- app_assoc.
    + intros e. by eapply joins_from_only.
    + intros Hnone.
      change (next_axios w1) with (next_axios w) in Hev. rewrite Hnone in Hev.
      apply (f_equal length) in Hev. unfold new_events in Hev.
      rewrite length_drop in Hev. cbn [trace settle length] in Hev.
      rewrite length_app in Hev. cbn [length] in Hev.
      destruct l; [done|]. cbn [length] in Hev. lia.
  - left. unfold bind at 1. rewrite say_run, Hsay. by apply new_events_app.
Qed.

(** X13. Reloading is for the owner only: unless an owner is configured
    and the sender's username equals it up to the case of letters, the
    handler sends the refusal and nothing else, and the set of joined
    channels stays as it was; a roster request or a join request is
    recorded only for the owner, after the first reply was delivered. *)
Theorem reload_is_for_the_owner_only (channel : string) (tags : Tags) (w : World) :
  let w' := snd (reload_execute channel tags w) in
  let allowed := is_empty OWNER_USERNAME = false
                 /\ toLowerCase <$> username tags = Some (toLowerCase OWNER_USERNAME) in
  (~ allowed ->
     new_events w w'
     = [Said channel ("@" +:+ show_opt (display_name tags)
                      +:+ " You are not allowed to use this command.")
          (snd (next_say w))]
     /\ joinedChannels w' = joinedChannels w)
  /\ (forall e, e ∈ new_events w w' ->
        e = RosterRequest \/ (exists ch ok, e = JoinRequest ch ok) ->
        allowed /\ snd (next_say w) = true).
Proof.
  intros w' allowed. unfold w', allowed. split.
  - intros Hno. rewrite reload_refused by done. split; [apply say_events|done].
  - intros e Hin He.
    destruct (is_empty OWNER_USERNAME) eqn:Hown.
    { rewrite reload_refused in Hin by (intros [? _]; congruence).
      rewrite say_events in Hin. apply list_elem_of_singleton in Hin as ->.
      by destruct He as [?|(? & ? & ?)]. }
    destruct (decide (toLowerCase <$> username tags = Some (toLowerCase OWNER_USERNAME)))
      as [Heq|Hne].
    + split; [done|].
      destruct (reload_events channel tags w Hown Heq) as [Hev|[Hsay _]]; [|done].
      rewrite Hev in Hin. apply list_elem_of_singleton in Hin as ->.
      by destruct He as [?|(? & ? & ?)].
    + rewrite reload_refused in Hin by (by intros [_ ?]).
      rewrite say_events in Hin. apply list_elem_of_singleton in Hin as ->.
      by destruct He as [?|(? & ? & ?)].
Qed.

(** X14. A reload by the owner announces success whatever the sync did:
    once the first reply is delivered, the handler asks for the roster,
    makes the join requests of the sync and then says that the channel
    list was synced, also when the roster request failed or its answer
    was unusable, in which case no join was requested. *)
Theorem reload_reports_synced_whatever_happened (channel : string) (tags : Tags)
    (w : World) :
  is_empty OWNER_USERNAME = false ->
  toLowerCase <$> username tags = Some (toLowerCase OWNER_USERNAME) ->
  snd (next_say w) = true ->
  let w' := snd (reload_execute channel tags w) in
  exists l ok,
    new_events w w'
    = Said channel "Reloading channel list…" true :: RosterRequest :: l
      ++ [Said channel "Channel list synced ✅" ok]
    /\ (forall e, e ∈ l -> exists ch b, e = JoinRequest ch b)
    /\ (roster_of (snd (next_axios w)) = None -> l = []).
Proof.
  intros Hown Heq Hsay w'.
  destruct (reload_events channel tags w Hown Heq) as [Hev|[_ H]]; [|exact H].
  exfalso.
  pose proof (reload_allowed channel tags w Hown Heq) as Hrun.
  fold w' in Hev. unfold w' in Hev. rewrite Hrun in Hev.
  unfold bind at 1 in Hev. rewrite say_run, Hsay in Hev. cbn [fst snd] in Hev.
  unfold bind in Hev. rewrite sync_run in Hev. cbn [snd] in Hev.
  apply (f_equal length) in Hev. unfold new_events in Hev. rewrite length_drop in Hev.
  cbn [say snd trace settle length] in Hev. rewrite length_app in Hev.
  cbn [length] in Hev.
  match type of Hev with context [trace ?x] =>
    assert (length (trace w) + 2 <= length (trace x))%nat; [|lia]
  end.
  destruct (roster_of _) as [names|].
  - match goal with |- context [for_each names join_missing ?v] =>
      destruct (sync_loop names v) as (l' & _ & Htr & _)
    end.
    rewrite Htr. cbn [trace settle]. rewrite !length_app. cbn [length]. lia.
  - cbn [trace settle]. rewrite !length_app. cbn [length]. lia.
Qed.

End Reload.

(** Bob owns the bot; the backend is out of reach, and he is told the
    list was synced. *)
Lemma reload_reports_synced_whatever_happened_witness :
  let bobs := {| COMMAND_PREFIX := "!"; OWNER_USERNAME := "Bob" |} in
  let w := boot ∅ 1000000 silent in
  new_events w (snd (@reload_execute bobs "#bob" bob w))
  = [Said "#bob" "Reloading channel list…" true; RosterRequest;
     Said "#bob" "Channel list synced ✅" true].
Proof.
  intros bobs w.
  destruct (@reload_reports_synced_whatever_happened bobs "#bob" bob w)
    as (l & ok & Hev & _ & Hnone); [reflexivity|reflexivity|reflexivity|].
  rewrite (Hnone eq_refl) in Hev. rewrite Hev. cbn [app].
  vm_compute in Hev. by injection Hev as <-.
Defined.

(** ** The client of the discount API, whatever the answer *)

Lemma show_Z_not_httpStatus n : String.eqb "httpStatus" (show_Z n) = false.
Proof.
  destruct (show_Z_head n) as (c & rest & -> & [-> | Hc]); [done|].
  cbn [String.eqb]. destruct (Ascii.eqb_spec "h"%char c) as [<-|]; [|done].
  vm_compute in Hc. discriminate Hc.
Qed.

Lemma assoc_get_indexed_status i items v :
  assoc_get "httpStatus" (indexed i items ++ [("httpStatus", v)]) = Some v.
Proof.
  revert i. induction items as [|x items IH]; intros i; [done|].
  cbn [indexed app assoc_get]. rewrite show_Z_not_httpStatus. apply IH.
Qed.

Lemma slice_to_from n s : s = slice_to n s +:+ slice_from n s.
Proof.
  revert s. induction n as [|n IH]; intros [|c s]; cbn [slice_to slice_from]; try done.
  change (String c (slice_to n s) +:+ slice_from n s)
    with (String c (slice_to n s +:+ slice_from n s)).
  by rewrite <- IH.
Qed.

Lemma slice_to_all n s : (String.length s <= n)%nat -> slice_to n s = s.
Proof.
  revert s. induction n as [|n IH]; intros [|c s]; cbn [slice_to String.length];
    try done; try lia.
  intros H. rewrite IH; [done|lia].
Qed.

Lemma slice_to_length_min n s :
  String.length (slice_to n s) = Nat.min n (String.length s).
Proof.
  revert s. induction n as [|n IH]; intros [|c s]; cbn [slice_to String.length]; try done.
  by rewrite IH.
Qed.

Lemma requestViewerDiscount_world login viewer w :
  snd (requestViewerDiscount login viewer w)
  = settle (fst (next_fetch w)) (pop_fetch (script w))
      (ViewerDiscountRequest (toLowerCase login) (JStr (viewer_id viewer))
         (jv_of_opt (viewer_login viewer)) (jv_of_opt (viewer_name viewer))) w.
Proof.
  unfold requestViewerDiscount, bind, fetch, lift, readJsonOrText. cbn [fst snd].
  destruct (snd (next_fetch w)) as [why|res]; [done|].
  destruct (body res) as [why|raw [data|]]; cbn [fst snd ret]; [done|..].
  - destruct (includes _ _); cbn [fst snd]; by destruct (truthy data && is_object data).
  - by destruct (includes _ _).
Qed.

(** X15. Whatever the backend sends, what [requestViewerDiscount] returns
    is an object, reached with one request and no change to the ledger.
    When [fetch] resolved, the object carries the status of the response
    as [httpStatus]. When the body is not JSON its [ok] is [false] and its
    [raw] is the text of the body cut off; when the body is a JSON string,
    [ok] is [false] and [raw] is that string cut off. The cut is a prefix
    of the text, the whole of a text of at most 500 bytes, and the first
    500 characters of a longer ASCII text. When the body is JSON that is
    neither an object, an array nor a string, [ok] is [false] and [raw]
    is the parsed value itself. *)
Theorem requestViewerDiscount_result_shape (login : string) (viewer : Viewer) (w : World)
    (result : JValue) :
  fst (requestViewerDiscount login viewer w) = Ok result ->
  let w' := snd (requestViewerDiscount login viewer w) in
  (exists kvs, result = JObj kvs)
  /\ new_events w w'
     = [ViewerDiscountRequest (toLowerCase login) (JStr (viewer_id viewer))
          (jv_of_opt (viewer_login viewer)) (jv_of_opt (viewer_name viewer))]
  /\ same_ledger w w'
  /\ (forall res, snd (next_fetch w) = FetchResolves res ->
        opt_prop result "httpStatus" = JNum (status res))
  /\ (forall res raw parse text,
        snd (next_fetch w) = FetchResolves res -> body res = Readable raw parse ->
        parse = None /\ text = raw \/ parse = Some (JStr text) ->
        opt_prop result "ok" = JBool false
        /\ exists cut rest,
             opt_prop result "raw" = JStr cut
             /\ text = cut +:+ rest
             /\ ((String.length text <= 500)%nat -> cut = text)
             /\ (forall_string is_ascii text = true ->
                 String.length cut = Nat.min 500 (String.length text)))
  /\ (forall res raw v,
        snd (next_fetch w) = FetchResolves res -> body res = Readable raw (Some v) ->
        is_object v = false -> (forall text, v <> JStr text) ->
        opt_prop result "ok" = JBool false /\ opt_prop result "raw" = v).
Proof.
  intros Hres w'. unfold w'. clear w'.
  split; [|split; [by rewrite requestViewerDiscount_world; apply new_events_app|split; [apply quiet_requestViewerDiscount|]]].
  - revert Hres. unfold requestViewerDiscount, bind, fetch, lift, readJsonOrText.
    cbn [fst snd].
    destruct (snd (next_fetch w)) as [why|res]; cbn [fst snd ret].
    { intros [= <-]. by eexists. }
    destruct (body res) as [why|raw [data|]]; cbn [fst snd ret]; [done|..].
    + destruct (includes _ _); cbn [fst snd ret];
        (destruct (truthy data && is_object data); unfold ret; intros [= <-];
         [destruct data; by eexists|by eexists]).
    + destruct (includes _ _); intros [= <-]; by eexists.
  - assert (Hcut : forall text,
              exists cut rest,
                JStr (slice_to 500 text) = JStr cut /\ text = cut +:+ rest
                /\ ((String.length text <= 500)%nat -> cut = text)
                /\ (forall_string is_ascii text = true ->
                    String.length cut = Nat.min 500 (String.length text))).
    { intros text. exists (slice_to 500 text), (slice_from 500 text).
      split; [done|]. split; [apply slice_to_from|].
      split; [apply slice_to_all|]. intros _. apply slice_to_length_min. }
    revert Hres. unfold requestViewerDiscount, bind, fetch, lift, readJsonOrText.
    cbn [fst snd].
    destruct (snd (next_fetch w)) as [why|res]; cbn [fst snd ret].
    { intros _. split; [done|]. split; by intros. }
    destruct (body res) as [why|raw [data|]] eqn:Hbody; cbn [fst snd ret]; [done|..].
    + intros Hres.
      assert (Hr : result = if truthy data && is_object data
                            then spread_with_status data (status res)
                            else JObj [ ("ok", JBool false);
                                        ("reason", JStr (if status res =? 404 then "not_found"
                                                         else "http_error"));
                                        ("message", JStr ("Dropify API returned HTTP "
                                                          +:+ show_Z (status res)));
                                        ("httpStatus", JNum (status res));
                                        ("raw", match data with
                                                | JStr s => JStr (slice_to 500 s)
                                                | _ => data
                                                end) ]).
      { destruct (includes _ _); cbn [fst snd ret] in Hres;
          destruct (truthy data && is_object data); by injection Hres as <-. }
      clear Hres. split; [|split].
      * intros res' [= <-]. rewrite Hr.
        destruct (truthy data && is_object data); [|done].
        destruct data as [| | | | |items|kvs]; try done.
        -- cbn [spread_with_status opt_prop]. by rewrite assoc_get_indexed_status.
        -- cbn [spread_with_status opt_prop]. by rewrite assoc_get_set_eq.
      * intros res' raw' parse text [= <-] Hb Hparse. rewrite Hbody in Hb.
        injection Hb as <- <-. destruct Hparse as [[[=] _]|[= ->]].
        rewrite Hr. cbn [is_object andb]. rewrite andb_false_r. split; [done|].
        cbn [opt_prop assoc_get String.eqb Ascii.eqb Bool.eqb default]. apply Hcut.
      * intros res' raw' v [= <-] Hb Hobj Hstr. rewrite Hbody in Hb.
        injection Hb as <- <-. rewrite Hr, Hobj, andb_false_r. split; [done|].
        cbn [opt_prop assoc_get String.eqb Ascii.eqb Bool.eqb default].
        destruct data as [| | | |text| |]; try done. by destruct (Hstr text).
    + intros Hres.
      assert (Hr : result = JObj [ ("ok", JBool false);
                                   ("reason", JStr (if status res =? 404 then "not_found"
                                                    else "http_error"));
                                   ("message", JStr ("Dropify API returned HTTP "
                                                     +:+ show_Z (status res)));
                                   ("httpStatus", JNum (status res));
                                   ("raw", JStr (slice_to 500 raw)) ]).
      { destruct (includes _ _); by injection Hres as <-. }
      clear Hres. split; [|split].
      * intros res' [= <-]. by rewrite Hr.
      * intros res' raw' parse text [= <-] Hb Hparse. rewrite Hbody in Hb.
        injection Hb as <- <-. destruct Hparse as [[_ ->]|[=]].
        rewrite Hr. split; [done|].
        cbn [opt_prop assoc_get String.eqb Ascii.eqb Bool.eqb default]. apply Hcut.
      * intros res' raw' v [= <-] Hb. rewrite Hbody in Hb. discriminate Hb.
Qed.

(** The backend answers 404 with a short page of HTML: [raw] is the
    page. It answers 502 with a page of 600 characters: [raw] is the
    first 500 of them. *)
Lemma requestViewerDiscount_result_shape_witness :
  let answers := fun st page =>
    boot ∅ 1000000
      {| says := [];
         fetches := [(250, FetchResolves
                             {| status := st; content_type := Some "text/html";
                                body := Readable page None |})];
         axioses := []; joins := [] |} in
  let viewer := {| viewer_id := "42"; viewer_login := Some "alice";
                   viewer_name := Some "Alice" |} in
  (exists result,
     fst (requestViewerDiscount "Bob" viewer (answers 404 "<html>Not Found</html>"))
     = Ok result
     /\ opt_prop result "httpStatus" = JNum 404
     /\ opt_prop result "ok" = JBool false
     /\ opt_prop result "raw" = JStr "<html>Not Found</html>")
  /\ (exists result cut rest,
        fst (requestViewerDiscount "Bob" viewer (answers 502 long_page)) = Ok result
        /\ opt_prop result "raw" = JStr cut
        /\ long_page = cut +:+ rest
        /\ String.length long_page = 600%nat
        /\ String.length cut = 500%nat).
Proof.
  intros answers viewer. split.
  - eexists. split; [reflexivity|].
    destruct (requestViewerDiscount_result_shape "Bob" viewer
                (answers 404 "<html>Not Found</html>") _ eq_refl)
      as (_ & _ & _ & Hst & Hraw & _).
    split; [exact (Hst _ eq_refl)|].
    destruct (Hraw _ _ None "<html>Not Found</html>" eq_refl eq_refl
                (or_introl (conj eq_refl eq_refl)))
      as (Hok & cut & rest & Hcut & _ & Hall & _).
    split; [exact Hok|]. rewrite Hcut. f_equal. apply Hall. vm_compute. lia.
  - destruct (requestViewerDiscount_result_shape "Bob" viewer (answers 502 long_page)
                _ eq_refl)
      as (_ & _ & _ & _ & Hraw & _).
    destruct (Hraw _ _ None long_page eq_refl eq_refl (or_introl (conj eq_refl eq_refl)))
      as (_ & cut & rest & Hcut & Hpre & _ & Hlen).
    eexists _, cut, rest. split; [reflexivity|]. split; [exact Hcut|].
    split; [exact Hpre|]. split; [reflexivity|].
    rewrite Hlen by reflexivity. reflexivity.
Defined.

(** X16. The [content-type] header of the answer makes no difference to
    what is read from it: both branches of [readJsonOrText] try to parse
    the body and fall back to the text. *)
Theorem readJsonOrText_ignores_content_type (st : Z) (ct1 ct2 : option string) (b : Body) :
  readJsonOrText {| status := st; content_type := ct1; body := b |}
  = readJsonOrText {| status := st; content_type := ct2; body := b |}.
Proof.
  unfold readJsonOrText. cbn [body content_type].
  destruct b as [why|raw [v|]]; [done|..]; by do 2 destruct (includes _ _).
Qed.

(** ** The refusal that recalls the claim *)

(** The discount handler up to the answer of the backend, when that
    answer is a JSON object. *)
Lemma discount_reaches_result channel tags uid w res raw kvs :
  userId_of tags = Ok uid ->
  expiry (cooldowns w) "discount" uid <= now w ->
  snd (next_say w) = true ->
  snd (next_fetch w) = FetchResolves res ->
  body res = Readable raw (Some (JObj kvs)) ->
  let u := show_opt (name_of tags) in
  let w0 := snd (isOnCooldown "discount" uid w) in
  let w1 := settle (fst (next_say w)) (pop_say (script w0))
              (Said channel (discount_announcement u) true) w0 in
  let w2 := settle (fst (next_fetch w)) (pop_fetch (script w1))
              (discount_request channel tags uid) w1 in
  discount_execute channel tags w
  = (let* reply :=
       try_catch
         (discount_on_result channel u uid (spread_with_status (JObj kvs) (status res)))
         (fun _ => ret (say channel ("@" +:+ u
                         +:+ " something went wrong while generating your discount.")))
     in reply) w2.
Proof.
  intros Hu Hcd Hsay Hfetch Hbody u w0 w1 w2.
  unfold discount_execute, bind at 1, lift. rewrite Hu.
  unfold bind at 1.
  pose proof (isOnCooldown_value "discount" uid w) as Hv.
  pose proof (isOnCooldown_world "discount" uid w) as (Hl & Hnow & Hscript & _).
  fold w0 in Hnow, Hscript, Hl.
  destruct (isOnCooldown "discount" uid w) as [r w0'] eqn:Hrun.
  cbn [fst snd] in *. subst r. subst w0.
  destruct (Z.ltb_spec (now w) (expiry (cooldowns w) "discount" uid)); [lia|].
  change (0 <? 0) with false. cbv iota.
  assert (Hs : next_say w0' = next_say w) by (unfold next_say; by rewrite Hscript).
  unfold bind at 1. rewrite say_run, Hs, Hsay. fold u. fold (discount_announcement u).
  fold w1.
  assert (Hf : next_fetch w1 = next_fetch w).
  { unfold next_fetch, w1. cbn [script settle pop_say fetches]. by rewrite Hscript. }
  unfold bind at 1, try_catch at 1, bind at 1, requestViewerDiscount, bind at 1, fetch.
  rewrite Hf, Hfetch. cbn [fst snd viewer_id viewer_login viewer_name].
  fold (discount_request channel tags uid). fold w2.
  unfold bind at 1, lift, readJsonOrText. rewrite Hbody.
  unfold bind at 1, try_catch.
  destruct (includes _ _); cbn [fst snd truthy is_object andb ret]; reflexivity.
Qed.

(** The discount handler when the backend says [limit_reached]: the
    reply depends on the claim the cache holds when the answer arrives. *)
Lemma discount_limit_reached_run channel tags uid w res raw kvs okv :
  userId_of tags = Ok uid ->
  expiry (cooldowns w) "discount" uid <= now w ->
  snd (next_say w) = true ->
  snd (next_fetch w) = FetchResolves res ->
  body res = Readable raw (Some (JObj kvs)) ->
  assoc_get "ok" kvs = Some okv -> okv <> JUndefined -> truthy okv = false ->
  assoc_get "reason" kvs = Some (JStr "limit_reached") ->
  let u := show_opt (name_of tags) in
  let t := now w + fst (next_say w) + fst (next_fetch w) in
  let text :=
    match claimedDiscounts w !! channel ≫= (.!! uid) with
    | Some entry =>
        if (t - createdAt entry <=? 10 * 60 * 1000) && truthy (code entry)
        then discount_claimed_text u (code entry)
        else discount_redeemed_text u
    | None => discount_redeemed_text u
    end in
  let w0 := snd (isOnCooldown "discount" uid w) in
  let w1 := settle (fst (next_say w)) (pop_say (script w0))
              (Said channel (discount_announcement u) true) w0 in
  let w2 := settle (fst (next_fetch w)) (pop_fetch (script w1))
              (discount_request channel tags uid) w1 in
  discount_execute channel tags w = say channel text w2.
Proof.
  intros Hu Hcd Hsay Hfetch Hbody Hok Hdef Hfalsy Hreason u t text w0 w1 w2.
  rewrite (discount_reaches_result channel tags uid w res raw kvs) by done.
  fold u. fold w0. fold w1. fold w2.
  pose proof (isOnCooldown_world "discount" uid w) as (Hl & Hnow & _).
  fold w0 in Hl, Hnow.
  assert (Hon : discount_on_result channel u uid
                  (spread_with_status (JObj kvs) (status res)) w2
                = (Ok (say channel text), w2)).
  { unfold discount_on_result. cbn [spread_with_status truthy negb orb opt_prop].
    rewrite !assoc_get_set_ne by done. rewrite Hok, Hreason. cbn [default id].
    rewrite Hfalsy. cbn [negb].
    assert ((match okv with JUndefined => true | _ => false end) = false) as ->
      by (by destruct okv).
    cbn [is_str String.eqb Ascii.eqb Bool.eqb andb].
    unfold bind. rewrite getUserDiscount_run. cbn [fst snd].
    assert (Hclaims : claimedDiscounts w2 = claimedDiscounts w) by (by destruct Hl as (_ & ? & _)).
    assert (Hnow2 : now w2 = t).
    { unfold w2, w1, t. cbn [now settle]. rewrite Hnow. lia. }
    rewrite Hclaims, Hnow2. unfold text, DISCOUNT_LIFETIME_MS.
    destruct (claimedDiscounts w !! channel ≫= (.!! uid)) as [entry|]; [|done].
    destruct (Z.gtb_spec (t - createdAt entry) (10 * 60 * 1000)),
             (Z.leb_spec (t - createdAt entry) (10 * 60 * 1000)); try lia; cbn [andb].
    - done.
    - by destruct (truthy (code entry)). }
  unfold bind, try_catch. by rewrite Hon.
Qed.

(** X17. When the backend refuses a discount with reason [limit_reached],
    the viewer is reminded of their code if the cache holds a claim of
    theirs for the channel that is at most 10 minutes old at that moment
    and has a code, and is told that the discount was already redeemed
    otherwise; either way the refusal costs no cooldown and leaves the
    claims as they were. *)
Theorem limit_reached_recalls_the_claim (channel : string) (tags : Tags) (uid : string)
    (w : World) (res : Response) (raw : string) (kvs : list (string * JValue))
    (okv : JValue) :
  userId_of tags = Ok uid ->
  expiry (cooldowns w) "discount" uid <= now w ->
  snd (next_say w) = true ->
  snd (next_fetch w) = FetchResolves res ->
  body res = Readable raw (Some (JObj kvs)) ->
  assoc_get "ok" kvs = Some okv -> okv <> JUndefined -> truthy okv = false ->
  assoc_get "reason" kvs = Some (JStr "limit_reached") ->
  let u := show_opt (name_of tags) in
  let t := now w + fst (next_say w) + fst (next_fetch w) in
  let text :=
    match claimedDiscounts w !! channel ≫= (.!! uid) with
    | Some entry =>
        if (t - createdAt entry <=? 10 * 60 * 1000) && truthy (code entry)
        then discount_claimed_text u (code entry)
        else discount_redeemed_text u
    | None => discount_redeemed_text u
    end in
  let w' := snd (discount_execute channel tags w) in
  (exists ok,
     new_events w w'
     = [Said channel (discount_announcement u) true;
        discount_request channel tags uid;
        Said channel text ok])
  /\ same_ledger w w'.
Proof.
  intros Hu Hcd Hsay Hfetch Hbody Hok Hdef Hfalsy Hreason u t text w'.
  split.
  2:{ apply discount_quiet_unless_issued. unfold discount_issues. rewrite Hu, Hfetch.
      unfold backend_says_ok. rewrite Hbody, Hok. cbn [default id]. rewrite Hfalsy.
      apply andb_false_r. }
  unfold w'.
  rewrite (discount_limit_reached_run channel tags uid w res raw kvs okv) by done.
  fold u. fold t. fold text.
  pose proof (isOnCooldown_world "discount" uid w) as (_ & _ & _ & Htr & _).
  eexists.
  match goal with |- new_events w (snd (say channel text ?v)) = _ =>
    apply (say_after_events channel text w v
             [Said channel (discount_announcement u) true;
              discount_request channel tags uid])
  end.
  cbn [trace settle]. rewrite Htr. by rewrite <- app_assoc.
Qed.

(** A minute after her code was issued Alice asks again and the backend
    says the limit is reached. *)
Lemma limit_reached_recalls_the_claim_witness :
  exists ok,
    new_events limit_world (snd (discount_execute "#bob" alice limit_world))
    = [Said "#bob" (discount_announcement "Alice") true;
       discount_request "#bob" alice "42";
       Said "#bob" "🎁 @Alice you already claimed a discount this stream: DROP-ALICE-1234" ok].
Proof.
  destruct (limit_reached_recalls_the_claim "#bob" alice "42" limit_world
              {| status := 429; content_type := Some "application/json";
                 body := Readable "{...}"
                           (Some (JObj [("ok", JBool false);
                                        ("reason", JStr "limit_reached")])) |}
              "{...}" [("ok", JBool false); ("reason", JStr "limit_reached")]
              (JBool false))
    as [[ok Hev] _];
    [reflexivity|by vm_compute|reflexivity|reflexivity|reflexivity|reflexivity
    |discriminate|reflexivity|reflexivity|].
  exists ok. exact Hev.
Defined.

(** ** The channels of the environment *)

Lemma split_comma_piece cur a :
  no_comma a = true -> split_comma cur a = [cur +:+ a].
Proof.
  revert cur. induction a as [|c a IH]; intros cur Ha.
  - cbn [split_comma]. by rewrite append_empty.
  - cbn [no_comma forall_string] in Ha. apply andb_prop in Ha as [Hc Ha].
    apply negb_true_iff in Hc. cbn [split_comma]. rewrite Hc, IH by exact Ha.
    by rewrite append_assoc_cons.
Qed.

Lemma split_comma_next cur a s :
  no_comma a = true ->
  split_comma cur (a +:+ "," +:+ s) = (cur +:+ a) :: split_comma EmptyString s.
Proof.
  revert cur. induction a as [|c a IH]; intros cur Ha.
  - cbn [split_comma String.append Ascii.eqb Bool.eqb]. by rewrite append_empty.
  - cbn [no_comma forall_string] in Ha. apply andb_prop in Ha as [Hc Ha].
    apply negb_true_iff in Hc. rewrite append_cons. cbn [split_comma].
    rewrite Hc, IH by exact Ha. by rewrite append_assoc_cons.
Qed.

Lemma split_comma_join names :
  names <> [] -> Forall (fun ch => no_comma ch = true) names ->
  split_comma EmptyString (join_with "," names) = names.
Proof.
  induction names as [|a names IH]; [done|]. intros _ Hall.
  apply Forall_cons in Hall as [Ha Hall].
  destruct names as [|b names].
  - cbn [join_with]. by rewrite split_comma_piece.
  - change (join_with "," (a :: b :: names)) with (a +:+ "," +:+ join_with "," (b :: names)).
    rewrite split_comma_next by done. by rewrite IH.
Qed.

(** X18. The channels read from the environment: every name kept is not
    empty, in lower case and without surrounding white space; [CHANNELS]
    is used when it is set and not empty, [CHANNEL_NAME] otherwise, and
    with neither there is no channel; a comma-separated list of names that
    are already in that form reads back as the same list, in order. *)
Theorem channels_of_env_reads_the_list (CHANNELS CHANNEL_NAME : option string) :
  (forall ch, ch ∈ channels_of_env CHANNELS CHANNEL_NAME -> normal_name ch)
  /\ channels_of_env CHANNELS CHANNEL_NAME
     = channels_of_env (str_or CHANNELS CHANNEL_NAME) None
  /\ channels_of_env None None = []
  /\ (forall names,
        names <> [] ->
        Forall (fun ch => normal_name ch /\ no_comma ch = true) names ->
        channels_of_env (Some (join_with "," names)) CHANNEL_NAME = names).
Proof.
  split; [|split; [|split]].
  - intros ch. unfold channels_of_env. rewrite list_elem_of_filter. intros [Hne Hin].
    apply list_elem_of_In, in_map_iff in Hin as (c & <- & _). by apply normal_name_made.
  - unfold channels_of_env. do 3 f_equal. unfold str_or at 1 3 4.
    destruct (str_truthy (str_or CHANNELS CHANNEL_NAME)) eqn:E; [by rewrite E|done].
  - reflexivity.
  - intros names Hne Hall. unfold channels_of_env.
    assert (Hjoin : str_truthy (Some (join_with "," names)) = true).
    { destruct names as [|a names]; [done|]. apply Forall_cons in Hall as [[[Ha _] _] _].
      destruct a as [|c a]; [done|]. by destruct names. }
    unfold str_or at 2. rewrite Hjoin. unfold str_or. rewrite Hjoin. cbn [default id].
    rewrite split_comma_join; [|done|by eapply Forall_impl; [exact Hall|intros ? [_ ?]]].
    clear Hne Hjoin. induction names as [|a names IH]; [done|].
    apply Forall_cons in Hall as [[(Ha & Hlow & Htrim) _] Hall].
    cbn [map]. rewrite Htrim, Hlow, filter_cons.
    destruct (decide (is_empty a = false)) as [_|Hn]; [|by destruct a].
    f_equal. by apply IH.
Qed.

(** ** The Shopify client, step by step *)

Lemma is_nullish_opt_prop d k : is_nullish d = true -> is_nullish (opt_prop d k) = true.
Proof. by destruct d. Qed.

Ltac close_steps Hev Hl :=
  rewrite ?Hev;
  repeat match goal with
         | |- _ /\ _ => split
         | |- forall _, _ = Ok _ -> _ =>
             let Heq := fresh in
             intros ? Heq; first [discriminate Heq | injection Heq as <-; by eauto 10]
         | |- length _ = _ -> _ =>
             let Hlen := fresh in intros Hlen; first [discriminate Hlen | by eexists]
         | |- same_ledger _ _ => exact Hl
         | |- _ = _ => reflexivity
         end.

Lemma createDiscountForViewer_run toISOString STORE_DOMAIN r uname w :
  let c := discount_code_text uname r in
  let w1 := settle (fst (next_axios w)) (pop_axios (script w))
              (BackendCall "/price_rules.json" "POST"
                 (personal_price_rule toISOString (now w))) w in
  createDiscountForViewer toISOString STORE_DOMAIN r uname w
  = match snd (next_axios w) with
    | AxiosThrows err => (Throw err, w1)
    | AxiosResolves _ d =>
        if is_nullish (opt_prop d "price_rule") then (Throw TypeError, w1)
        else
          let id := opt_prop (opt_prop d "price_rule") "id" in
          let w2 := settle (fst (next_axios w1)) (pop_axios (script w1))
                      (code_request id c) w1 in
          match snd (next_axios w1) with
          | AxiosThrows err => (Throw err, w2)
          | AxiosResolves _ d2 =>
              if is_nullish (opt_prop d2 "discount_code") then (Throw TypeError, w2)
              else (Ok {| dc_code := c;
                          dc_url := "https://" +:+ STORE_DOMAIN +:+ "/discount/" +:+ c;
                          dc_id := opt_prop (opt_prop d2 "discount_code") "id" |}, w2)
          end
    end.
Proof.
  intros c w1.
  unfold createDiscountForViewer, createPriceRule, bind, Date_now, gets, axios.
  cbn [fst snd]. fold w1.
  destruct (snd (next_axios w)) as [err|st d]; cbn [fst snd]; [done|].
  destruct (is_nullish d) eqn:Hd; cbn [fst snd throw ret].
  { by rewrite (is_nullish_opt_prop d "price_rule" Hd). }
  destruct (is_nullish (opt_prop d "price_rule")); cbn [fst snd throw]; [done|].
  unfold createDiscountCode, bind, axios. fold c.
  fold (code_request (opt_prop (opt_prop d "price_rule") "id") c).
  destruct (snd (next_axios w1)) as [err|st2 d2]; cbn [fst snd]; [done|].
  destruct (is_nullish d2) eqn:Hd2; cbn [orb].
  { by rewrite (is_nullish_opt_prop d2 "discount_code" Hd2). }
  by destruct (is_nullish (opt_prop d2 "discount_code")).
Qed.

Lemma createGlobalDrop_run toISOString c percent w :
  let w1 := settle (fst (next_axios w)) (pop_axios (script w))
              (BackendCall "/price_rules.json" "POST"
                 (global_price_rule toISOString (now w) c percent)) w in
  createGlobalDrop toISOString c percent w
  = match snd (next_axios w) with
    | AxiosThrows err => (Throw err, w1)
    | AxiosResolves _ d =>
        if is_nullish (opt_prop d "price_rule") then (Throw TypeError, w1)
        else
          let id := opt_prop (opt_prop d "price_rule") "id" in
          let w2 := settle (fst (next_axios w1)) (pop_axios (script w1))
                      (code_request id c) w1 in
          match snd (next_axios w1) with
          | AxiosThrows err => (Throw err, w2)
          | AxiosResolves _ d2 =>
              if is_nullish d2 then (Throw TypeError, w2)
              else (Ok (opt_prop d2 "discount_code"), w2)
          end
    end.
Proof.
  intros w1. unfold createGlobalDrop, bind, Date_now, gets, axios.
  cbn [fst snd]. fold w1.
  destruct (snd (next_axios w)) as [err|st d]; cbn [fst snd]; [done|].
  destruct (is_nullish d) eqn:Hd; cbn [orb fst snd throw ret].
  { by rewrite (is_nullish_opt_prop d "price_rule" Hd). }
  destruct (is_nullish (opt_prop d "price_rule")); cbn [fst snd throw]; [done|].
  fold (code_request (opt_prop (opt_prop d "price_rule") "id") c).
  destruct (snd (next_axios w1)) as [err|st2 d2]; cbn [fst snd]; [done|].
  by destruct (is_nullish d2).
Qed.

(** X19. A personal code is created in two steps that are never undone:
    the price rule is requested first; the code is requested only when
    that answer holds a price rule, under the id found in it, and no third
    request follows whatever the second answer is. A result is returned
    only after both requests; it carries the code that was sent, the
    store's URL for that code and the id from the second answer. When the
    first request is the only one, the call fails. Nothing of the bot's
    ledger is touched. *)
Theorem createDiscountForViewer_steps (toISOString : Z -> string) (STORE_DOMAIN : string)
    (r : Q) (uname : string) (w : World) :
  let run := createDiscountForViewer toISOString STORE_DOMAIN r uname w in
  let rule_request :=
    BackendCall "/price_rules.json" "POST" (personal_price_rule toISOString (now w)) in
  let c := discount_code_text uname r in
  let w1 := settle (fst (next_axios w)) (pop_axios (script w)) rule_request w in
  new_events w (snd run)
  = match snd (next_axios w) with
    | AxiosResolves _ d =>
        if is_nullish (opt_prop d "price_rule") then [rule_request]
        else [rule_request; code_request (opt_prop (opt_prop d "price_rule") "id") c]
    | AxiosThrows _ => [rule_request]
    end
  /\ (forall dc, fst run = Ok dc ->
        length (new_events w (snd run)) = 2%nat
        /\ dc_code dc = c
        /\ dc_url dc = "https://" +:+ STORE_DOMAIN +:+ "/discount/" +:+ c
        /\ exists st d2, snd (next_axios w1) = AxiosResolves st d2
                         /\ dc_id dc = opt_prop (opt_prop d2 "discount_code") "id")
  /\ (length (new_events w (snd run)) = 1%nat -> exists err, fst run = Throw err)
  /\ same_ledger w (snd run)
  /\ lastGlobalDropAt (snd run) = lastGlobalDropAt w.
Proof.
  intros run rule_request c w1. unfold run. clear run.
  rewrite createDiscountForViewer_run. cbv zeta. fold c. fold rule_request. fold w1.
  assert (Hw1 : new_events w w1 = [rule_request]) by (by apply new_events_app).
  assert (Hl1 : same_ledger w w1) by apply same_ledger_settle.
  destruct (snd (next_axios w)) as [err|st d]; cbn [fst snd]; [close_steps Hw1 Hl1|].
  destruct (is_nullish (opt_prop d "price_rule")); cbn [fst snd]; [close_steps Hw1 Hl1|].
  set (w2 := settle (fst (next_axios w1)) (pop_axios (script w1)) _ w1).
  assert (Hw2 : new_events w w2
                = [rule_request; code_request (opt_prop (opt_prop d "price_rule") "id") c]).
  { apply new_events_app. unfold w2, w1. cbn [trace settle]. by rewrite <- app_assoc. }
  assert (Hl2 : same_ledger w w2) by (repeat split; done).
  destruct (snd (next_axios w1)) as [err|st2 d2]; cbn [fst snd]; [close_steps Hw2 Hl2|].
  destruct (is_nullish (opt_prop d2 "discount_code")); cbn [fst snd]; close_steps Hw2 Hl2.
Qed.

(** X20. A global drop is created in the same two steps: the price rule
    for the percent first, then the code itself under the id of the rule
    just created, and nothing after that; the result is the
    [discount_code] of the second answer, returned only after both
    requests, and a first request that stands alone means the call
    failed. *)
Theorem createGlobalDrop_steps (toISOString : Z -> string) (c : string) (percent : Z)
    (w : World) :
  let run := createGlobalDrop toISOString c percent w in
  let rule_request :=
    BackendCall "/price_rules.json" "POST" (global_price_rule toISOString (now w) c percent) in
  let w1 := settle (fst (next_axios w)) (pop_axios (script w)) rule_request w in
  new_events w (snd run)
  = match snd (next_axios w) with
    | AxiosResolves _ d =>
        if is_nullish (opt_prop d "price_rule") then [rule_request]
        else [rule_request; code_request (opt_prop (opt_prop d "price_rule") "id") c]
    | AxiosThrows _ => [rule_request]
    end
  /\ (forall result, fst run = Ok result ->
        length (new_events w (snd run)) = 2%nat
        /\ exists st d2, snd (next_axios w1) = AxiosResolves st d2
                         /\ result = opt_prop d2 "discount_code")
  /\ (length (new_events w (snd run)) = 1%nat -> exists err, fst run = Throw err)
  /\ same_ledger w (snd run)
  /\ lastGlobalDropAt (snd run) = lastGlobalDropAt w.
Proof.
  intros run rule_request w1. unfold run. clear run.
  rewrite createGlobalDrop_run. cbv zeta. fold rule_request. fold w1.
  assert (Hw1 : new_events w w1 = [rule_request]) by (by apply new_events_app).
  assert (Hl1 : same_ledger w w1) by apply same_ledger_settle.
  split.
  { destruct (snd (next_axios w)) as [err|st d]; cbn [fst snd]; [done|].
    destruct (is_nullish (opt_prop d "price_rule")); cbn [fst snd]; [done|].
    assert (Hw2 : forall x, new_events w
                    (settle x (pop_axios (script w1))
                       (code_request (opt_prop (opt_prop d "price_rule") "id") c) w1)
                  = [rule_request; code_request (opt_prop (opt_prop d "price_rule") "id") c]).
    { intros x. apply new_events_app. unfold w1. cbn [trace settle]. by rewrite <- app_assoc. }
    destruct (snd (next_axios w1)) as [err|st2 d2]; cbn [fst snd]; [apply Hw2|].
    destruct (is_nullish d2); cbn [fst snd]; apply Hw2. }
  destruct (snd (next_axios w)) as [err|st d]; cbn [fst snd]; [close_steps Hw1 Hl1|].
  destruct (is_nullish (opt_prop d "price_rule")); cbn [fst snd]; [close_steps Hw1 Hl1|].
  set (w2 := settle (fst (next_axios w1)) (pop_axios (script w1)) _ w1).
  assert (Hw2 : new_events w w2
                = [rule_request; code_request (opt_prop (opt_prop d "price_rule") "id") c]).
  { apply new_events_app. unfold w2, w1. cbn [trace settle]. by rewrite <- app_assoc. }
  assert (Hl2 : same_ledger w w2) by (repeat split; done).
  destruct (snd (next_axios w1)) as [err|st2 d2] eqn:Hax2; cbn [fst snd];
    [close_steps Hw2 Hl2|].
  destruct (is_nullish d2); cbn [fst snd]; [close_steps Hw2 Hl2|].
  rewrite Hw2. split; [|close_steps Hw2 Hl2].
  intros result [= <-]. split; [done|]. by exists st2, d2.
Qed.

(** ** Polling *)

(** X22. Polling retries exactly what failed: when two syncs get the same
    roster and the set of joined channels was not changed in between, the
    second asks to join a channel if and only if the channel is on the
    roster, was not joined before the first sync and was not accepted
    during it. A roster whose joins were all accepted makes every later
    poll a single roster request. *)
Theorem second_sync_retries_what_failed (w w2 : World) (names : list string)
    (ch : string) :
  roster_of (snd (next_axios w)) = Some names ->
  roster_of (snd (next_axios w2)) = Some names ->
  let w1 := snd (syncJoinsFromBackend w) in
  joinedChannels w2 = joinedChannels w1 ->
  ((exists ok, JoinRequest ch ok ∈ new_events w2 (snd (syncJoinsFromBackend w2)))
   <-> ch ∈ names /\ (ch ∉ joinedChannels w) /\ (JoinRequest ch true ∉ new_events w w1))
  /\ ((forall c, JoinRequest c false ∉ new_events w w1) ->
      new_events w2 (snd (syncJoinsFromBackend w2)) = [RosterRequest]).
Proof.
  intros Hr Hr2 w1 Hsame. unfold w1 in *. clear w1.
  destruct (sync_events w) as (l & Hev & Hj & Hiff & _).
  destruct (sync_events w2) as (l2 & Hev2 & Hj2 & Hiff2 & _).
  rewrite Hev, Hev2.
  assert (Hcons : forall (c : string) (b : bool) (k : list Event),
            JoinRequest c b ∈ RosterRequest :: k <-> JoinRequest c b ∈ k).
  { intros c b k. rewrite elem_of_cons. split; [by intros [[=]|?]|by right]. }
  assert (Hjoined : forall c, c ∈ joinedChannels w2
                              <-> c ∈ joinedChannels w \/ JoinRequest c true ∈ l).
  { intros c. rewrite Hsame. by apply joins_from_added. }
  assert (Hsecond : forall c, (exists ok, JoinRequest c ok ∈ l2)
                              <-> c ∈ names /\ (c ∉ joinedChannels w)
                                  /\ (JoinRequest c true ∉ l)).
  { intros c. rewrite Hiff2, Hjoined. split.
    - intros (Hno & names' & Hn & Hin). rewrite Hr2 in Hn. injection Hn as <-. tauto.
    - intros (Hin & H1 & H2). split; [tauto|]. by exists names. }
  split.
  - rewrite Hcons. setoid_rewrite Hcons. apply Hsecond.
  - intros Hall. f_equal. destruct l2 as [|e l2]; [done|]. exfalso.
    destruct (joins_from_only _ _ _ e Hj2) as (c & b & ->); [apply list_elem_of_here|].
    destruct (proj1 (Hsecond c)) as (Hin & Hno & Hnot);
      [exists b; apply list_elem_of_here|].
    destruct (proj2 (Hiff c)) as [ok Hreq]; [split; [done|by exists names]|].
    destruct ok; [done|]. apply (Hall c). by apply Hcons.
Qed.

(** Carol's join was refused during the first poll: the second poll asks
    for her again, and for nobody else. *)
Lemma second_sync_retries_what_failed_witness :
  let w1 := snd (syncJoinsFromBackend roster_world) in
  (exists ok, JoinRequest "carol" ok ∈ new_events w1 (snd (syncJoinsFromBackend w1)))
  /\ ~ (exists ok, JoinRequest "alice" ok ∈ new_events w1 (snd (syncJoinsFromBackend w1))).
Proof.
  intros w1.
  pose proof (fun ch => proj1 (second_sync_retries_what_failed roster_world w1
                                 ["alice"; "bob"; "carol"] ch eq_refl eq_refl eq_refl))
    as H.
  split.
  - apply H. split; [apply list_elem_of_further, list_elem_of_further, list_elem_of_here|].
    split.
    + vm_compute. discriminate.
    + vm_compute. intros Hin.
      repeat (apply elem_of_cons in Hin as [Hin|Hin]; [discriminate Hin|]).
      by apply elem_of_nil in Hin.
  - intros Hex. apply H in Hex as (_ & _ & Hnot). apply Hnot.
    vm_compute. apply list_elem_of_further, list_elem_of_here.
Defined.

(** ** Issue, then ask again *)

(** X23. The code a viewer was issued is the code they are reminded of:
    after [!discount] issued a code [c] in a channel, the same viewer's
    next [!discount] there, made once the 30 seconds are over and refused
    by the backend with [limit_reached], is answered with [c] when the
    refusal arrives at most 10 minutes after the issuance, and with the
    already-redeemed reply after that. *)
Theorem issued_code_is_recalled (channel : string) (tags : Tags) (uid : string)
    (w : World) (res res2 : Response) (raw raw2 : string)
    (kvs kvs2 : list (string * JValue)) (okv : JValue) (dt : Z) :
  userId_of tags = Ok uid ->
  expiry (cooldowns w) "discount" uid <= now w ->
  snd (next_say w) = true ->
  snd (next_fetch w) = FetchResolves res ->
  body res = Readable raw (Some (JObj kvs)) ->
  truthy (default JUndefined (assoc_get "ok" kvs)) = true ->
  let c := default JUndefined (assoc_get "discountCode" kvs) in
  truthy c = true ->
  let issued_at := now w + fst (next_say w) + fst (next_fetch w) in
  let w2 := later dt (snd (discount_execute channel tags w)) in
  issued_at + 30 * 1000 <= now w2 ->
  snd (next_say w2) = true ->
  snd (next_fetch w2) = FetchResolves res2 ->
  body res2 = Readable raw2 (Some (JObj kvs2)) ->
  assoc_get "ok" kvs2 = Some okv -> okv <> JUndefined -> truthy okv = false ->
  assoc_get "reason" kvs2 = Some (JStr "limit_reached") ->
  let u := show_opt (name_of tags) in
  let refused_at := now w2 + fst (next_say w2) + fst (next_fetch w2) in
  exists ok,
    new_events w2 (snd (discount_execute channel tags w2))
    = [Said channel (discount_announcement u) true;
       discount_request channel tags uid;
       Said channel (if refused_at - issued_at <=? 10 * 60 * 1000
                     then discount_claimed_text u c
                     else discount_redeemed_text u) ok].
Proof.
  intros Hu Hcd Hsay Hfetch Hbody Hok c Hc issued_at w2 Hlater Hsay2 Hfetch2 Hbody2
    Hok2 Hdef Hfalsy Hreason u refused_at.
  pose proof (discount_issued channel tags uid w res raw kvs Hu Hcd Hsay Hfetch Hbody Hok)
    as Hrun.
  cbv zeta in Hrun. fold u in Hrun. fold c in Hrun.
  pose proof (isOnCooldown_world "discount" uid w) as (_ & Hnow0 & _).
  set (w0 := snd (isOnCooldown "discount" uid w)) in *.
  set (wa := settle (fst (next_say w)) (pop_say (script w0))
               (Said channel (discount_announcement u) true) w0) in *.
  set (wb := settle (fst (next_fetch w)) (pop_fetch (script wa))
               (discount_request channel tags uid) wa) in *.
  assert (Hnowb : now wb = issued_at).
  { unfold wb, wa, issued_at. cbn [now settle]. rewrite Hnow0. lia. }
  set (wc := snd (setUserDiscount channel uid c wb)) in *.
  set (wd := snd (setCooldown "discount" uid (30 * 1000) wc)) in *.
  assert (Hclaim : claimedDiscounts w2 !! channel ≫= (.!! uid)
                   = Some {| code := c; createdAt := issued_at |}).
  { unfold w2. rewrite Hrun. cbn [snd say claimedDiscounts later settle].
    unfold wd. rewrite setCooldown_run. cbn [snd claimedDiscounts with_cooldowns].
    unfold wc. rewrite setUserDiscount_run. cbn [snd claimedDiscounts with_claims].
    rewrite lookup_insert_eq. cbn [mbind option_bind]. rewrite lookup_insert_eq.
    by rewrite Hnowb. }
  assert (Hcd2 : expiry (cooldowns w2) "discount" uid <= now w2).
  { assert (Hexp : expiry (cooldowns w2) "discount" uid = issued_at + 30 * 1000).
    { unfold w2. rewrite Hrun. cbn [snd say cooldowns later settle].
      unfold wd. rewrite expiry_setCooldown. unfold wc. rewrite setUserDiscount_run.
      cbn [snd now with_claims]. by rewrite Hnowb. }
    rewrite Hexp. exact Hlater. }
  rewrite (discount_limit_reached_run channel tags uid w2 res2 raw2 kvs2 okv) by done.
  fold u. fold refused_at. rewrite Hclaim. cbn [code createdAt]. rewrite Hc, andb_true_r.
  pose proof (isOnCooldown_world "discount" uid w2) as (_ & _ & _ & Htr & _).
  eexists.
  match goal with |- new_events w2 (snd (say channel ?text ?v)) = _ =>
    apply (say_after_events channel text w2 v
             [Said channel (discount_announcement u) true;
              discount_request channel tags uid])
  end.
  cbn [trace settle]. rewrite Htr. by rewrite <- app_assoc.
Qed.

(** Alice is issued [DROP-ALICE-1234]; a minute later the backend says
    the limit is reached, and she is shown that code. *)
Lemma issued_code_is_recalled_witness :
  let w2 := later 60000 (snd (discount_execute "#bob" alice twice_world)) in
  exists ok,
    new_events w2 (snd (discount_execute "#bob" alice w2))
    = [Said "#bob" (discount_announcement "Alice") true;
       discount_request "#bob" alice "42";
       Said "#bob" "🎁 @Alice you already claimed a discount this stream: DROP-ALICE-1234" ok].
Proof.
  intros w2.
  destruct (issued_code_is_recalled "#bob" alice "42" twice_world
              {| status := 200; content_type := Some "application/json";
                 body := Readable "{...}"
                           (Some (JObj [("ok", JBool true);
                                        ("discountCode", JStr "DROP-ALICE-1234")])) |}
              {| status := 429; content_type := Some "application/json";
                 body := Readable "{...}"
                           (Some (JObj [("ok", JBool false);
                                        ("reason", JStr "limit_reached")])) |}
              "{...}" "{...}"
              [("ok", JBool true); ("discountCode", JStr "DROP-ALICE-1234")]
              [("ok", JBool false); ("reason", JStr "limit_reached")]
              (JBool false) 60000)
    as [ok Hev];
    [reflexivity|by vm_compute|reflexivity|reflexivity|reflexivity|reflexivity
    |reflexivity|by vm_compute|reflexivity|reflexivity|reflexivity|reflexivity
    |discriminate|reflexivity|reflexivity|].
  exists ok. exact Hev.
Defined.
